(** * SudokuSolver: the bitset board, the simplification passes and the
      depth-first search of [SudokuBoard.cpp], embedded in Rocq.

    The board is the array of twelve 64-bit words of the C++ class, the
    three unsigned types ([uc], [ui], [ulli]) are [Z] with the wrap-around
    written where a counter is incremented, exceptions are an error monad,
    and the three observer callbacks are functions over a state [L] of
    their own which may also read the board (as the listeners of [Main.cpp]
    do through the global [board]).  [Live] has the same functions with
    listeners that may also write to the board and throw. *)

From Stdlib Require Import ZArith List Bool Lia.
From stdpp Require Import base numbers list.

Local Open Scope Z_scope.

(** ** Machine integers *)

Definition wrap32 (z : Z) : Z := z mod 2 ^ 32.
Definition wrap64 (z : Z) : Z := z mod 2 ^ 64.

(** ** Exceptions *)

Inductive exn : Type :=
| invalid_argument   (* thrown by isPossibleAt / setPossibleAt *)
| runtime_error.     (* thrown by findMRVCell *)

Inductive outcome (A : Type) : Type :=
| Ok (a : A)
| Throw (e : exn).

Arguments Ok {A} a.
Arguments Throw {A} e.

Definition bind {A B : Type} (c : outcome A) (k : A -> outcome B) : outcome B :=
  match c with
  | Ok a => k a
  | Throw e => Throw e
  end.

Notation "'let*' x ':=' c 'in' k" := (bind c (fun x => k))
  (at level 10, x pattern, c at level 100, k at level 200).

Fixpoint foldM {A S : Type} (f : S -> A -> outcome S) (l : list A) (s : S)
  : outcome S :=
  match l with
  | [] => Ok s
  | a :: l' => let* s' := f s a in foldM f l' s'
  end.

(** ** Positions *)

Record GPos : Type := mkGPos { getX : Z; getY : Z }.

(** [for (uc i = 0; i < 9; i++)] *)
Definition range9 : list Z := [0; 1; 2; 3; 4; 5; 6; 7; 8].
(** [for (uc v = 1; v <= 9; v++)] *)
Definition values : list Z := [1; 2; 3; 4; 5; 6; 7; 8; 9].

(** The row-major scan [for y ... for x ...] used by every whole-board loop. *)
Definition allCells : list GPos :=
  flat_map (fun y => map (fun x => mkGPos x y) range9) range9.

Definition validPos (p : GPos) : Prop :=
  0 <= getX p <= 8 /\ 0 <= getY p <= 8.

Definition validValue (v : Z) : Prop := 1 <= v <= 9.

(** ** The board *)

(** [std::array<ulli, 12> bitset] *)
Abbreviation SudokuBoard := (list Z) (only parsing).

(** The default constructor: every word is [~0ULL]. *)
Definition newBoard : SudokuBoard := replicate 12 (2 ^ 64 - 1).

Definition wfBoard (b : SudokuBoard) : Prop := length b = 12%nat.

(** [copyData] returns the array by value; the constructor from an array and
    the move assignment copy it element by element. *)
Definition copyData (b : SudokuBoard) : list Z := b.
Definition fromData (data : list Z) : SudokuBoard := data.

Definition gpos2bitsetIndex (gpos : GPos) : Z :=
  let cellIndex := wrap32 (getX gpos + wrap32 (getY gpos * 9)) in
  wrap32 (cellIndex * 9).

Definition inRange (value : Z) : bool := (1 <=? value) && (value <=? 9).

Definition isPossibleAt (b : SudokuBoard) (gpos : GPos) (value : Z)
  : outcome bool :=
  if negb (inRange value) then Throw invalid_argument
  else
    let base_index := gpos2bitsetIndex gpos in
    let bit_index := wrap32 (base_index + (value - 1)) in
    let bsci := bit_index / 64 in
    let bsii := bit_index mod 64 in
    Ok (negb (Z.land (b !!! Z.to_nat bsci) (Z.shiftl 1 bsii) =? 0)).

(** A mutating method that may throw returns its result or exception
    together with the board it leaves behind. *)
Definition setPossibleAt (b : SudokuBoard) (gpos : GPos) (value : Z)
    (isPossible : bool) : outcome bool * SudokuBoard :=
  if negb (inRange value) then (Throw invalid_argument, b)
  else
    let base_index := gpos2bitsetIndex gpos in
    let bit_index := wrap32 (base_index + (value - 1)) in
    let bsci := bit_index / 64 in
    let bsii := bit_index mod 64 in
    let mask := Z.shiftl 1 bsii in
    let word := b !!! Z.to_nat bsci in
    let currently := negb (Z.land word mask =? 0) in
    if Bool.eqb currently isPossible then (Ok false, b)
    else if isPossible then
      (Ok true, <[Z.to_nat bsci := Z.lor word mask]> b)
    else
      (Ok true, <[Z.to_nat bsci := Z.land word (wrap64 (Z.lnot mask))]> b).

(** Inside the callers an exception propagates and the board it left behind
    is no longer looked at. *)
Definition called {A S : Type} (r : outcome A * S) : outcome (A * S) :=
  let* a := fst r in Ok (a, snd r).

Definition makeSureAt (b : SudokuBoard) (gpos : GPos) (value : Z)
    (force : bool) : outcome SudokuBoard :=
  foldM (fun b v =>
           if v =? value then
             if force then
               let* r := called (setPossibleAt b gpos v true) in Ok (snd r)
             else Ok b
           else
             let* r := called (setPossibleAt b gpos v false) in Ok (snd r))
        values b.

(** [getCellInfoAt] returns the pair (only value or 0, count). *)
Definition getCellInfoAt (b : SudokuBoard) (gpos : GPos) : outcome (Z * Z) :=
  let* r :=
    foldM (fun (acc : Z * Z) v =>
             let* p := isPossibleAt b gpos v in
             if p then Ok (v, snd acc + 1) else Ok acc)
          values (0, 0) in
  Ok (if snd r =? 1 then fst r else 0, snd r).

Definition getOnlyPossibleValue (b : SudokuBoard) (gpos : GPos) : outcome Z :=
  let* r := getCellInfoAt b gpos in Ok (fst r).

Definition getPossiblesCountAt (b : SudokuBoard) (gpos : GPos) : outcome Z :=
  let* r := getCellInfoAt b gpos in Ok (snd r).

Definition getCandiatesAt (b : SudokuBoard) (gpos : GPos) : outcome (list Z) :=
  foldM (fun (acc : list Z) v =>
           let* p := isPossibleAt b gpos v in
           if p then Ok (acc ++ [v]) else Ok acc)
        values [].

(** ** Status checks *)

(** Row-major scan with an early [return] on the first cell whose count
    satisfies [stop]. *)
Fixpoint scanCounts (stop : Z -> bool) (b : SudokuBoard) (cells : list GPos)
  : outcome bool :=
  match cells with
  | [] => Ok false
  | gp :: rest =>
      let* r := getCellInfoAt b gp in
      if stop (snd r) then Ok true else scanCounts stop b rest
  end.

Definition isSolved (b : SudokuBoard) : outcome bool :=
  let* found := scanCounts (fun cnt => negb (cnt =? 1)) b allCells in
  Ok (negb found).

Definition hasContradiction (b : SudokuBoard) : outcome bool :=
  scanCounts (fun cnt => cnt =? 0) b allCells.

(** ** Heuristic selection *)

(** The body of the double loop of [findMRVCell]: [inl] is the early
    [return { gp, 0 }], [inr] the running (bestPos, bestCount). *)
Fixpoint mrvScan (b : SudokuBoard) (cells : list GPos) (best : GPos * Z)
  : outcome (GPos * Z + GPos * Z) :=
  match cells with
  | [] => Ok (inr best)
  | gp :: rest =>
      let* r := getCellInfoAt b gp in
      let cnt := snd r in
      if cnt =? 0 then Ok (inl (gp, 0))
      else if (1 <? cnt) && (cnt <? snd best) then mrvScan b rest (gp, cnt)
      else mrvScan b rest best
  end.

Definition findMRVCell (b : SudokuBoard) : outcome (GPos * Z) :=
  let* r := mrvScan b allCells (mkGPos 0 0, 10) in
  match r with
  | inl early => Ok early
  | inr best => if snd best =? 10 then Throw runtime_error else Ok best
  end.

(** ** Simplification *)

Inductive SimplificationCause : Type :=
| NO_VALUE_POSSIBLE
| ELIMINATION_BY_ROW
| ELIMINATION_BY_COLUMN
| ELIMINATION_BY_CHUNK
| VALUE_SURE_BY_ROW
| VALUE_SURE_BY_COLUMN
| VALUE_SURE_BY_CHUNK.

(** The state a pass threads: the board, the [eliminations] out-parameter
    and the state of the observers. *)
Record PassState (L : Type) : Type := mkPass {
  board : list Z;
  eliminations : Z;
  obs : L
}.

Arguments mkPass {L} board eliminations obs.
Arguments board {L} p.
Arguments eliminations {L} p.
Arguments obs {L} p.

(** [(bx == x && by == y)] *)
Definition samePos (bx by_ x y : Z) : bool := (bx =? x) && (by_ =? y).

(** Hidden-single tests: the row and column loops run to the end, the chunk
    loops [break] at the first peer that still has [v]. *)
Definition rowUnique (b : SudokuBoard) (x y v : Z) : outcome bool :=
  foldM (fun (success : bool) cx =>
           if cx =? x then Ok success
           else let* p := isPossibleAt b (mkGPos cx y) v in
                Ok (if p then false else success))
        range9 true.

Definition colUnique (b : SudokuBoard) (x y v : Z) : outcome bool :=
  foldM (fun (success : bool) cy =>
           if cy =? y then Ok success
           else let* p := isPossibleAt b (mkGPos x cy) v in
                Ok (if p then false else success))
        range9 true.

Fixpoint chunkRowUnique (b : SudokuBoard) (x y v by_ : Z) (bxs : list Z)
  : outcome bool :=
  match bxs with
  | [] => Ok true
  | bx :: rest =>
      if samePos bx by_ x y then chunkRowUnique b x y v by_ rest
      else let* p := isPossibleAt b (mkGPos bx by_) v in
           if p then Ok false else chunkRowUnique b x y v by_ rest
  end.

Fixpoint chunkUniqueRows (b : SudokuBoard) (x y v : Z) (bxs bys : list Z)
  : outcome bool :=
  match bys with
  | [] => Ok true
  | by_ :: rest =>
      let* success := chunkRowUnique b x y v by_ bxs in
      if success then chunkUniqueRows b x y v bxs rest else Ok false
  end.

Definition chunkUnique (b : SudokuBoard) (x y v : Z) : outcome bool :=
  let chunkStartX := x / 3 * 3 in
  let chunkStartY := y / 3 * 3 in
  chunkUniqueRows b x y v
    [chunkStartX; chunkStartX + 1; chunkStartX + 2]
    [chunkStartY; chunkStartY + 1; chunkStartY + 2].

Section Simplify.
Context {L : Type}.

(** [eventListener(cause, cell, value, by)], run on the board as it is at
    the time of the call. *)
Variable eventListener :
  SimplificationCause -> GPos -> Z -> Z -> list Z -> L -> L.

Definition notify (cause : SimplificationCause) (cell : GPos) (value by_ : Z)
    (st : PassState L) : PassState L :=
  mkPass (board st) (eliminations st)
         (eventListener cause cell value by_ (board st) (obs st)).

(** One peer of a naked single: clear [onlyVal] if it is set there. *)
Definition eliminateAt (cause : SimplificationCause) (by_ : Z) (peer : GPos)
    (onlyVal : Z) (st : PassState L) : outcome (PassState L) :=
  let* p := isPossibleAt (board st) peer onlyVal in
  if p then
    let* r := called (setPossibleAt (board st) peer onlyVal false) in
    Ok (notify cause peer onlyVal by_
          (mkPass (snd r) (wrap32 (eliminations st + 1)) (obs st)))
  else Ok st.

Definition eliminateRow (x y onlyVal : Z) (st : PassState L)
  : outcome (PassState L) :=
  foldM (fun st cx =>
           if cx =? x then Ok st
           else eliminateAt ELIMINATION_BY_ROW y (mkGPos cx y) onlyVal st)
        range9 st.

Definition eliminateColumn (x y onlyVal : Z) (st : PassState L)
  : outcome (PassState L) :=
  foldM (fun st cy =>
           if cy =? y then Ok st
           else eliminateAt ELIMINATION_BY_COLUMN x (mkGPos x cy) onlyVal st)
        range9 st.

Definition eliminateChunk (x y onlyVal : Z) (st : PassState L)
  : outcome (PassState L) :=
  let chunkX := x / 3 in
  let chunkY := y / 3 in
  let chunkStartX := chunkX * 3 in
  let chunkStartY := chunkY * 3 in
  foldM (fun st by_ =>
           foldM (fun st bx =>
                    if samePos bx by_ x y then Ok st
                    else eliminateAt ELIMINATION_BY_CHUNK (chunkX + 3 * chunkY)
                           (mkGPos bx by_) onlyVal st)
                 [chunkStartX; chunkStartX + 1; chunkStartX + 2] st)
        [chunkStartY; chunkStartY + 1; chunkStartY + 2] st.

(** [eliminations += cnt - 1; eventListener(...); makeSureAt(selfPos, v, false);]
    where [cnt] is the count read before the value loop started. *)
Definition valueSure (cause : SimplificationCause) (by_ : Z) (selfPos : GPos)
    (v cnt : Z) (st : PassState L) : outcome (PassState L) :=
  let st1 := mkPass (board st) (wrap32 (eliminations st + (cnt - 1))) (obs st) in
  let st2 := notify cause selfPos v by_ st1 in
  let* b' := makeSureAt (board st2) selfPos v false in
  Ok (mkPass b' (eliminations st2) (obs st2)).

(** One iteration of the value loop of the hidden-single rule. *)
Definition hiddenSingleAt (x y cnt : Z) (st : PassState L) (v : Z)
  : outcome (PassState L) :=
  let selfPos := mkGPos x y in
  let* p := isPossibleAt (board st) selfPos v in
  if negb p then Ok st
  else
    let* success := rowUnique (board st) x y v in
    let* st :=
      (if success then valueSure VALUE_SURE_BY_ROW y selfPos v cnt st
       else Ok st) in
    let* success := colUnique (board st) x y v in
    let* st :=
      (if success then valueSure VALUE_SURE_BY_COLUMN x selfPos v cnt st
       else Ok st) in
    let* success := chunkUnique (board st) x y v in
    if success then
      valueSure VALUE_SURE_BY_CHUNK (x / 3 + 3 * (y / 3)) selfPos v cnt st
    else Ok st.

(** The body of the cell loop; [false] is the [return false] of a
    contradiction, [true] falls through to the next cell. *)
Definition simplifyCell (selfPos : GPos) (st : PassState L)
  : outcome (bool * PassState L) :=
  let x := getX selfPos in
  let y := getY selfPos in
  let* info := getCellInfoAt (board st) selfPos in
  let onlyVal := fst info in
  let cnt := snd info in
  if cnt =? 0 then Ok (false, notify NO_VALUE_POSSIBLE selfPos 0 0 st)
  else
    let* st :=
      (if cnt =? 1 then
         let* st := eliminateRow x y onlyVal st in
         let* st := eliminateColumn x y onlyVal st in
         eliminateChunk x y onlyVal st
       else Ok st) in
    let* info := getCellInfoAt (board st) selfPos in
    let cnt := snd info in
    if cnt =? 0 then Ok (false, notify NO_VALUE_POSSIBLE selfPos 0 0 st)
    else if cnt =? 1 then Ok (true, st)
    else
      let* st := foldM (hiddenSingleAt x y cnt) values st in
      Ok (true, st).

Fixpoint simplifyCells (cells : list GPos) (st : PassState L)
  : outcome (bool * PassState L) :=
  match cells with
  | [] => Ok (true, st)
  | c :: rest =>
      let* r := simplifyCell c st in
      if fst r then simplifyCells rest (snd r) else Ok r
  end.

(** [simplify(eliminations, eventListener)]: the returned state carries the
    board after the pass and the value left in [eliminations]. *)
Definition simplify (b : SudokuBoard) (l : L) : outcome (bool * PassState L) :=
  simplifyCells allCells (mkPass b 0 l).

End Simplify.

(** ** Simplification to the fixpoint *)

(** What [simplifyToTheEnd] leaves behind: its return value, the
    [totalEliminations] out-parameter, the board and the observers' state.
    [passes] is instrumentation: the number of calls to [simplify]. *)
Record LoopResult (L : Type) : Type := mkLoop {
  stable : bool;
  totalEliminations : Z;
  loopBoard : list Z;
  loopObs : L;
  passes : nat
}.

Arguments mkLoop {L} stable totalEliminations loopBoard loopObs passes.
Arguments stable {L} l.
Arguments totalEliminations {L} l.
Arguments loopBoard {L} l.
Arguments loopObs {L} l.
Arguments passes {L} l.

Section SimplifyToTheEnd.
Context {L : Type}.

(** [simplifyListener(index, eliminated, eliminatedSum)] *)
Variable simplifyListener : Z -> Z -> Z -> list Z -> L -> L.
Variable eliminateListener :
  SimplificationCause -> GPos -> Z -> Z -> list Z -> L -> L.

(** The [while (true)] loop; [fuel] bounds the number of passes and [None]
    means the bound was too small. *)
Fixpoint simplifyLoop (fuel : nat) (b : SudokuBoard) (total index : Z)
    (n : nat) (l : L) : option (outcome (LoopResult L)) :=
  match fuel with
  | O => None
  | S fuel' =>
      match simplify eliminateListener b l with
      | Throw e => Some (Throw e)
      | Ok (ok, st) =>
          let eliminated := eliminations st in
          if negb ok then
            let total' := wrap64 (total + eliminated) in
            Some (Ok (mkLoop false total' (board st)
                        (simplifyListener index eliminated total'
                           (board st) (obs st))
                        (S n)))
          else if eliminated =? 0 then
            Some (Ok (mkLoop true total (board st) (obs st) (S n)))
          else
            let total' := wrap64 (total + eliminated) in
            simplifyLoop fuel' (board st) total' (wrap32 (index + 1)) (S n)
              (simplifyListener index eliminated total' (board st) (obs st))
      end
  end.

Definition simplifyToTheEnd (fuel : nat) (b : SudokuBoard) (l : L)
  : option (outcome (LoopResult L)) :=
  simplifyLoop fuel b 0 0 0%nat l.

End SimplifyToTheEnd.

(** ** Depth-first search *)

(** The objects [dfsSolve] works on by reference. *)
Record SolverState (L : Type) : Type := mkSolver {
  sboard : list Z;
  spath : list Z;
  sassigned : list bool;
  sobs : L
}.

Arguments mkSolver {L} sboard spath sassigned sobs.
Arguments sboard {L} s.
Arguments spath {L} s.
Arguments sassigned {L} s.
Arguments sobs {L} s.

Section Solver.
Context {L : Type}.

Variable assignListener : list Z -> list bool -> GPos -> list Z -> L -> L.
Variable simplifyListener :
  list Z -> Z -> Z -> Z -> bool -> list bool -> list Z -> L -> L.
Variable eliminateListener :
  list Z -> SimplificationCause -> GPos -> Z -> Z -> list Z -> L -> L.

(** One iteration of the candidate loop; [rec] is the recursive call.
    The result [true] is the [return true] of the function, the result
    [false] is the state with which the loop goes on. *)
Definition tryBranch
    (rec : SolverState L -> option (outcome (bool * SolverState L)))
    (pos : GPos) (v branchIndex : Z) (st : SolverState L)
  : option (outcome (bool * SolverState L)) :=
  let history := copyData (sboard st) in
  match makeSureAt (sboard st) pos v false with
  | Throw e => Some (Throw e)
  | Ok b1 =>
      let path1 := spath st ++ [branchIndex] in
      let l1 := assignListener path1 (sassigned st) pos b1 (sobs st) in
      match rec (mkSolver b1 path1 (sassigned st) l1) with
      | None => None
      | Some (Throw e) => Some (Throw e)
      | Some (Ok (true, st')) => Some (Ok (true, st'))
      | Some (Ok (false, st')) =>
          Some (Ok (false, mkSolver (fromData history) (removelast (spath st'))
                             (sassigned st') (sobs st')))
      end
  end.

Fixpoint tryCandidates
    (rec : SolverState L -> option (outcome (bool * SolverState L)))
    (pos : GPos) (candidates : list Z) (branchIndex : Z) (st : SolverState L)
  : option (outcome (bool * SolverState L)) :=
  match candidates with
  | [] => Some (Ok (false, st))
  | v :: rest =>
      match tryBranch rec pos v branchIndex st with
      | None => None
      | Some (Throw e) => Some (Throw e)
      | Some (Ok (true, st')) => Some (Ok (true, st'))
      | Some (Ok (false, st')) =>
          tryCandidates rec pos rest (wrap32 (branchIndex + 1)) st'
      end
  end.

(** What follows [simplifyToTheEnd] in the body of [dfsSolve]. *)
Definition branchOn
    (rec : SolverState L -> option (outcome (bool * SolverState L)))
    (st : SolverState L) : option (outcome (bool * SolverState L)) :=
  match isSolved (sboard st) with
  | Throw e => Some (Throw e)
  | Ok true => Some (Ok (true, st))
  | Ok false =>
      match findMRVCell (sboard st) with
      | Throw e => Some (Throw e)
      | Ok (pos, cnt) =>
          if cnt =? 0 then Some (Ok (false, st))
          else
            match getCandiatesAt (sboard st) pos with
            | Throw e => Some (Throw e)
            | Ok candidates =>
                let cell := Z.to_nat (getX pos + 9 * getY pos) in
                let marked :=
                  mkSolver (sboard st) (spath st)
                           (<[cell := true]> (sassigned st)) (sobs st) in
                match tryCandidates rec pos candidates 0 marked with
                | None => None
                | Some (Throw e) => Some (Throw e)
                | Some (Ok (true, st')) => Some (Ok (true, st'))
                | Some (Ok (false, st')) =>
                    Some (Ok (false,
                              mkSolver (sboard st') (spath st')
                                       (<[cell := false]> (sassigned st'))
                                       (sobs st')))
                end
            end
      end
  end.

(** The internal recursive [dfsSolve]; [fuel] bounds the recursion depth
    and the passes of each call to [simplifyToTheEnd]. *)
Fixpoint dfsSolve (fuel : nat) (isFirst : bool) (st : SolverState L)
  : option (outcome (bool * SolverState L)) :=
  match fuel with
  | O => None
  | S fuel' =>
      match simplifyToTheEnd
              (fun i elim elimSum =>
                 simplifyListener (spath st) i elim elimSum isFirst (sassigned st))
              (eliminateListener (spath st))
              fuel (sboard st) (sobs st) with
      | None => None
      | Some (Throw e) => Some (Throw e)
      | Some (Ok r) =>
          let st1 := mkSolver (loopBoard r) (spath st) (sassigned st) (loopObs r) in
          if negb (stable r) then Some (Ok (false, st1))
          else branchOn (dfsSolve fuel' false) st1
      end
  end.

(** [dfsSolve(path, assigned, listeners...)]: the public entry point. *)
Definition dfsSolveFrom (fuel : nat) (b : SudokuBoard) (assigned : list bool)
    (l : L) : option (outcome (bool * SolverState L)) :=
  dfsSolve fuel true (mkSolver b [0] assigned l).

End Solver.

(** The overloads without listeners pass three empty lambdas. *)
Definition quietAssign : list Z -> list bool -> GPos -> list Z -> unit -> unit :=
  fun _ _ _ _ u => u.
Definition quietPass
  : list Z -> Z -> Z -> Z -> bool -> list bool -> list Z -> unit -> unit :=
  fun _ _ _ _ _ _ _ u => u.
Definition quietEliminate
  : list Z -> SimplificationCause -> GPos -> Z -> Z -> list Z -> unit -> unit :=
  fun _ _ _ _ _ _ u => u.

Definition dfsSolveQuiet (fuel : nat) (b : SudokuBoard) (assigned : list bool)
  : option (outcome (bool * SolverState unit)) :=
  dfsSolveFrom quietAssign quietPass quietEliminate fuel b assigned tt.

(** ** Listeners as the code calls them *)

(** A [std::function] listener is called in the middle of a pass, on the
    board the solver is working on and with no [try]/[catch] around the
    call: it can write to that board through the object its owner holds (as
    the listeners of [Main.cpp] hold the global [board], whose mutators are
    public) and it can throw.  In [Live] a listener returns the board it
    leaves together with its own state, or throws, and the solver goes on
    with the board the listener left.  The functions are the ones above
    with the listeners called in this way; the ones above are the case of
    listeners that only look. *)
Module Live.

Section Simplify.
Context {L : Type}.

Variable eventListener :
  SimplificationCause -> GPos -> Z -> Z -> list Z -> L -> outcome (list Z * L).

Definition notify (cause : SimplificationCause) (cell : GPos) (value by_ : Z)
    (st : PassState L) : outcome (PassState L) :=
  let* r := eventListener cause cell value by_ (board st) (obs st) in
  Ok (mkPass (fst r) (eliminations st) (snd r)).

Definition eliminateAt (cause : SimplificationCause) (by_ : Z) (peer : GPos)
    (onlyVal : Z) (st : PassState L) : outcome (PassState L) :=
  let* p := isPossibleAt (board st) peer onlyVal in
  if p then
    let* r := called (setPossibleAt (board st) peer onlyVal false) in
    notify cause peer onlyVal by_
      (mkPass (snd r) (wrap32 (eliminations st + 1)) (obs st))
  else Ok st.

Definition eliminateRow (x y onlyVal : Z) (st : PassState L)
  : outcome (PassState L) :=
  foldM (fun st cx =>
           if cx =? x then Ok st
           else eliminateAt ELIMINATION_BY_ROW y (mkGPos cx y) onlyVal st)
        range9 st.

Definition eliminateColumn (x y onlyVal : Z) (st : PassState L)
  : outcome (PassState L) :=
  foldM (fun st cy =>
           if cy =? y then Ok st
           else eliminateAt ELIMINATION_BY_COLUMN x (mkGPos x cy) onlyVal st)
        range9 st.

Definition eliminateChunk (x y onlyVal : Z) (st : PassState L)
  : outcome (PassState L) :=
  let chunkX := x / 3 in
  let chunkY := y / 3 in
  let chunkStartX := chunkX * 3 in
  let chunkStartY := chunkY * 3 in
  foldM (fun st by_ =>
           foldM (fun st bx =>
                    if samePos bx by_ x y then Ok st
                    else eliminateAt ELIMINATION_BY_CHUNK (chunkX + 3 * chunkY)
                           (mkGPos bx by_) onlyVal st)
                 [chunkStartX; chunkStartX + 1; chunkStartX + 2] st)
        [chunkStartY; chunkStartY + 1; chunkStartY + 2] st.

Definition valueSure (cause : SimplificationCause) (by_ : Z) (selfPos : GPos)
    (v cnt : Z) (st : PassState L) : outcome (PassState L) :=
  let st1 := mkPass (board st) (wrap32 (eliminations st + (cnt - 1))) (obs st) in
  let* st2 := notify cause selfPos v by_ st1 in
  let* b' := makeSureAt (board st2) selfPos v false in
  Ok (mkPass b' (eliminations st2) (obs st2)).

Definition hiddenSingleAt (x y cnt : Z) (st : PassState L) (v : Z)
  : outcome (PassState L) :=
  let selfPos := mkGPos x y in
  let* p := isPossibleAt (board st) selfPos v in
  if negb p then Ok st
  else
    let* success := rowUnique (board st) x y v in
    let* st :=
      (if success then valueSure VALUE_SURE_BY_ROW y selfPos v cnt st
       else Ok st) in
    let* success := colUnique (board st) x y v in
    let* st :=
      (if success then valueSure VALUE_SURE_BY_COLUMN x selfPos v cnt st
       else Ok st) in
    let* success := chunkUnique (board st) x y v in
    if success then
      valueSure VALUE_SURE_BY_CHUNK (x / 3 + 3 * (y / 3)) selfPos v cnt st
    else Ok st.

Definition simplifyCell (selfPos : GPos) (st : PassState L)
  : outcome (bool * PassState L) :=
  let x := getX selfPos in
  let y := getY selfPos in
  let* info := getCellInfoAt (board st) selfPos in
  let onlyVal := fst info in
  let cnt := snd info in
  if cnt =? 0 then
    let* st := notify NO_VALUE_POSSIBLE selfPos 0 0 st in Ok (false, st)
  else
    let* st :=
      (if cnt =? 1 then
         let* st := eliminateRow x y onlyVal st in
         let* st := eliminateColumn x y onlyVal st in
         eliminateChunk x y onlyVal st
       else Ok st) in
    let* info := getCellInfoAt (board st) selfPos in
    let cnt := snd info in
    if cnt =? 0 then
      let* st := notify NO_VALUE_POSSIBLE selfPos 0 0 st in Ok (false, st)
    else if cnt =? 1 then Ok (true, st)
    else
      let* st := foldM (hiddenSingleAt x y cnt) values st in
      Ok (true, st).

Fixpoint simplifyCells (cells : list GPos) (st : PassState L)
  : outcome (bool * PassState L) :=
  match cells with
  | [] => Ok (true, st)
  | c :: rest =>
      let* r := simplifyCell c st in
      if fst r then simplifyCells rest (snd r) else Ok r
  end.

Definition simplify (b : SudokuBoard) (l : L) : outcome (bool * PassState L) :=
  simplifyCells allCells (mkPass b 0 l).

End Simplify.

Section SimplifyToTheEnd.
Context {L : Type}.

Variable simplifyListener : Z -> Z -> Z -> list Z -> L -> outcome (list Z * L).
Variable eliminateListener :
  SimplificationCause -> GPos -> Z -> Z -> list Z -> L -> outcome (list Z * L).

Fixpoint simplifyLoop (fuel : nat) (b : SudokuBoard) (total index : Z)
    (n : nat) (l : L) : option (outcome (LoopResult L)) :=
  match fuel with
  | O => None
  | S fuel' =>
      match simplify eliminateListener b l with
      | Throw e => Some (Throw e)
      | Ok (ok, st) =>
          let eliminated := eliminations st in
          if negb ok then
            let total' := wrap64 (total + eliminated) in
            match simplifyListener index eliminated total' (board st) (obs st) with
            | Throw e => Some (Throw e)
            | Ok (b', l') => Some (Ok (mkLoop false total' b' l' (S n)))
            end
          else if eliminated =? 0 then
            Some (Ok (mkLoop true total (board st) (obs st) (S n)))
          else
            let total' := wrap64 (total + eliminated) in
            match simplifyListener index eliminated total' (board st) (obs st) with
            | Throw e => Some (Throw e)
            | Ok (b', l') =>
                simplifyLoop fuel' b' total' (wrap32 (index + 1)) (S n) l'
            end
      end
  end.

Definition simplifyToTheEnd (fuel : nat) (b : SudokuBoard) (l : L)
  : option (outcome (LoopResult L)) :=
  simplifyLoop fuel b 0 0 0%nat l.

End SimplifyToTheEnd.

Section Solver.
Context {L : Type}.

Variable assignListener :
  list Z -> list bool -> GPos -> list Z -> L -> outcome (list Z * L).
Variable simplifyListener :
  list Z -> Z -> Z -> Z -> bool -> list bool -> list Z -> L ->
  outcome (list Z * L).
Variable eliminateListener :
  list Z -> SimplificationCause -> GPos -> Z -> Z -> list Z -> L ->
  outcome (list Z * L).

Definition tryBranch
    (rec : SolverState L -> option (outcome (bool * SolverState L)))
    (pos : GPos) (v branchIndex : Z) (st : SolverState L)
  : option (outcome (bool * SolverState L)) :=
  let history := copyData (sboard st) in
  match makeSureAt (sboard st) pos v false with
  | Throw e => Some (Throw e)
  | Ok b1 =>
      let path1 := spath st ++ [branchIndex] in
      match assignListener path1 (sassigned st) pos b1 (sobs st) with
      | Throw e => Some (Throw e)
      | Ok (b2, l1) =>
          match rec (mkSolver b2 path1 (sassigned st) l1) with
          | None => None
          | Some (Throw e) => Some (Throw e)
          | Some (Ok (true, st')) => Some (Ok (true, st'))
          | Some (Ok (false, st')) =>
              Some (Ok (false, mkSolver (fromData history)
                                 (removelast (spath st'))
                                 (sassigned st') (sobs st')))
          end
      end
  end.

Fixpoint tryCandidates
    (rec : SolverState L -> option (outcome (bool * SolverState L)))
    (pos : GPos) (candidates : list Z) (branchIndex : Z) (st : SolverState L)
  : option (outcome (bool * SolverState L)) :=
  match candidates with
  | [] => Some (Ok (false, st))
  | v :: rest =>
      match tryBranch rec pos v branchIndex st with
      | None => None
      | Some (Throw e) => Some (Throw e)
      | Some (Ok (true, st')) => Some (Ok (true, st'))
      | Some (Ok (false, st')) =>
          tryCandidates rec pos rest (wrap32 (branchIndex + 1)) st'
      end
  end.

Definition branchOn
    (rec : SolverState L -> option (outcome (bool * SolverState L)))
    (st : SolverState L) : option (outcome (bool * SolverState L)) :=
  match isSolved (sboard st) with
  | Throw e => Some (Throw e)
  | Ok true => Some (Ok (true, st))
  | Ok false =>
      match findMRVCell (sboard st) with
      | Throw e => Some (Throw e)
      | Ok (pos, cnt) =>
          if cnt =? 0 then Some (Ok (false, st))
          else
            match getCandiatesAt (sboard st) pos with
            | Throw e => Some (Throw e)
            | Ok candidates =>
                let cell := Z.to_nat (getX pos + 9 * getY pos) in
                let marked :=
                  mkSolver (sboard st) (spath st)
                           (<[cell := true]> (sassigned st)) (sobs st) in
                match tryCandidates rec pos candidates 0 marked with
                | None => None
                | Some (Throw e) => Some (Throw e)
                | Some (Ok (true, st')) => Some (Ok (true, st'))
                | Some (Ok (false, st')) =>
                    Some (Ok (false,
                              mkSolver (sboard st') (spath st')
                                       (<[cell := false]> (sassigned st'))
                                       (sobs st')))
                end
            end
      end
  end.

(** The lambda that wraps [simplifyListener] takes the running total as a
    [ui]. *)
Fixpoint dfsSolve (fuel : nat) (isFirst : bool) (st : SolverState L)
  : option (outcome (bool * SolverState L)) :=
  match fuel with
  | O => None
  | S fuel' =>
      match simplifyToTheEnd
              (fun i elim elimSum =>
                 simplifyListener (spath st) i elim (wrap32 elimSum) isFirst
                   (sassigned st))
              (eliminateListener (spath st))
              fuel (sboard st) (sobs st) with
      | None => None
      | Some (Throw e) => Some (Throw e)
      | Some (Ok r) =>
          let st1 := mkSolver (loopBoard r) (spath st) (sassigned st) (loopObs r) in
          if negb (stable r) then Some (Ok (false, st1))
          else branchOn (dfsSolve fuel' false) st1
      end
  end.

End Solver.

(** The three empty lambdas. *)
Definition quietAssign
  : list Z -> list bool -> GPos -> list Z -> unit -> outcome (list Z * unit) :=
  fun _ _ _ b u => Ok (b, u).
Definition quietPass
  : list Z -> Z -> Z -> Z -> bool -> list bool -> list Z -> unit ->
    outcome (list Z * unit) :=
  fun _ _ _ _ _ _ b u => Ok (b, u).
Definition quietEliminate
  : list Z -> SimplificationCause -> GPos -> Z -> Z -> list Z -> unit ->
    outcome (list Z * unit) :=
  fun _ _ _ _ _ b u => Ok (b, u).

End Live.

(** ** Vocabulary of the properties *)

#[global] Instance GPos_eq_dec : EqDecision GPos.
Proof. solve_decision. Defined.

Definition omap {A B : Type} (f : A -> B) (c : outcome A) : outcome B :=
  match c with
  | Ok a => Ok (f a)
  | Throw e => Throw e
  end.

Fixpoint sumZ {A : Type} (f : A -> Z) (l : list A) : Z :=
  match l with
  | [] => 0
  | a :: l' => f a + sumZ f l'
  end.

(** The flat index of the flag of value [v] at [p], and the bit found there. *)
Definition bitIndex (p : GPos) (v : Z) : Z :=
  9 * (getX p + 9 * getY p) + (v - 1).

Definition testFlag (b : list Z) (i : Z) : bool :=
  Z.testbit (b !!! Z.to_nat (i / 64)) (i mod 64).

Definition flag (b : list Z) (p : GPos) (v : Z) : bool :=
  testFlag b (bitIndex p v).

Definition cellCount (b : list Z) (p : GPos) : Z :=
  sumZ (fun v => Z.b2z (flag b p v)) values.

(** The last value of [vs] whose flag is set, [a] if there is none. *)
Definition lastSet (f : Z -> bool) (vs : list Z) (a : Z) : Z :=
  fold_left (fun acc v => if f v then v else acc) vs a.

(** The candidate count of a cell as the code reports it, and the number of
    set candidate flags of the whole board. *)
Definition countAt (b : SudokuBoard) (p : GPos) : Z :=
  match getPossiblesCountAt b p with
  | Ok c => c
  | Throw _ => 0
  end.

Definition flagCount (b : SudokuBoard) : Z := sumZ (countAt b) allCells.

(** No candidate flag is set in [b'] that is not set in [b]. *)
Definition subBoard (b' b : SudokuBoard) : Prop :=
  forall p v, validPos p -> validValue v ->
    isPossibleAt b' p v = Ok true -> isPossibleAt b p v = Ok true.

(** The row-major index [x + 9 * y] of a cell. *)
Definition cellIndex (p : GPos) : Z := getX p + 9 * getY p.

(** What every step of a pass does to the board and the counter: flags are
    only ever cleared, and either nothing changed (board and counter) or the
    number of set flags went down. *)
Definition passStep {L : Type} (s s' : PassState L) : Prop :=
  wfBoard (board s')
  /\ subBoard (board s') (board s)
  /\ ((board s' = board s /\ eliminations s' = eliminations s)
      \/ flagCount (board s') < flagCount (board s)).

(** Forgetting what the observers accumulated. *)
Definition erasePass {L : Type} (s : PassState L) : PassState unit :=
  mkPass (board s) (eliminations s) tt.

Definition eraseCell {L : Type} (r : bool * PassState L) : bool * PassState unit :=
  (fst r, erasePass (snd r)).

Definition eraseLoop {L : Type} (r : LoopResult L) : LoopResult unit :=
  mkLoop (stable r) (totalEliminations r) (loopBoard r) tt (passes r).

Definition eraseSolver {L : Type} (s : SolverState L) : SolverState unit :=
  mkSolver (sboard s) (spath s) (sassigned s) tt.

Definition eraseResult {L : Type} (r : bool * SolverState L)
  : bool * SolverState unit :=
  (fst r, eraseSolver (snd r)).

(** What a run of [dfsSolve] yields, observers apart: out of fuel, an
    exception, or the boolean result with the board, path and markers. *)
Definition solverOutcome {L : Type}
    (r : option (outcome (bool * SolverState L)))
  : option (outcome (bool * SolverState unit)) :=
  option_map (omap eraseResult) r.

(** An observer that records its calls. *)
Definition recordEvent
  : SimplificationCause -> GPos -> Z -> Z -> list Z ->
    list (SimplificationCause * GPos * Z * Z) ->
    list (SimplificationCause * GPos * Z * Z) :=
  fun cause cell value by_ _ l => l ++ [(cause, cell, value, by_)].

Definition recordPass
  : Z -> Z -> Z -> list Z -> list (Z * Z * Z) -> list (Z * Z * Z) :=
  fun index eliminated eliminatedSum _ l => l ++ [(index, eliminated, eliminatedSum)].

Definition silentEvent {L : Type}
  : SimplificationCause -> GPos -> Z -> Z -> list Z -> L -> L :=
  fun _ _ _ _ _ l => l.

Definition silentPass {L : Type} : Z -> Z -> Z -> list Z -> L -> L :=
  fun _ _ _ _ l => l.

(** The records of [recordPass] carry consecutive indices from [index] and
    the running total from [total]. *)
Fixpoint running (total index : Z) (tr : list (Z * Z * Z)) : Prop :=
  match tr with
  | [] => True
  | (i, e, t) :: rest =>
      i = index /\ t = wrap64 (total + e) /\ running t (wrap32 (index + 1)) rest
  end.

Fixpoint lastTotal (total : Z) (tr : list (Z * Z * Z)) : Z :=
  match tr with
  | [] => total
  | (_, _, t) :: rest => lastTotal t rest
  end.

Definition causeEqb (c1 c2 : SimplificationCause) : bool :=
  match c1, c2 with
  | NO_VALUE_POSSIBLE, NO_VALUE_POSSIBLE
  | ELIMINATION_BY_ROW, ELIMINATION_BY_ROW
  | ELIMINATION_BY_COLUMN, ELIMINATION_BY_COLUMN
  | ELIMINATION_BY_CHUNK, ELIMINATION_BY_CHUNK
  | VALUE_SURE_BY_ROW, VALUE_SURE_BY_ROW
  | VALUE_SURE_BY_COLUMN, VALUE_SURE_BY_COLUMN
  | VALUE_SURE_BY_CHUNK, VALUE_SURE_BY_CHUNK => true
  | _, _ => false
  end.

(** The recorded events of one cause. *)
Definition eventsOf (c : SimplificationCause)
    (tr : list (SimplificationCause * GPos * Z * Z))
  : list (SimplificationCause * GPos * Z * Z) :=
  List.filter (fun e => causeEqb (fst (fst (fst e))) c) tr.

(** Ingestion as [Main.cpp] does it: a forcing [makeSureAt] per clue, on the
    default board. *)
Definition ingest (clues : list (GPos * Z)) : outcome (list Z) :=
  foldM (fun b clue => makeSureAt b (fst clue) (snd clue) true) clues newBoard.

Definition boardOf (c : outcome (list Z)) : list Z :=
  match c with
  | Ok b => b
  | Throw _ => newBoard
  end.

(** The puzzle with the single clue 5 at (4,4). *)
Definition singleClue : list Z := boardOf (ingest [(mkGPos 4 4, 5)]).

(** A puzzle with four clues 1, which leave (8,8) as the only place for a 1
    in its row, in its column and in its chunk. *)
Definition fourOnes : list Z :=
  boardOf (ingest [(mkGPos 6 1, 1); (mkGPos 7 4, 1); (mkGPos 1 6, 1);
                   (mkGPos 4 7, 1)]).

(** A search state in which (1,0) holds the clue 1, so that trying 1 at
    (0,0) fails, and the state the failed branch leaves. *)
Definition rollbackStart : SolverState unit :=
  mkSolver (boardOf (ingest [(mkGPos 1 0, 1)])) [0] (replicate 81 false) tt.

Definition rollbackAfter : SolverState unit :=
  match tryBranch quietAssign
          (dfsSolve quietAssign quietPass quietEliminate 2 false)
          (mkGPos 0 0) 1 0 rollbackStart with
  | Some (Ok (_, st')) => st'
  | _ => mkSolver [] [] [] tt
  end.

(** Adjacent elements strictly increase. *)
Fixpoint increasing (l : list Z) : bool :=
  match l with
  | a :: (a' :: _) as rest => (a <? a') && increasing rest
  | _ => true
  end.

(** A listener that only looks: whatever the board and its own state, it
    returns normally and leaves the board as it is. *)
Definition readOnly {L : Type} (f : list Z -> L -> outcome (list Z * L)) : Prop :=
  forall b l, exists l', f b l = Ok (b, l').

(** What such a listener does to its own state. *)
Definition pureOf {L : Type} (f : list Z -> L -> outcome (list Z * L))
    (b : list Z) (l : L) : L :=
  match f b l with
  | Ok r => snd r
  | Throw _ => l
  end.

Definition eventOf {L : Type}
    (ev : SimplificationCause -> GPos -> Z -> Z -> list Z -> L ->
          outcome (list Z * L))
  : SimplificationCause -> GPos -> Z -> Z -> list Z -> L -> L :=
  fun cause cell value by_ => pureOf (ev cause cell value by_).

Definition passOf {L : Type}
    (sl : Z -> Z -> Z -> list Z -> L -> outcome (list Z * L))
  : Z -> Z -> Z -> list Z -> L -> L :=
  fun index eliminated eliminatedSum => pureOf (sl index eliminated eliminatedSum).

Definition assignOf {L : Type}
    (al : list Z -> list bool -> GPos -> list Z -> L -> outcome (list Z * L))
  : list Z -> list bool -> GPos -> list Z -> L -> L :=
  fun path assigned pos => pureOf (al path assigned pos).

Definition solverPassOf {L : Type}
    (sl : list Z -> Z -> Z -> Z -> bool -> list bool -> list Z -> L ->
          outcome (list Z * L))
  : list Z -> Z -> Z -> Z -> bool -> list bool -> list Z -> L -> L :=
  fun path index eliminated eliminatedSum isFirst assigned =>
    pureOf (sl path index eliminated (wrap32 eliminatedSum) isFirst assigned).

Definition solverEventOf {L : Type}
    (el : list Z -> SimplificationCause -> GPos -> Z -> Z -> list Z -> L ->
          outcome (list Z * L))
  : list Z -> SimplificationCause -> GPos -> Z -> Z -> list Z -> L -> L :=
  fun path => eventOf (el path).

(** The three listeners of a search only look. *)
Definition lookOnly {L : Type}
    (al : list Z -> list bool -> GPos -> list Z -> L -> outcome (list Z * L))
    (sl : list Z -> Z -> Z -> Z -> bool -> list bool -> list Z -> L ->
          outcome (list Z * L))
    (el : list Z -> SimplificationCause -> GPos -> Z -> Z -> list Z -> L ->
          outcome (list Z * L)) : Prop :=
  (forall path assigned pos, readOnly (al path assigned pos))
  /\ (forall path index eliminated eliminatedSum isFirst assigned,
        readOnly (sl path index eliminated eliminatedSum isFirst assigned))
  /\ (forall path cause cell value by_, readOnly (el path cause cell value by_)).

(** Listeners that count their calls and leave the board alone. *)
Definition countAssign
  : list Z -> list bool -> GPos -> list Z -> Z -> outcome (list Z * Z) :=
  fun _ _ _ b n => Ok (b, n + 1).

Definition countPass
  : list Z -> Z -> Z -> Z -> bool -> list bool -> list Z -> Z ->
    outcome (list Z * Z) :=
  fun _ _ _ _ _ _ b n => Ok (b, n + 1).

Definition countEvent
  : list Z -> SimplificationCause -> GPos -> Z -> Z -> list Z -> Z ->
    outcome (list Z * Z) :=
  fun _ _ _ _ _ b n => Ok (b, n + 1).

(** An elimination listener that empties the cell it is told about (a call
    of the public [makeSureAt] with the value 0 on the board it shares with
    the solver), and one that throws. *)
Definition wipeCell
  : list Z -> SimplificationCause -> GPos -> Z -> Z -> list Z -> unit ->
    outcome (list Z * unit) :=
  fun _ _ cell _ _ b u => let* b' := makeSureAt b cell 0 false in Ok (b', u).

Definition throwingListener
  : list Z -> SimplificationCause -> GPos -> Z -> Z -> list Z -> unit ->
    outcome (list Z * unit) :=
  fun _ _ _ _ _ _ _ => Throw runtime_error.

(** The default board with the cell (0,0) emptied. *)
Definition emptyCorner : list Z :=
  boardOf (makeSureAt newBoard (mkGPos 0 0) 0 false).

(** ** Vocabulary of the further properties *)

(** Two cells of one house: the same row, column or 3x3 chunk. *)
Definition sameChunk (p q : GPos) : Prop :=
  getX p / 3 = getX q / 3 /\ getY p / 3 = getY q / 3.

Definition peer (p q : GPos) : Prop :=
  p <> q /\ (getY p = getY q \/ getX p = getX q \/ sameChunk p q).

(** A completed grid: a value 1..9 in every cell, different in any two cells
    of one house. *)
Definition validGrid (g : GPos -> Z) : Prop :=
  (forall p, validPos p -> validValue (g p))
  /\ (forall p q, validPos p -> validPos q -> peer p q -> g p <> g q).

(** The grid [g] is still possible on the board [b]. *)
Definition fits (g : GPos -> Z) (b : SudokuBoard) : Prop :=
  forall p, validPos p -> isPossibleAt b p (g p) = Ok true.

(** The grid a board shows: the only value of each cell, 0 where there is
    none. *)
Definition gridOf (b : SudokuBoard) (p : GPos) : Z :=
  match getOnlyPossibleValue b p with
  | Ok v => v
  | Throw _ => 0
  end.

(** Every flag of every cell is set. *)
Definition allFlagsSet (b : SudokuBoard) : bool :=
  forallb (fun p => forallb (flag b p) values) allCells.

(** A puzzle with the clue 5 twice in the first row. *)
Definition twoFives : list Z :=
  boardOf (ingest [(mkGPos 0 0, 5); (mkGPos 1 0, 5)]).

(** The counter of a pass moved up by at most [k], and did not move only if
    the board did not change. *)
Definition elimBound {L : Type} (k : Z) (s s' : PassState L) : Prop :=
  eliminations s <= eliminations s' <= eliminations s + k
  /\ (eliminations s' = eliminations s -> board s' = board s).

(** The cells of the row [y], of the column [x], and of the chunk that
    holds ([x], [y]), in the order the loops of [simplify] visit them. *)
Definition rowCells (y : Z) : list GPos := map (fun cx => mkGPos cx y) range9.

Definition colCells (x : Z) : list GPos := map (fun cy => mkGPos x cy) range9.

Definition chunkCells (x y : Z) : list GPos :=
  flat_map (fun by_ => map (fun bx => mkGPos bx by_)
                         [x / 3 * 3; x / 3 * 3 + 1; x / 3 * 3 + 2])
           [y / 3 * 3; y / 3 * 3 + 1; y / 3 * 3 + 2].

(** Some completed grid is still possible on the board. *)
Definition solvable (b : SudokuBoard) : Prop :=
  exists g, validGrid g /\ fits g b.

(** A pass finds nothing to do on [b]: it returns [true], counts no
    elimination and leaves the board as it is. *)
Definition passFixpoint {L : Type}
    (ev : SimplificationCause -> GPos -> Z -> Z -> list Z -> L -> L)
    (b : SudokuBoard) (l : L) : Prop :=
  exists s', simplify ev b l = Ok (true, s')
             /\ eliminations s' = 0 /\ board s' = b.

(** Nine different cells of the board, any two of them in one house. *)
Definition house (cs : list GPos) : Prop :=
  List.NoDup cs /\ length cs = 9%nat
  /\ (forall c, In c cs -> validPos c)
  /\ (forall c d, In c cs -> In d cs -> c <> d -> peer c d).

(** The board of a pass is an array of twelve words on which [g] is still
    possible. *)
Definition fitsPass {L : Type} (g : GPos -> Z) (s : PassState L) : Prop :=
  wfBoard (board s) /\ fits g (board s).

(** The end of a successful search from [b]: a solved board below [b] on
    which a pass finds nothing to do. *)
Definition solvedFrom (b b' : SudokuBoard) : Prop :=
  wfBoard b' /\ subBoard b' b /\ isSolved b' = Ok true
  /\ passFixpoint (@silentEvent unit) b' tt.

(** Executable forms of [peer], [validGrid] and [fits]. *)
Definition peerb (p q : GPos) : bool :=
  negb (samePos (getX p) (getY p) (getX q) (getY q))
  && ((getY p =? getY q) || (getX p =? getX q)
      || ((getX p / 3 =? getX q / 3) && (getY p / 3 =? getY q / 3))).

Definition validGridb (g : GPos -> Z) : bool :=
  forallb (fun p =>
             inRange (g p)
             && forallb (fun q => implb (peerb p q) (negb (g p =? g q)))
                        allCells)
          allCells.

Definition fitsb (g : GPos -> Z) (b : SudokuBoard) : bool :=
  forallb (fun p => match isPossibleAt b p (g p) with
                    | Ok true => true
                    | _ => false
                    end)
          allCells.

(** A completed grid: every row is the row above it shifted by three, and
    every band the band above it shifted by one. *)
Definition shiftGrid (p : GPos) : Z :=
  (3 * (getY p mod 3) + getY p / 3 + getX p) mod 9 + 1.

(** The puzzle that shows [shiftGrid] on the cells whose coordinates do not
    add up to a multiple of three. *)
Definition shiftPuzzle : list Z :=
  boardOf (ingest (map (fun p => (p, shiftGrid p))
                       (List.filter (fun p => negb ((getX p + getY p) mod 3 =? 0))
                                    allCells))).

(** The search started on [shiftPuzzle] and the state it ends in. *)
Definition shiftStart : SolverState unit :=
  mkSolver shiftPuzzle [0] (replicate 81 false) tt.

Definition shiftEnd : SolverState unit :=
  match dfsSolve quietAssign quietPass quietEliminate 730 true shiftStart with
  | Some (Ok (_, st')) => st'
  | _ => mkSolver [] [] [] tt
  end.

(** The bookkeeping of a call of [dfsSolve] that started in [st] and
    returned [res] in [st']: the marker array keeps its length; after
    [true] the path is the path of the call followed by the branches taken;
    after [false] the path is the one of the call and no marker is left set
    that was not set before. *)
Definition bookkeeping {L : Type} (st : SolverState L) (res : bool)
    (st' : SolverState L) : Prop :=
  length (sassigned st') = length (sassigned st)
  /\ if res then exists branches, spath st' = spath st ++ branches
     else spath st' = spath st
          /\ forall i : nat, sassigned st' !! i = Some true ->
                             sassigned st !! i = Some true.

(** A puzzle without solution on which no cell is empty: the first row
    holds 1..6 and the 7 of the third chunk is in the second row, so that
    the first row has no place for a 7.  The search on it tries both
    candidates of (6,0) and fails. *)
Definition noSeven : list Z :=
  boardOf (ingest [(mkGPos 0 0, 1); (mkGPos 1 0, 2); (mkGPos 2 0, 3);
                   (mkGPos 3 0, 4); (mkGPos 4 0, 5); (mkGPos 5 0, 6);
                   (mkGPos 8 1, 7)]).

Definition noSevenStart : SolverState unit :=
  mkSolver noSeven [0] (replicate 81 false) tt.

Definition noSevenEnd : SolverState unit :=
  match dfsSolve quietAssign quietPass quietEliminate 730 true noSevenStart with
  | Some (Ok (_, st')) => st'
  | _ => mkSolver [] [] [] tt
  end.

(** An observer that keeps every event together with the board as it is
    when the listener runs. *)
Definition SeenEvent : Type := (SimplificationCause * GPos * Z * Z * list Z)%type.

Definition recordSeen
  : SimplificationCause -> GPos -> Z -> Z -> list Z ->
    list SeenEvent -> list SeenEvent :=
  fun cause cell value by_ b l => l ++ [(cause, cell, value, by_, b)].

Definition seenCause (e : SeenEvent) : SimplificationCause :=
  fst (fst (fst (fst e))).

(** The house an event speaks of and the index the code gives it. *)
Definition houseOf (cause : SimplificationCause) (cell : GPos) : list GPos :=
  match cause with
  | NO_VALUE_POSSIBLE => []
  | ELIMINATION_BY_ROW | VALUE_SURE_BY_ROW => rowCells (getY cell)
  | ELIMINATION_BY_COLUMN | VALUE_SURE_BY_COLUMN => colCells (getX cell)
  | ELIMINATION_BY_CHUNK | VALUE_SURE_BY_CHUNK =>
      chunkCells (getX cell) (getY cell)
  end.

Definition houseIndex (cause : SimplificationCause) (cell : GPos) : Z :=
  match cause with
  | NO_VALUE_POSSIBLE => 0
  | ELIMINATION_BY_ROW | VALUE_SURE_BY_ROW => getY cell
  | ELIMINATION_BY_COLUMN | VALUE_SURE_BY_COLUMN => getX cell
  | ELIMINATION_BY_CHUNK | VALUE_SURE_BY_CHUNK =>
      getX cell / 3 + 3 * (getY cell / 3)
  end.

(** [v] is the only candidate of [c]. *)
Definition onlyAt (b : list Z) (c : GPos) (v : Z) : Prop :=
  flag b c v = true /\ forall w, validValue w -> w <> v -> flag b c w = false.

(** [v] has been cleared at [cell] and is the only candidate of another
    cell of the house. *)
Definition nakedIn (cs : list GPos) (b : list Z) (cell : GPos) (v : Z) : Prop :=
  flag b cell v = false
  /\ exists c, In c cs /\ c <> cell /\ validPos c /\ onlyAt b c v.

(** [v] is possible at [cell] and at no other cell of the house. *)
Definition hiddenIn (cs : list GPos) (b : list Z) (cell : GPos) (v : Z) : Prop :=
  flag b cell v = true
  /\ forall c, In c cs -> c <> cell -> flag b c v = false.

(** What an event says is true of the board the listener sees. *)
Definition justified (e : SeenEvent) : Prop :=
  let '(cause, cell, value, by_, b) := e in
  validPos cell /\ by_ = houseIndex cause cell
  /\ match cause with
     | NO_VALUE_POSSIBLE => value = 0 /\ cellCount b cell = 0
     | ELIMINATION_BY_ROW | ELIMINATION_BY_COLUMN | ELIMINATION_BY_CHUNK =>
         validValue value /\ nakedIn (houseOf cause cell) b cell value
     | VALUE_SURE_BY_ROW | VALUE_SURE_BY_COLUMN | VALUE_SURE_BY_CHUNK =>
         validValue value /\ hiddenIn (houseOf cause cell) b cell value
     end.

Definition regularEvent (e : SeenEvent) : Prop :=
  justified e /\ seenCause e <> NO_VALUE_POSSIBLE.

Definition seenPass (s : PassState (list SeenEvent)) : Prop :=
  wfBoard (board s) /\ Forall regularEvent (obs s).

(** The trace of a pass that stopped at [c]: regular events, then the
    report of the empty cell. *)
Definition stoppedAt (c : GPos) (s : PassState (list SeenEvent)) : Prop :=
  wfBoard (board s) /\ validPos c /\ cellCount (board s) c = 0
  /\ exists evs, obs s = evs ++ [(NO_VALUE_POSSIBLE, c, 0, 0, board s)]
                 /\ Forall regularEvent evs.

(** * Properties *)

(** ** Bits of a word *)

Lemma land_mask_testbit (w k : Z) :
  0 <= k -> negb (Z.land w (Z.shiftl 1 k) =? 0) = Z.testbit w k.
Proof.
  intros Hk. rewrite Z.shiftl_1_l.
  destruct (Z.testbit w k) eqn:E.
  - apply negb_true_iff, Z.eqb_neq. intros H0.
    assert (Hb : Z.testbit (Z.land w (2 ^ k)) k = true).
    { rewrite Z.land_spec, E, Z.pow2_bits_true by lia. reflexivity. }
    rewrite H0, Z.bits_0 in Hb. discriminate.
  - apply negb_false_iff, Z.eqb_eq, Z.bits_inj'. intros j Hj.
    rewrite Z.land_spec, Z.bits_0, Z.pow2_bits_eqb by lia.
    destruct (Z.eqb_spec k j) as [->|]; [rewrite E|]; auto using andb_false_r.
Qed.

Lemma setbit_testbit (w k j : Z) :
  0 <= k -> 0 <= j ->
  Z.testbit (Z.lor w (Z.shiftl 1 k)) j = if j =? k then true else Z.testbit w j.
Proof.
  intros Hk Hj. rewrite Z.shiftl_1_l, Z.lor_spec, Z.pow2_bits_eqb by lia.
  rewrite (Z.eqb_sym k j). destruct (j =? k); auto using orb_true_r, orb_false_r.
Qed.

Lemma clearbit_testbit (w k j : Z) :
  0 <= k -> 0 <= j < 64 ->
  Z.testbit (Z.land w (wrap64 (Z.lnot (Z.shiftl 1 k)))) j
  = if j =? k then false else Z.testbit w j.
Proof.
  intros Hk Hj. unfold wrap64.
  rewrite Z.land_spec, Z.mod_pow2_bits_low, Z.lnot_spec by lia.
  rewrite Z.shiftl_1_l, Z.pow2_bits_eqb by lia.
  rewrite (Z.eqb_sym k j). destruct (j =? k); simpl;
    auto using andb_true_r, andb_false_r.
Qed.

(** ** Index arithmetic *)

Lemma gpos2bitsetIndex_valid (p : GPos) :
  validPos p -> gpos2bitsetIndex p = 9 * (getX p + 9 * getY p).
Proof.
  intros [Hx Hy]. unfold gpos2bitsetIndex, wrap32.
  rewrite (Z.mod_small (getY p * 9)) by lia.
  rewrite (Z.mod_small (getX p + _)) by lia.
  rewrite Z.mod_small by lia. lia.
Qed.

Lemma bit_index_valid (p : GPos) (v : Z) :
  validPos p -> validValue v ->
  wrap32 (gpos2bitsetIndex p + (v - 1)) = bitIndex p v.
Proof.
  intros Hp Hv. rewrite gpos2bitsetIndex_valid by assumption.
  destruct Hp as [Hx Hy]. unfold validValue in Hv. unfold wrap32, bitIndex.
  apply Z.mod_small. lia.
Qed.

Lemma bitIndex_range (p : GPos) (v : Z) :
  validPos p -> validValue v -> 0 <= bitIndex p v < 729.
Proof. intros [Hx Hy] Hv. unfold validValue in Hv. unfold bitIndex. lia. Qed.

Lemma bitIndex_inj (p q : GPos) (v w : Z) :
  validPos p -> validPos q -> validValue v -> validValue w ->
  bitIndex p v = bitIndex q w -> p = q /\ v = w.
Proof.
  intros [Hx Hy] [Hx' Hy'] Hv Hw. unfold validValue in *. unfold bitIndex.
  destruct p as [x y], q as [x' y']; simpl in *. intros H.
  assert (x = x' /\ y = y' /\ v = w) as (-> & -> & ->) by lia. auto.
Qed.

Lemma inRange_valid (v : Z) : inRange v = true <-> validValue v.
Proof. unfold inRange, validValue. rewrite andb_true_iff. lia. Qed.

Lemma inRange_true (v : Z) : validValue v -> inRange v = true.
Proof. apply inRange_valid. Qed.

(** ** Reading and writing one flag *)

Lemma isPossibleAt_flag (b : list Z) (p : GPos) (v : Z) :
  validPos p -> validValue v -> isPossibleAt b p v = Ok (flag b p v).
Proof.
  intros Hp Hv. unfold isPossibleAt.
  rewrite inRange_true by assumption. simpl.
  rewrite bit_index_valid by assumption. f_equal.
  apply land_mask_testbit.
  pose proof (bitIndex_range p v Hp Hv).
  apply Z.mod_pos_bound. lia.
Qed.

Lemma isPossibleAt_throw (b : list Z) (p : GPos) (v : Z) :
  ~ validValue v -> isPossibleAt b p v = Throw invalid_argument.
Proof.
  intros Hv. unfold isPossibleAt.
  destruct (inRange v) eqn:E; [apply inRange_valid in E; tauto | reflexivity].
Qed.

Lemma testFlag_insert (b : list Z) (I i w : Z) :
  wfBoard b -> 0 <= I < 768 -> 0 <= i ->
  testFlag (<[Z.to_nat (I / 64) := w]> b) i
  = if i / 64 =? I / 64 then Z.testbit w (i mod 64) else testFlag b i.
Proof.
  intros Hwf HI Hi. unfold testFlag.
  assert (0 <= I / 64 < 12) by (split; [apply Z.div_pos; lia | apply Z.div_lt_upper_bound; lia]).
  assert (0 <= i / 64) by (apply Z.div_pos; lia).
  destruct (Z.eqb_spec (i / 64) (I / 64)) as [E|E].
  - rewrite E, list_lookup_total_insert_eq; [reflexivity|].
    red in Hwf. rewrite Hwf. lia.
  - rewrite list_lookup_total_insert_ne; [reflexivity|]. lia.
Qed.

Lemma same_bit (I i : Z) :
  (i =? I) = (i / 64 =? I / 64) && (i mod 64 =? I mod 64).
Proof.
  pose proof (Z.div_mod i 64). pose proof (Z.div_mod I 64).
  destruct (Z.eqb_spec i I) as [->|N].
  - rewrite !Z.eqb_refl. reflexivity.
  - symmetry. apply andb_false_iff.
    destruct (Z.eqb_spec (i / 64) (I / 64)); [right|left; reflexivity].
    apply Z.eqb_neq. lia.
Qed.

(** [setPossibleAt] on a valid cell and value: it never throws, reports
    whether the flag differed from what was asked, and writes that one flag
    only. *)
Lemma setPossibleAt_bits (b : list Z) (p : GPos) (v : Z) (on : bool) :
  wfBoard b -> validPos p -> validValue v ->
  exists b',
    setPossibleAt b p v on = (Ok (negb (Bool.eqb (flag b p v) on)), b')
    /\ wfBoard b'
    /\ forall i, 0 <= i ->
         testFlag b' i = if i =? bitIndex p v then on else testFlag b i.
Proof.
  intros Hwf Hp Hv. unfold setPossibleAt.
  rewrite inRange_true by assumption. simpl.
  rewrite bit_index_valid by assumption.
  pose proof (bitIndex_range p v Hp Hv) as HI.
  set (I := bitIndex p v) in *.
  assert (HIm : 0 <= I mod 64 < 64) by (apply Z.mod_pos_bound; lia).
  rewrite land_mask_testbit by lia.
  change (Z.testbit (b !!! Z.to_nat (I / 64)) (I mod 64)) with (testFlag b I).
  change (flag b p v) with (testFlag b I).
  destruct (Bool.eqb (testFlag b I) on) eqn:E.
  - exists b. split; [reflexivity|]. split; [assumption|].
    intros i Hi. destruct (Z.eqb_spec i I) as [->|]; [|reflexivity].
    apply eqb_prop in E. assumption.
  - simpl. destruct on.
    + eexists. split; [reflexivity|]. split.
      { red. rewrite length_insert. exact Hwf. }
      intros i Hi. rewrite testFlag_insert by (assumption || lia).
      rewrite (same_bit I i).
      destruct (Z.eqb_spec (i / 64) (I / 64)) as [Ew|]; [|reflexivity]. simpl.
      unfold testFlag. rewrite Ew.
      apply setbit_testbit; [lia|]. apply Z.mod_pos_bound. lia.
    + eexists. split; [reflexivity|]. split.
      { red. rewrite length_insert. exact Hwf. }
      intros i Hi. rewrite testFlag_insert by (assumption || lia).
      rewrite (same_bit I i).
      destruct (Z.eqb_spec (i / 64) (I / 64)) as [Ew|]; [|reflexivity]. simpl.
      unfold testFlag. rewrite Ew.
      apply clearbit_testbit; [lia|]. apply Z.mod_pos_bound. lia.
Qed.

Lemma setPossibleAt_flags (b : list Z) (p : GPos) (v : Z) (on : bool) :
  wfBoard b -> validPos p -> validValue v ->
  exists b',
    setPossibleAt b p v on = (Ok (negb (Bool.eqb (flag b p v) on)), b')
    /\ wfBoard b'
    /\ flag b' p v = on
    /\ forall q w, validPos q -> validValue w -> (q, w) <> (p, v) ->
         flag b' q w = flag b q w.
Proof.
  intros Hwf Hp Hv.
  destruct (setPossibleAt_bits b p v on Hwf Hp Hv) as (b' & E & Hwf' & Hbits).
  exists b'. repeat split; try assumption.
  - unfold flag. rewrite Hbits, Z.eqb_refl; [reflexivity|].
    apply bitIndex_range; assumption.
  - intros q w Hq Hw Hne. unfold flag.
    rewrite Hbits by (apply bitIndex_range; assumption).
    destruct (Z.eqb_spec (bitIndex q w) (bitIndex p v)) as [Heq|]; [|reflexivity].
    apply bitIndex_inj in Heq; try assumption.
    destruct Heq as [-> ->]. congruence.
Qed.

(** ** Counting the candidates of a cell *)

Lemma sumZ_b2z_nonneg {A : Type} (f : A -> bool) (l : list A) :
  0 <= sumZ (fun a => Z.b2z (f a)) l.
Proof. induction l as [|a l IH]; simpl; [lia|]. destruct (f a); simpl; lia. Qed.

Lemma sumZ_b2z_le_length {A : Type} (f : A -> bool) (l : list A) :
  sumZ (fun a => Z.b2z (f a)) l <= Z.of_nat (length l).
Proof. induction l as [|a l IH]; simpl length; simpl sumZ; [lia|]. destruct (f a); simpl; lia. Qed.

Lemma sumZ_b2z_zero (f : Z -> bool) (vs : list Z) (a : Z) :
  sumZ (fun v => Z.b2z (f v)) vs = 0 ->
  lastSet f vs a = a /\ forall w, In w vs -> f w = false.
Proof.
  revert a. induction vs as [|v vs IH]; intros a H; simpl in *.
  - split; [reflexivity | tauto].
  - pose proof (sumZ_b2z_nonneg f vs).
    destruct (f v) eqn:E; simpl in H; [lia|].
    destruct (IH a H) as [IH1 IH2]. unfold lastSet in *. simpl. try rewrite E.
    split; [assumption|]. intros w [<-|Hw]; auto.
Qed.

Lemma sumZ_b2z_one (f : Z -> bool) (vs : list Z) (a : Z) :
  sumZ (fun v => Z.b2z (f v)) vs = 1 ->
  In (lastSet f vs a) vs /\ f (lastSet f vs a) = true
  /\ forall w, In w vs -> f w = true -> w = lastSet f vs a.
Proof.
  revert a. induction vs as [|v vs IH]; intros a H; simpl in *; [lia|].
  unfold lastSet in *. simpl. destruct (f v) eqn:E; simpl in H.
  - destruct (sumZ_b2z_zero f vs v) as [E1 E2]; [lia|].
    unfold lastSet in E1. rewrite E1. repeat split; auto.
    intros w [<-|Hw] Hf; [reflexivity|]. rewrite E2 in Hf by assumption.
    discriminate.
  - destruct (IH a H) as (I1 & I2 & I3). repeat split; auto.
    intros w [<-|Hw] Hf; [congruence | auto].
Qed.

Lemma values_valid (v : Z) : In v values <-> validValue v.
Proof. unfold values, validValue. simpl. lia. Qed.

Lemma cellCount_range (b : list Z) (p : GPos) : 0 <= cellCount b p <= 9.
Proof.
  unfold cellCount. split; [apply sumZ_b2z_nonneg|].
  apply (sumZ_b2z_le_length (flag b p) values).
Qed.

Lemma countLoop_spec (b : list Z) (p : GPos) (vs : list Z) (acc : Z * Z) :
  validPos p -> (forall v, In v vs -> validValue v) ->
  foldM (fun (acc : Z * Z) v =>
           let* q := isPossibleAt b p v in
           if q then Ok (v, snd acc + 1) else Ok acc) vs acc
  = Ok (lastSet (flag b p) vs (fst acc),
        snd acc + sumZ (fun v => Z.b2z (flag b p v)) vs).
Proof.
  intros Hp. revert acc. induction vs as [|v vs IH]; intros [a c] Hvs; simpl.
  - f_equal. f_equal. lia.
  - rewrite isPossibleAt_flag by (auto; apply Hvs; left; reflexivity). simpl.
    unfold lastSet. simpl.
    destruct (flag b p v); simpl; rewrite IH by (intros; apply Hvs; right; assumption);
      unfold lastSet; simpl; do 2 f_equal; lia.
Qed.

Lemma getCellInfoAt_spec (b : list Z) (p : GPos) :
  validPos p ->
  getCellInfoAt b p
  = Ok (if cellCount b p =? 1 then lastSet (flag b p) values 0 else 0,
        cellCount b p).
Proof.
  intros Hp. unfold getCellInfoAt.
  rewrite countLoop_spec by (auto; apply values_valid). simpl.
  reflexivity.
Qed.

Lemma countAt_cellCount (b : list Z) (p : GPos) :
  validPos p -> countAt b p = cellCount b p.
Proof.
  intros Hp. unfold countAt, getPossiblesCountAt.
  rewrite getCellInfoAt_spec by assumption. reflexivity.
Qed.

(** When the count is 1 the value returned is the one candidate. *)
Lemma onlyValue_spec (b : list Z) (p : GPos) :
  cellCount b p = 1 ->
  let v := lastSet (flag b p) values 0 in
  validValue v /\ flag b p v = true
  /\ forall w, validValue w -> flag b p w = true -> w = v.
Proof.
  intros H. destruct (sumZ_b2z_one (flag b p) values 0 H) as (H1 & H2 & H3).
  simpl. split; [apply values_valid; assumption|]. split; [assumption|].
  intros w Hw. apply H3, values_valid, Hw.
Qed.

(** ** [makeSureAt] *)

Lemma makeSure_step (b : list Z) (p : GPos) (value : Z) (force : bool) (v : Z) :
  wfBoard b -> validPos p -> validValue v ->
  exists b1,
    (if v =? value then
       if force then let* r := called (setPossibleAt b p v true) in Ok (snd r)
       else Ok b
     else let* r := called (setPossibleAt b p v false) in Ok (snd r)) = Ok b1
    /\ wfBoard b1
    /\ flag b1 p v = (if v =? value then force || flag b p v else false)
    /\ forall q w, validPos q -> validValue w -> (q, w) <> (p, v) ->
         flag b1 q w = flag b q w.
Proof.
  intros Hwf Hp Hv.
  destruct (v =? value); [destruct force|].
  - destruct (setPossibleAt_flags b p v true Hwf Hp Hv) as (b1 & E & ? & ? & ?).
    exists b1. rewrite E. simpl. auto.
  - exists b. simpl. auto.
  - destruct (setPossibleAt_flags b p v false Hwf Hp Hv) as (b1 & E & ? & ? & ?).
    exists b1. rewrite E. simpl. auto.
Qed.

Lemma makeSureLoop_spec (p : GPos) (value : Z) (force : bool) (vs : list Z) :
  validPos p -> (forall v, In v vs -> validValue v) -> List.NoDup vs ->
  forall b, wfBoard b ->
  exists b',
    foldM (fun b v =>
             if v =? value then
               if force then let* r := called (setPossibleAt b p v true) in Ok (snd r)
               else Ok b
             else let* r := called (setPossibleAt b p v false) in Ok (snd r)) vs b = Ok b'
    /\ wfBoard b'
    /\ (forall w, In w vs ->
          flag b' p w = if w =? value then force || flag b p w else false)
    /\ (forall w, validValue w -> ~ In w vs -> flag b' p w = flag b p w)
    /\ (forall q w, validPos q -> validValue w -> q <> p ->
          flag b' q w = flag b q w).
Proof.
  intros Hp. induction vs as [|v vs IH]; intros Hvs Hnd b Hwf.
  - exists b. simpl. repeat split; auto. tauto.
  - inversion Hnd as [|? ? Hnotin Hnd']; subst.
    assert (Hv : validValue v) by (apply Hvs; left; reflexivity).
    destruct (makeSure_step b p value force v Hwf Hp Hv) as (b1 & E1 & Hwf1 & Hv1 & Ho1).
    destruct (IH (fun w Hw => Hvs w (or_intror Hw)) Hnd' b1 Hwf1)
      as (b' & E' & Hwf' & Hin & Hout & Hoth).
    exists b'. simpl foldM. rewrite E1. simpl. split; [exact E'|].
    split; [assumption|]. repeat split.
    + intros w [<-|Hw].
      * rewrite Hout by assumption. exact Hv1.
      * rewrite Hin by assumption.
        rewrite (Ho1 p w); auto.
        -- apply Hvs. right; assumption.
        -- intros [= ->]. contradiction.
    + intros w Hw Hnot. simpl in Hnot.
      rewrite Hout by tauto. apply Ho1; auto.
      intros [= ->]. tauto.
    + intros q w Hq Hw Hne. rewrite Hoth by assumption.
      apply Ho1; auto. intros [= -> _]. contradiction.
Qed.

Lemma values_NoDup : List.NoDup values.
Proof. unfold values. repeat constructor; simpl; lia. Qed.

(** [makeSureAt] never throws, whatever the value: the loop only ever passes
    1..9 to [setPossibleAt]. *)
Lemma makeSureAt_spec (b : list Z) (p : GPos) (value : Z) (force : bool) :
  wfBoard b -> validPos p ->
  exists b',
    makeSureAt b p value force = Ok b'
    /\ wfBoard b'
    /\ (forall w, validValue w ->
          flag b' p w = if w =? value then force || flag b p w else false)
    /\ (forall q w, validPos q -> validValue w -> q <> p ->
          flag b' q w = flag b q w).
Proof.
  intros Hwf Hp.
  destruct (makeSureLoop_spec p value force values Hp
              (fun v => proj1 (values_valid v)) values_NoDup b Hwf)
    as (b' & E & Hwf' & Hin & _ & Hoth).
  exists b'. repeat split; auto.
  intros w Hw. apply Hin, values_valid, Hw.
Qed.

Lemma sumZ_ext {A : Type} (f g : A -> Z) (l : list A) :
  (forall a, In a l -> f a = g a) -> sumZ f l = sumZ g l.
Proof.
  induction l as [|a l IH]; intros H; simpl; [reflexivity|].
  rewrite (H a) by (left; reflexivity). rewrite IH; [reflexivity|].
  intros; apply H; right; assumption.
Qed.

(** The count of a cell in which [v] is the only flag that may be set. *)
Lemma cellCount_single (b : list Z) (p : GPos) (v : Z) :
  validValue v ->
  (forall w, validValue w -> w <> v -> flag b p w = false) ->
  cellCount b p = Z.b2z (flag b p v)
  /\ (flag b p v = true -> lastSet (flag b p) values 0 = v).
Proof.
  intros Hv Hoff.
  assert (Hc : cellCount b p = Z.b2z (flag b p v)).
  { unfold cellCount.
    rewrite (sumZ_ext _ (fun w => if w =? v then Z.b2z (flag b p v) else 0)).
    - unfold validValue in Hv. unfold values.
      assert (v = 1 \/ v = 2 \/ v = 3 \/ v = 4 \/ v = 5 \/ v = 6 \/ v = 7
              \/ v = 8 \/ v = 9) as Hcases by lia.
      destruct (flag b p v);
        repeat (destruct Hcases as [->|Hcases]; [reflexivity|]);
        subst; reflexivity.
    - intros w Hw. destruct (Z.eqb_spec w v) as [->|Hne]; [reflexivity|].
      rewrite Hoff; auto. apply values_valid, Hw. }
  split; [exact Hc|]. intros Hset.
  rewrite Hset in Hc. simpl in Hc.
  destruct (onlyValue_spec b p Hc) as (_ & _ & Huniq).
  symmetry. apply Huniq; assumption.
Qed.

Lemma setPossibleAt_same (b : list Z) (p : GPos) (v : Z) (on : bool) :
  validPos p -> validValue v -> flag b p v = on ->
  setPossibleAt b p v on = (Ok false, b).
Proof.
  intros Hp Hv Hf. unfold setPossibleAt.
  rewrite inRange_true by assumption. simpl.
  rewrite bit_index_valid by assumption.
  pose proof (bitIndex_range p v Hp Hv).
  rewrite land_mask_testbit by (apply Z.mod_pos_bound; lia).
  change (Z.testbit _ _) with (flag b p v).
  rewrite Hf, eqb_reflx. reflexivity.
Qed.

Lemma setPossibleAt_throw (b : list Z) (p : GPos) (v : Z) (on : bool) :
  ~ validValue v -> setPossibleAt b p v on = (Throw invalid_argument, b).
Proof.
  intros Hv. unfold setPossibleAt.
  destruct (inRange v) eqn:E; [apply inRange_valid in E; tauto | reflexivity].
Qed.

(** ** Claims about single cells *)

(** C1. For a valid position and a value in 1..9, [makeSureAt] with
    [force = true] leaves the cell with exactly one candidate, the value
    (count 1, only value [v]); with [force = false] it leaves the value as the
    only candidate when it was possible before, and no candidate at all
    (count 0) when it was not. *)
Theorem makeSureAt_force_semantics (b : list Z) (pos : GPos) (v : Z) :
  wfBoard b -> validPos pos -> validValue v ->
  (exists b', makeSureAt b pos v true = Ok b'
              /\ getCellInfoAt b' pos = Ok (v, 1))
  /\ (exists b', makeSureAt b pos v false = Ok b'
        /\ (isPossibleAt b pos v = Ok true ->
            getCellInfoAt b' pos = Ok (v, 1))
        /\ (isPossibleAt b pos v = Ok false ->
            getCellInfoAt b' pos = Ok (0, 0)))
  /\ (exists was, isPossibleAt b pos v = Ok was).
Proof.
  intros Hwf Hp Hv.
  assert (Hcell : forall force b',
             (forall w, validValue w ->
                flag b' pos w = if w =? v then force || flag b pos w else false) ->
             getCellInfoAt b' pos
             = Ok (if force || flag b pos v then (v, 1) else (0, 0))).
  { intros force b' Hfl.
    destruct (cellCount_single b' pos v Hv) as [Hc Hl].
    { intros w Hw Hne. rewrite Hfl by assumption.
      destruct (Z.eqb_spec w v); [contradiction | reflexivity]. }
    rewrite getCellInfoAt_spec by assumption.
    rewrite Hc. rewrite (Hfl v Hv), Z.eqb_refl in *.
    destruct (force || flag b pos v); [rewrite Hl by reflexivity|]; reflexivity. }
  rewrite isPossibleAt_flag by assumption.
  split; [|split].
  - destruct (makeSureAt_spec b pos v true Hwf Hp) as (b' & E & _ & Hfl & _).
    exists b'. split; [exact E|]. rewrite (Hcell true b' Hfl). reflexivity.
  - destruct (makeSureAt_spec b pos v false Hwf Hp) as (b' & E & _ & Hfl & _).
    exists b'. split; [exact E|]. rewrite (Hcell false b' Hfl). simpl.
    split; intros [= ->]; reflexivity.
  - eexists; reflexivity.
Qed.

Lemma makeSureAt_force_semantics_witness :
  (exists b', makeSureAt newBoard (mkGPos 4 4) 5 true = Ok b'
              /\ getCellInfoAt b' (mkGPos 4 4) = Ok (5, 1))
  /\ (exists b', makeSureAt newBoard (mkGPos 4 4) 5 false = Ok b'
        /\ (isPossibleAt newBoard (mkGPos 4 4) 5 = Ok true ->
            getCellInfoAt b' (mkGPos 4 4) = Ok (5, 1))
        /\ (isPossibleAt newBoard (mkGPos 4 4) 5 = Ok false ->
            getCellInfoAt b' (mkGPos 4 4) = Ok (0, 0)))
  /\ (exists was, isPossibleAt newBoard (mkGPos 4 4) 5 = Ok was).
Proof.
  apply (makeSureAt_force_semantics newBoard (mkGPos 4 4) 5).
  - reflexivity.
  - unfold validPos; simpl; lia.
  - unfold validValue; lia.
Defined.

(** C6. [isPossibleAt] and [setPossibleAt] throw the out-of-range error
    exactly when the value is outside 1..9; [setPossibleAt] then leaves the
    board as it was; for a value in 1..9 it sets the flag as asked and
    returns [true] exactly when the flag changed. *)
Theorem possibleAt_range_check (b : list Z) (pos : GPos) (v : Z) (on : bool) :
  wfBoard b -> validPos pos ->
  (isPossibleAt b pos v = Throw invalid_argument <-> ~ validValue v)
  /\ (fst (setPossibleAt b pos v on) = Throw invalid_argument <-> ~ validValue v)
  /\ (~ validValue v -> snd (setPossibleAt b pos v on) = b)
  /\ (validValue v ->
      exists changed,
        fst (setPossibleAt b pos v on) = Ok changed
        /\ isPossibleAt (snd (setPossibleAt b pos v on)) pos v = Ok on
        /\ (changed = true <->
            isPossibleAt (snd (setPossibleAt b pos v on)) pos v
            <> isPossibleAt b pos v)
        /\ (changed = false -> snd (setPossibleAt b pos v on) = b)).
Proof.
  intros Hwf Hp.
  assert (Hdec : validValue v \/ ~ validValue v) by (unfold validValue; lia).
  destruct Hdec as [Hv|Hv].
  - destruct (setPossibleAt_flags b pos v on Hwf Hp Hv) as (b' & E & _ & Hset & _).
    rewrite E, isPossibleAt_flag by assumption. simpl.
    split; [split; [discriminate | tauto]|].
    split; [split; [discriminate | tauto]|].
    split; [tauto|]. intros _. eexists. split; [reflexivity|].
    rewrite isPossibleAt_flag, Hset by assumption.
    split; [reflexivity|]. split.
    + destruct (flag b pos v), on; simpl; split; congruence.
    + intros Hch. apply negb_false_iff, eqb_prop in Hch.
      rewrite (setPossibleAt_same b pos v on Hp Hv Hch) in E.
      congruence.
  - rewrite isPossibleAt_throw, setPossibleAt_throw by assumption. simpl.
    repeat split; auto; tauto.
Qed.

Lemma possibleAt_range_check_witness :
  (isPossibleAt newBoard (mkGPos 0 0) 10 = Throw invalid_argument
   <-> ~ validValue 10)
  /\ (fst (setPossibleAt newBoard (mkGPos 0 0) 10 false) = Throw invalid_argument
      <-> ~ validValue 10)
  /\ (~ validValue 10 -> snd (setPossibleAt newBoard (mkGPos 0 0) 10 false) = newBoard)
  /\ (validValue 10 ->
      exists changed,
        fst (setPossibleAt newBoard (mkGPos 0 0) 10 false) = Ok changed
        /\ isPossibleAt (snd (setPossibleAt newBoard (mkGPos 0 0) 10 false))
             (mkGPos 0 0) 10 = Ok false
        /\ (changed = true <->
            isPossibleAt (snd (setPossibleAt newBoard (mkGPos 0 0) 10 false))
              (mkGPos 0 0) 10
            <> isPossibleAt newBoard (mkGPos 0 0) 10)
        /\ (changed = false ->
            snd (setPossibleAt newBoard (mkGPos 0 0) 10 false) = newBoard)).
Proof.
  apply (possibleAt_range_check newBoard (mkGPos 0 0) 10 false).
  - reflexivity.
  - unfold validPos; simpl; lia.
Defined.

(** C10. [makeSureAt] with a value outside 1..9 throws nothing, forcing or
    not: it clears all nine flags of the cell, which is left with count 0,
    whereas [isPossibleAt] and [setPossibleAt] reject the same value. *)
Theorem makeSureAt_value_out_of_range
    (b : list Z) (pos : GPos) (v : Z) (force : bool) :
  wfBoard b -> validPos pos -> ~ validValue v ->
  isPossibleAt b pos v = Throw invalid_argument
  /\ (forall on, setPossibleAt b pos v on = (Throw invalid_argument, b))
  /\ exists b',
       makeSureAt b pos v force = Ok b'
       /\ getPossiblesCountAt b' pos = Ok 0
       /\ forall w, validValue w -> isPossibleAt b' pos w = Ok false.
Proof.
  intros Hwf Hp Hv.
  split; [apply isPossibleAt_throw; assumption|].
  split; [intros on; apply setPossibleAt_throw; assumption|].
  destruct (makeSureAt_spec b pos v force Hwf Hp) as (b' & E & _ & Hfl & _).
  assert (Hoff : forall w, validValue w -> flag b' pos w = false).
  { intros w Hw. rewrite Hfl by assumption.
    destruct (Z.eqb_spec w v) as [->|]; [contradiction | reflexivity]. }
  exists b'. split; [exact E|]. split.
  - unfold getPossiblesCountAt. rewrite getCellInfoAt_spec by assumption. simpl.
    destruct (cellCount_single b' pos 1) as [Hc _].
    + unfold validValue; lia.
    + intros w Hw _. apply Hoff, Hw.
    + rewrite Hc, Hoff by (unfold validValue; lia). reflexivity.
  - intros w Hw. rewrite isPossibleAt_flag by assumption. f_equal. auto.
Qed.

Lemma makeSureAt_value_out_of_range_witness :
  isPossibleAt newBoard (mkGPos 3 7) 0 = Throw invalid_argument
  /\ (forall on, setPossibleAt newBoard (mkGPos 3 7) 0 on
                 = (Throw invalid_argument, newBoard))
  /\ exists b',
       makeSureAt newBoard (mkGPos 3 7) 0 true = Ok b'
       /\ getPossiblesCountAt b' (mkGPos 3 7) = Ok 0
       /\ forall w, validValue w -> isPossibleAt b' (mkGPos 3 7) w = Ok false.
Proof.
  apply (makeSureAt_value_out_of_range newBoard (mkGPos 3 7) 0 true).
  - reflexivity.
  - unfold validPos; simpl; lia.
  - unfold validValue; lia.
Defined.

(** ** The row-major scan *)

Lemma range9_In (z : Z) : In z range9 <-> 0 <= z <= 8.
Proof. unfold range9. simpl. lia. Qed.

Lemma allCells_valid (p : GPos) : In p allCells <-> validPos p.
Proof.
  unfold allCells, validPos. rewrite in_flat_map. split.
  - intros (y & Hy & Hin). apply in_map_iff in Hin as (x & <- & Hx).
    apply range9_In in Hy, Hx. simpl. lia.
  - intros [Hx Hy]. exists (getY p). split; [apply range9_In; assumption|].
    apply in_map_iff. exists (getX p). split; [destruct p; reflexivity|].
    apply range9_In; assumption.
Qed.

Lemma increasing_tail (a : Z) (l : list Z) :
  increasing (a :: l) = true -> increasing l = true /\ forall x, In x l -> a < x.
Proof.
  revert a. induction l as [|a' l IH]; intros a H.
  - split; [reflexivity | intros x []].
  - simpl in H. apply andb_true_iff in H as [Hlt Hrest].
    apply Z.ltb_lt in Hlt. split; [exact Hrest|].
    destruct (IH a' Hrest) as [_ Hall].
    intros x [<-|Hx]; [assumption|]. specialize (Hall x Hx). lia.
Qed.

Lemma increasing_split (l1 l2 : list Z) (a : Z) :
  increasing (l1 ++ a :: l2) = true -> forall x, In x l2 -> a < x.
Proof.
  induction l1 as [|c l1 IH]; intros H.
  - apply increasing_tail in H. tauto.
  - apply IH. simpl app in H. apply increasing_tail in H. tauto.
Qed.

Lemma allCells_increasing : increasing (map cellIndex allCells) = true.
Proof. vm_compute. reflexivity. Qed.

(** In a split of the scan order the cells after [p] have a larger index. *)
Lemma scan_order (l1 l2 : list GPos) (p q : GPos) :
  allCells = l1 ++ p :: l2 -> In q l2 -> cellIndex p < cellIndex q.
Proof.
  intros Hsplit Hq. pose proof allCells_increasing as Hinc.
  rewrite Hsplit, map_app in Hinc. simpl map in Hinc.
  apply (increasing_split _ _ _ Hinc). apply in_map. exact Hq.
Qed.

(** ** [findMRVCell] *)

Lemma mrvScan_zero (b : list Z) (l1 l2 : list GPos) (p0 : GPos) :
  (forall q, In q (l1 ++ p0 :: l2) -> validPos q) ->
  (forall q, In q l1 -> cellCount b q <> 0) ->
  cellCount b p0 = 0 ->
  forall best, mrvScan b (l1 ++ p0 :: l2) best = Ok (inl (p0, 0)).
Proof.
  intros Hval Hnz Hz. induction l1 as [|c l1 IH]; intros best; simpl.
  - rewrite getCellInfoAt_spec by (apply Hval; left; reflexivity). simpl.
    rewrite Hz. reflexivity.
  - rewrite getCellInfoAt_spec by (apply Hval; left; reflexivity). simpl.
    destruct (Z.eqb_spec (cellCount b c) 0) as [E|_].
    + exfalso. apply (Hnz c); [left; reflexivity | exact E].
    + destruct (_ && _); apply IH.
      * intros q Hq. apply Hval. right. exact Hq.
      * intros q Hq. apply Hnz. right. exact Hq.
      * intros q Hq. apply Hval. right. exact Hq.
      * intros q Hq. apply Hnz. right. exact Hq.
Qed.

Lemma mrvScan_min (b : list Z) (cells : list GPos) :
  (forall q, In q cells -> validPos q /\ cellCount b q <> 0) ->
  forall bp bc,
  exists bp' bc',
    mrvScan b cells (bp, bc) = Ok (inr (bp', bc'))
    /\ (forall q, In q cells -> 1 < cellCount b q -> bc' <= cellCount b q)
    /\ ((bp', bc') = (bp, bc)
        \/ exists l1 l2, cells = l1 ++ bp' :: l2 /\ cellCount b bp' = bc'
                         /\ 1 < bc' < bc
                         /\ forall q, In q l1 -> cellCount b q <> bc').
Proof.
  induction cells as [|c cells IH]; intros Hcells bp bc.
  - exists bp, bc. simpl. split; [reflexivity|]. split; [tauto | left; reflexivity].
  - destruct (Hcells c (or_introl eq_refl)) as [Hc Hnz].
    assert (Hrest : forall q, In q cells -> validPos q /\ cellCount b q <> 0)
      by (intros q Hq; apply Hcells; right; exact Hq).
    simpl mrvScan. rewrite getCellInfoAt_spec by assumption. simpl.
    destruct (Z.eqb_spec (cellCount b c) 0) as [E|_]; [contradiction|].
    destruct ((1 <? cellCount b c) && (cellCount b c <? bc)) eqn:Eimp.
    + apply andb_true_iff in Eimp as [H1 H2].
      apply Z.ltb_lt in H1, H2.
      destruct (IH Hrest c (cellCount b c)) as (bp' & bc' & E & Hmin & Hpos).
      exists bp', bc'. split; [exact E|].
      assert (Hle : bc' <= cellCount b c).
      { destruct Hpos as [[= _ ->]|(? & ? & _ & _ & ? & _)]; lia. }
      split.
      * intros q [<-|Hq] Hgt; [exact Hle | auto].
      * right. destruct Hpos as [[= -> ->]|(l1 & l2 & -> & Hcnt & Hb & Hl1)].
        -- exists [], cells. simpl. repeat split; auto; tauto.
        -- exists (c :: l1), l2. simpl.
           repeat split; auto; try lia; intros q [<-|Hq]; [lia | auto].
    + apply andb_false_iff in Eimp.
      assert (Hno : ~ (1 < cellCount b c < bc)).
      { destruct Eimp as [H|H]; apply Z.ltb_ge in H; lia. }
      destruct (IH Hrest bp bc) as (bp' & bc' & E & Hmin & Hpos).
      exists bp', bc'. split; [exact E|].
      assert (Hle : bc' <= bc).
      { destruct Hpos as [[= _ ->]|(? & ? & _ & _ & ? & _)]; lia. }
      split.
      * intros q [<-|Hq] Hgt; [lia | auto].
      * destruct Hpos as [Heq|(l1 & l2 & -> & Hcnt & Hb & Hl1)]; [left; exact Heq|].
        right. exists (c :: l1), l2. simpl.
        repeat split; auto; try lia; intros q [<-|Hq]; [lia | auto].
Qed.

Lemma first_such (f : GPos -> Z) (z : Z) (l : list GPos) (p : GPos) :
  In p l -> f p = z ->
  exists l1 p0 l2, l = l1 ++ p0 :: l2 /\ f p0 = z /\ forall q, In q l1 -> f q <> z.
Proof.
  induction l as [|c l IH]; intros Hin Hp; [destruct Hin|].
  destruct (Z.eq_dec (f c) z) as [E|N].
  - exists [], c, l. simpl. repeat split; auto; tauto.
  - destruct Hin as [->|Hin]; [contradiction|].
    destruct (IH Hin Hp) as (l1 & p0 & l2 & -> & H0 & Hl1).
    exists (c :: l1), p0, l2. simpl. repeat split; auto.
    intros q [<-|Hq]; auto.
Qed.

Lemma split_order (l1 l2 : list GPos) (p q : GPos) :
  allCells = l1 ++ p :: l2 -> validPos q -> ~ In q l1 ->
  cellIndex p <= cellIndex q.
Proof.
  intros Hsplit Hq Hnot. apply allCells_valid in Hq.
  rewrite Hsplit in Hq. apply in_app_or in Hq as [Hq|[->|Hq]].
  - contradiction.
  - lia.
  - pose proof (scan_order l1 l2 p q Hsplit Hq). lia.
Qed.

Lemma allCells_split_valid (l1 l2 : list GPos) (p : GPos) :
  allCells = l1 ++ p :: l2 -> validPos p.
Proof.
  intros Hsplit. apply allCells_valid. rewrite Hsplit.
  apply in_or_app. right. left. reflexivity.
Qed.

(** An empty cell exists: the scan stops at the first one. *)
Lemma findMRVCell_empty (b : list Z) (p : GPos) :
  validPos p -> countAt b p = 0 ->
  exists p0,
    findMRVCell b = Ok (p0, 0) /\ validPos p0 /\ countAt b p0 = 0
    /\ forall q, validPos q -> countAt b q = 0 -> cellIndex p0 <= cellIndex q.
Proof.
  intros Hp Hz. rewrite countAt_cellCount in Hz by assumption.
  apply allCells_valid in Hp.
  destruct (first_such (cellCount b) 0 allCells p Hp Hz)
    as (l1 & p0 & l2 & Hsplit & H0 & Hl1).
  pose proof (allCells_split_valid l1 l2 p0 Hsplit) as Hp0.
  exists p0. unfold findMRVCell. rewrite Hsplit.
  rewrite mrvScan_zero; auto.
  - simpl. rewrite countAt_cellCount by assumption.
    split; [reflexivity|]. split; [exact Hp0|]. split; [exact H0|].
    intros q Hq Hqz. rewrite countAt_cellCount in Hqz by assumption.
    apply (split_order l1 l2); auto. intros Hin. exact (Hl1 q Hin Hqz).
  - intros q Hq. apply allCells_valid. rewrite Hsplit. exact Hq.
Qed.

(** No empty cell, and some cell with two candidates or more. *)
Lemma findMRVCell_least (b : list Z) (p : GPos) :
  (forall q, validPos q -> countAt b q <> 0) ->
  validPos p -> 2 <= countAt b p <= 9 ->
  exists p0 c,
    findMRVCell b = Ok (p0, c) /\ validPos p0 /\ countAt b p0 = c
    /\ 2 <= c <= 9
    /\ (forall q, validPos q -> 2 <= countAt b q -> c <= countAt b q)
    /\ (forall q, validPos q -> countAt b q = c -> cellIndex p0 <= cellIndex q).
Proof.
  intros Hnz Hp Hcnt.
  destruct (mrvScan_min b allCells) with (bp := mkGPos 0 0) (bc := 10)
    as (bp' & bc' & E & Hmin & Hpos).
  { intros q Hq. apply allCells_valid in Hq. split; [exact Hq|].
    rewrite <- countAt_cellCount by assumption. auto. }
  rewrite countAt_cellCount in Hcnt by assumption.
  assert (Hlt : bc' <= cellCount b p).
  { apply Hmin; [apply allCells_valid; assumption | lia]. }
  destruct Hpos as [[= _ ->]|(l1 & l2 & Hsplit & Hc & Hb & Hl1)]; [lia|].
  pose proof (allCells_split_valid l1 l2 bp' Hsplit) as Hp0.
  exists bp', bc'. unfold findMRVCell. rewrite E. simpl.
  destruct (Z.eqb_spec bc' 10); [lia|].
  rewrite countAt_cellCount by assumption.
  split; [reflexivity|]. split; [exact Hp0|]. split; [exact Hc|].
  split; [lia|]. split.
  - intros q Hq Hq2. rewrite countAt_cellCount in * by assumption.
    apply Hmin; [apply allCells_valid; assumption | lia].
  - intros q Hq Hqc. rewrite countAt_cellCount in Hqc by assumption.
    apply (split_order l1 l2); auto. intros Hin. exact (Hl1 q Hin Hqc).
Qed.

(** C7. [findMRVCell] is a function of the board alone.  If some cell has no
    candidate, it returns the first such cell of the row-major scan with
    count 0.  Otherwise, if some cell has between 2 and 9 candidates, it
    returns the least such count and the cell of lowest row-major index
    having it.  If every cell has exactly one candidate it throws. *)
Theorem findMRVCell_spec (b : list Z) :
  (forall p, validPos p -> countAt b p = 0 ->
     exists p0,
       findMRVCell b = Ok (p0, 0) /\ validPos p0 /\ countAt b p0 = 0
       /\ forall q, validPos q -> countAt b q = 0 ->
            cellIndex p0 <= cellIndex q)
  /\ ((forall q, validPos q -> countAt b q <> 0) ->
      forall p, validPos p -> 2 <= countAt b p <= 9 ->
      exists p0 c,
        findMRVCell b = Ok (p0, c) /\ validPos p0 /\ countAt b p0 = c
        /\ 2 <= c <= 9
        /\ (forall q, validPos q -> 2 <= countAt b q -> c <= countAt b q)
        /\ (forall q, validPos q -> countAt b q = c ->
              cellIndex p0 <= cellIndex q))
  /\ ((forall q, validPos q -> countAt b q = 1) ->
      findMRVCell b = Throw runtime_error)
  /\ (forall b', b' = b -> findMRVCell b' = findMRVCell b).
Proof.
  split; [|split; [|split]].
  - intros p. apply findMRVCell_empty.
  - intros Hnz p. apply findMRVCell_least. exact Hnz.
  - intros Hone.
    destruct (mrvScan_min b allCells) with (bp := mkGPos 0 0) (bc := 10)
      as (bp' & bc' & E & Hmin & Hpos).
    { intros q Hq. apply allCells_valid in Hq. split; [exact Hq|].
      rewrite <- countAt_cellCount, Hone by assumption. lia. }
    unfold findMRVCell. rewrite E. simpl.
    destruct Hpos as [[= _ ->]|(l1 & l2 & Hsplit & Hc & Hb & Hl1)]; [reflexivity|].
    exfalso.
    pose proof (allCells_split_valid l1 l2 bp' Hsplit) as Hp0.
    specialize (Hone bp' Hp0). rewrite countAt_cellCount in Hone by assumption. lia.
  - intros b' ->. reflexivity.
Qed.

(** Two of the cases on concrete boards: the default board, and the default
    board with the cell (5,2) emptied. *)
Lemma findMRVCell_spec_witness :
  findMRVCell newBoard = Ok (mkGPos 0 0, 9)
  /\ (exists p0,
        findMRVCell (boardOf (makeSureAt newBoard (mkGPos 5 2) 0 false))
        = Ok (p0, 0)
        /\ validPos p0
        /\ countAt (boardOf (makeSureAt newBoard (mkGPos 5 2) 0 false)) p0 = 0
        /\ forall q, validPos q ->
             countAt (boardOf (makeSureAt newBoard (mkGPos 5 2) 0 false)) q = 0 ->
             cellIndex p0 <= cellIndex q).
Proof.
  split; [vm_compute; reflexivity|].
  apply (proj1 (findMRVCell_spec
                  (boardOf (makeSureAt newBoard (mkGPos 5 2) 0 false)))
           (mkGPos 5 2)).
  - unfold validPos; simpl; lia.
  - vm_compute. reflexivity.
Defined.

(** ** Counting the flags of the board *)

Lemma sumZ_le {A : Type} (f g : A -> Z) (l : list A) :
  (forall a, In a l -> f a <= g a) -> sumZ f l <= sumZ g l.
Proof.
  induction l as [|a l IH]; intros H; simpl; [lia|].
  pose proof (H a (or_introl eq_refl)).
  assert (sumZ f l <= sumZ g l) by (apply IH; intros; apply H; right; assumption).
  lia.
Qed.

Lemma sumZ_lt {A : Type} (f g : A -> Z) (l : list A) (a0 : A) :
  (forall a, In a l -> f a <= g a) -> In a0 l -> f a0 < g a0 ->
  sumZ f l < sumZ g l.
Proof.
  induction l as [|a l IH]; intros H Hin Hlt; [destruct Hin|]. simpl.
  pose proof (H a (or_introl eq_refl)).
  assert (Hl : forall a, In a l -> f a <= g a) by (intros; apply H; right; assumption).
  destruct Hin as [->|Hin].
  - pose proof (sumZ_le f g l Hl). lia.
  - pose proof (IH Hl Hin Hlt). lia.
Qed.

Lemma subBoard_flag (b' b : list Z) :
  subBoard b' b <->
  forall p v, validPos p -> validValue v -> flag b' p v = true -> flag b p v = true.
Proof.
  unfold subBoard. split; intros H p v Hp Hv.
  - specialize (H p v Hp Hv). rewrite !isPossibleAt_flag in H by assumption.
    intros E. rewrite E in H. specialize (H eq_refl). congruence.
  - rewrite !isPossibleAt_flag by assumption. intros [= E].
    rewrite (H p v Hp Hv E). reflexivity.
Qed.

Lemma subBoard_refl (b : list Z) : subBoard b b.
Proof. unfold subBoard. auto. Qed.

Lemma subBoard_trans (b1 b2 b3 : list Z) :
  subBoard b1 b2 -> subBoard b2 b3 -> subBoard b1 b3.
Proof. unfold subBoard. auto. Qed.

Lemma cellCount_mono (b' b : list Z) (p : GPos) :
  subBoard b' b -> validPos p -> cellCount b' p <= cellCount b p.
Proof.
  intros Hsub Hp. unfold cellCount. apply sumZ_le. intros v Hv.
  apply values_valid in Hv. rewrite subBoard_flag in Hsub.
  specialize (Hsub p v Hp Hv).
  destruct (flag b' p v); [rewrite Hsub by reflexivity; lia|].
  destruct (flag b p v); simpl; lia.
Qed.

Lemma flagCount_cells (b : list Z) : flagCount b = sumZ (cellCount b) allCells.
Proof.
  unfold flagCount. apply sumZ_ext. intros p Hp.
  apply countAt_cellCount, allCells_valid, Hp.
Qed.

Lemma flagCount_mono (b' b : list Z) :
  subBoard b' b -> flagCount b' <= flagCount b.
Proof.
  intros Hsub. rewrite !flagCount_cells. apply sumZ_le. intros p Hp.
  apply cellCount_mono; [assumption | apply allCells_valid, Hp].
Qed.

Lemma cellCount_strict (b' b : list Z) (p : GPos) (v : Z) :
  subBoard b' b -> validPos p -> validValue v ->
  flag b p v = true -> flag b' p v = false ->
  cellCount b' p < cellCount b p.
Proof.
  intros Hsub Hp Hv Hon Hoff. unfold cellCount.
  apply sumZ_lt with (a0 := v).
  - intros w Hw. apply values_valid in Hw. rewrite subBoard_flag in Hsub.
    specialize (Hsub p w Hp Hw).
    destruct (flag b' p w); [rewrite Hsub by reflexivity; lia|].
    destruct (flag b p w); simpl; lia.
  - apply values_valid, Hv.
  - rewrite Hon, Hoff. simpl. lia.
Qed.

Lemma flagCount_strict (b' b : list Z) (p : GPos) (v : Z) :
  subBoard b' b -> validPos p -> validValue v ->
  flag b p v = true -> flag b' p v = false ->
  flagCount b' < flagCount b.
Proof.
  intros Hsub Hp Hv Hon Hoff. rewrite !flagCount_cells.
  apply sumZ_lt with (a0 := p).
  - intros q Hq. apply cellCount_mono; [assumption | apply allCells_valid, Hq].
  - apply allCells_valid, Hp.
  - apply (cellCount_strict b' b p v); assumption.
Qed.

Lemma allCells_length : length allCells = 81%nat.
Proof. reflexivity. Qed.

Lemma sumZ_bounds {A : Type} (f : A -> Z) (lo hi : Z) (l : list A) :
  (forall a, In a l -> lo <= f a <= hi) ->
  lo * Z.of_nat (length l) <= sumZ f l <= hi * Z.of_nat (length l).
Proof.
  induction l as [|a l IH]; intros H; simpl length; simpl sumZ; [lia|].
  pose proof (H a (or_introl eq_refl)).
  assert (lo * Z.of_nat (length l) <= sumZ f l <= hi * Z.of_nat (length l))
    by (apply IH; intros; apply H; right; assumption).
  lia.
Qed.

Lemma flagCount_range (b : list Z) : 0 <= flagCount b <= 729.
Proof.
  rewrite flagCount_cells.
  pose proof (sumZ_bounds (cellCount b) 0 9 allCells
                (fun p _ => cellCount_range b p)) as H.
  rewrite allCells_length in H. lia.
Qed.

Lemma flagCount_all_nonempty (b : list Z) :
  (forall p, In p allCells -> 1 <= cellCount b p) -> 81 <= flagCount b.
Proof.
  intros H. rewrite flagCount_cells.
  pose proof (sumZ_bounds (cellCount b) 1 9 allCells
                (fun p Hp => conj (H p Hp) (proj2 (cellCount_range b p)))) as Hb.
  rewrite allCells_length in Hb. lia.
Qed.

(** ** Steps of a pass *)

Lemma passStep_refl {L : Type} (s : PassState L) :
  wfBoard (board s) -> passStep s s.
Proof. intros H. split; [exact H|]. split; [apply subBoard_refl | left; auto]. Qed.

Lemma passStep_trans {L : Type} (s1 s2 s3 : PassState L) :
  passStep s1 s2 -> passStep s2 s3 -> passStep s1 s3.
Proof.
  intros (Hwf2 & Hsub2 & Hc2) (Hwf3 & Hsub3 & Hc3).
  split; [exact Hwf3|]. split; [eapply subBoard_trans; eassumption|].
  pose proof (flagCount_mono _ _ Hsub2). pose proof (flagCount_mono _ _ Hsub3).
  destruct Hc3 as [[Eb Ee]|Hlt]; [|right; lia].
  destruct Hc2 as [[Eb' Ee']|Hlt]; [left; split; congruence|].
  right. rewrite Eb. exact Hlt.
Qed.

Lemma foldM_invariant {S A : Type} (I : S -> Prop) (P : A -> Prop)
    (f : S -> A -> outcome S) (l : list A) :
  (forall a, In a l -> P a) ->
  (forall s a, P a -> I s -> exists s', f s a = Ok s' /\ I s') ->
  forall s, I s -> exists s', foldM f l s = Ok s' /\ I s'.
Proof.
  intros Hl Hf. induction l as [|a l IH]; intros s Hs; simpl.
  - exists s. auto.
  - destruct (Hf s a (Hl a (or_introl eq_refl)) Hs) as (s1 & E1 & H1).
    rewrite E1. simpl. apply IH; [|exact H1].
    intros; apply Hl; right; assumption.
Qed.

Lemma foldM_passStep {L A : Type} (P : A -> Prop)
    (f : PassState L -> A -> outcome (PassState L)) (l : list A) :
  (forall a, In a l -> P a) ->
  (forall s a, P a -> wfBoard (board s) -> exists s', f s a = Ok s' /\ passStep s s') ->
  forall s, wfBoard (board s) -> exists s', foldM f l s = Ok s' /\ passStep s s'.
Proof.
  intros Hl Hf s Hs.
  apply (foldM_invariant (fun s' => passStep s s') P f l Hl).
  - intros s1 a Ha H1. destruct (Hf s1 a Ha (proj1 H1)) as (s2 & E & H2).
    exists s2. split; [exact E|]. eapply passStep_trans; eassumption.
  - apply passStep_refl, Hs.
Qed.

Lemma chunk_range (z c : Z) :
  0 <= z <= 8 -> In c [z / 3 * 3; z / 3 * 3 + 1; z / 3 * 3 + 2] -> 0 <= c <= 8.
Proof.
  intros Hz Hc.
  assert (0 <= z / 3 < 3)
    by (split; [apply Z.div_pos | apply Z.div_lt_upper_bound]; lia).
  destruct Hc as [<-|[<-|[<-|[]]]]; lia.
Qed.

Section PassProperties.
Context {L : Type}.
Variable ev : SimplificationCause -> GPos -> Z -> Z -> list Z -> L -> L.

Lemma notify_step (cause : SimplificationCause) (cell : GPos) (v by_ : Z)
    (s : PassState L) :
  wfBoard (board s) -> passStep s (notify ev cause cell v by_ s).
Proof.
  intros H. split; [exact H|]. split; [apply subBoard_refl | left; auto].
Qed.

Lemma eliminateAt_step (cause : SimplificationCause) (by_ : Z) (peer : GPos)
    (onlyVal : Z) (s : PassState L) :
  validPos peer -> validValue onlyVal -> wfBoard (board s) ->
  exists s', eliminateAt ev cause by_ peer onlyVal s = Ok s' /\ passStep s s'.
Proof.
  intros Hp Hv Hwf. unfold eliminateAt.
  rewrite isPossibleAt_flag by assumption. simpl.
  destruct (flag (board s) peer onlyVal) eqn:Hon.
  - destruct (setPossibleAt_flags (board s) peer onlyVal false Hwf Hp Hv)
      as (b' & E & Hwf' & Hoff & Hoth).
    rewrite E. simpl. eexists. split; [reflexivity|].
    assert (Hsub : subBoard b' (board s)).
    { apply subBoard_flag. intros q w Hq Hw Hset.
      destruct (decide ((q, w) = (peer, onlyVal))) as [[= -> ->]|Hne].
      - congruence.
      - rewrite <- Hoth; assumption. }
    split; [exact Hwf'|]. split; [exact Hsub|]. right. simpl.
    apply (flagCount_strict b' (board s) peer onlyVal); assumption.
  - exists s. split; [reflexivity | apply passStep_refl, Hwf].
Qed.

Lemma eliminateRow_step (x y onlyVal : Z) (s : PassState L) :
  0 <= y <= 8 -> validValue onlyVal -> wfBoard (board s) ->
  exists s', eliminateRow ev x y onlyVal s = Ok s' /\ passStep s s'.
Proof.
  intros Hy Hv. unfold eliminateRow.
  apply (foldM_passStep (fun cx => 0 <= cx <= 8));
    [intros a; apply range9_In|].
  intros s1 cx Hcx Hwf. destruct (cx =? x).
  - exists s1. split; [reflexivity | apply passStep_refl, Hwf].
  - apply eliminateAt_step; auto. split; assumption.
Qed.

Lemma eliminateColumn_step (x y onlyVal : Z) (s : PassState L) :
  0 <= x <= 8 -> validValue onlyVal -> wfBoard (board s) ->
  exists s', eliminateColumn ev x y onlyVal s = Ok s' /\ passStep s s'.
Proof.
  intros Hx Hv. unfold eliminateColumn.
  apply (foldM_passStep (fun cy => 0 <= cy <= 8));
    [intros a; apply range9_In|].
  intros s1 cy Hcy Hwf. destruct (cy =? y).
  - exists s1. split; [reflexivity | apply passStep_refl, Hwf].
  - apply eliminateAt_step; auto. split; assumption.
Qed.

Lemma eliminateChunk_step (x y onlyVal : Z) (s : PassState L) :
  0 <= x <= 8 -> 0 <= y <= 8 -> validValue onlyVal -> wfBoard (board s) ->
  exists s', eliminateChunk ev x y onlyVal s = Ok s' /\ passStep s s'.
Proof.
  intros Hx Hy Hv. unfold eliminateChunk.
  apply (foldM_passStep (fun by_ => 0 <= by_ <= 8));
    [intros a; apply chunk_range, Hy|].
  intros s1 by_ Hby.
  apply (foldM_passStep (fun bx => 0 <= bx <= 8));
    [intros a; apply chunk_range, Hx|].
  intros s2 bx Hbx Hwf. destruct (samePos bx by_ x y).
  - exists s2. split; [reflexivity | apply passStep_refl, Hwf].
  - apply eliminateAt_step; auto. split; assumption.
Qed.

End PassProperties.

Lemma flagCount_strict_cell (b' b : list Z) (p : GPos) :
  subBoard b' b -> validPos p -> cellCount b' p < cellCount b p ->
  flagCount b' < flagCount b.
Proof.
  intros Hsub Hp Hlt. rewrite !flagCount_cells.
  apply sumZ_lt with (a0 := p).
  - intros q Hq. apply cellCount_mono; [assumption | apply allCells_valid, Hq].
  - apply allCells_valid, Hp.
  - exact Hlt.
Qed.

(** The hidden-single tests only read the board and never throw. *)
Lemma rowUnique_ok (b : list Z) (x y v : Z) :
  0 <= y <= 8 -> validValue v -> exists r, rowUnique b x y v = Ok r.
Proof.
  intros Hy Hv. unfold rowUnique.
  match goal with
  | |- exists r, foldM ?f ?l ?s = Ok r =>
      assert (H : exists r, foldM f l s = Ok r /\ True)
  end.
  { apply (foldM_invariant (fun _ : bool => True) (fun cx => 0 <= cx <= 8));
      [intros a; apply range9_In | | exact I].
    intros s cx Hcx _. destruct (cx =? x); [eauto|].
    rewrite isPossibleAt_flag by (auto; split; assumption). simpl. eauto. }
  destruct H as (r & E & _). eauto.
Qed.

Lemma colUnique_ok (b : list Z) (x y v : Z) :
  0 <= x <= 8 -> validValue v -> exists r, colUnique b x y v = Ok r.
Proof.
  intros Hx Hv. unfold colUnique.
  match goal with
  | |- exists r, foldM ?f ?l ?s = Ok r =>
      assert (H : exists r, foldM f l s = Ok r /\ True)
  end.
  { apply (foldM_invariant (fun _ : bool => True) (fun cy => 0 <= cy <= 8));
      [intros a; apply range9_In | | exact I].
    intros s cy Hcy _. destruct (cy =? y); [eauto|].
    rewrite isPossibleAt_flag by (auto; split; assumption). simpl. eauto. }
  destruct H as (r & E & _). eauto.
Qed.

Lemma chunkRowUnique_ok (b : list Z) (x y v by_ : Z) (bxs : list Z) :
  0 <= by_ <= 8 -> validValue v -> (forall bx, In bx bxs -> 0 <= bx <= 8) ->
  exists r, chunkRowUnique b x y v by_ bxs = Ok r.
Proof.
  intros Hby Hv. induction bxs as [|bx bxs IH]; intros Hbxs; simpl; [eauto|].
  assert (Hrest : forall c, In c bxs -> 0 <= c <= 8)
    by (intros; apply Hbxs; right; assumption).
  destruct (samePos bx by_ x y); [auto|].
  assert (Hpeer : validPos (mkGPos bx by_))
    by (split; [apply Hbxs; left; reflexivity | assumption]).
  rewrite isPossibleAt_flag by assumption.
  simpl. destruct (flag b _ v); eauto.
Qed.

Lemma chunkUniqueRows_ok (b : list Z) (x y v : Z) (bxs bys : list Z) :
  validValue v ->
  (forall c, In c bxs -> 0 <= c <= 8) -> (forall c, In c bys -> 0 <= c <= 8) ->
  exists r, chunkUniqueRows b x y v bxs bys = Ok r.
Proof.
  intros Hv Hbxs. induction bys as [|by_ bys IH]; intros Hbys; simpl; [eauto|].
  destruct (chunkRowUnique_ok b x y v by_ bxs) as (r & E); auto.
  { apply Hbys. left. reflexivity. }
  rewrite E. simpl. destruct r; [|eauto].
  apply IH. intros; apply Hbys; right; assumption.
Qed.

Lemma chunkUnique_ok (b : list Z) (x y v : Z) :
  0 <= x <= 8 -> 0 <= y <= 8 -> validValue v ->
  exists r, chunkUnique b x y v = Ok r.
Proof.
  intros Hx Hy Hv. unfold chunkUnique.
  apply chunkUniqueRows_ok; [assumption | |]; intros c; apply chunk_range; assumption.
Qed.

Section HiddenSingle.
Context {L : Type}.
Variable ev : SimplificationCause -> GPos -> Z -> Z -> list Z -> L -> L.

(** A firing on a cell that, when the value loop started in [s0], had
    [cnt >= 2] candidates: whatever happened since, the board is now
    strictly below that of [s0]. *)
Lemma valueSure_step (cause : SimplificationCause) (by_ : Z) (selfPos : GPos)
    (v cnt : Z) (s0 s : PassState L) :
  validPos selfPos -> validValue v ->
  cellCount (board s0) selfPos = cnt -> 2 <= cnt ->
  passStep s0 s -> flag (board s) selfPos v = true ->
  exists s', valueSure ev cause by_ selfPos v cnt s = Ok s'
             /\ passStep s0 s' /\ flag (board s') selfPos v = true.
Proof.
  intros Hp Hv Hcnt H2 (Hwf & Hsub & Hcase) Hon. unfold valueSure. simpl.
  destruct (makeSureAt_spec (board s) selfPos v false Hwf Hp)
    as (b' & E & Hwf' & Hself & Hoth).
  rewrite E. simpl. eexists. split; [reflexivity|]. simpl.
  assert (Hv' : flag b' selfPos v = true).
  { rewrite Hself, Z.eqb_refl by assumption. exact Hon. }
  assert (Hsub' : subBoard b' (board s)).
  { apply subBoard_flag. intros q w Hq Hw Hset.
    destruct (decide (q = selfPos)) as [->|Hne].
    - rewrite Hself in Hset by assumption.
      destruct (Z.eqb_spec w v) as [->|]; [assumption | discriminate].
    - rewrite <- Hoth; assumption. }
  split; [|exact Hv'].
  split; [exact Hwf'|]. split; [eapply subBoard_trans; eassumption|].
  right. simpl.
  pose proof (flagCount_mono _ _ Hsub').
  destruct Hcase as [[Eb _]|Hlt]; [|lia].
  rewrite <- Eb.
  apply (flagCount_strict_cell b' (board s) selfPos); auto.
  destruct (cellCount_single b' selfPos v Hv) as [Hone _].
  { intros w Hw Hne. rewrite Hself by assumption.
    destruct (Z.eqb_spec w v); [contradiction | reflexivity]. }
  rewrite Hone, Hv', Eb, Hcnt. simpl. lia.
Qed.

Lemma maybeSure_step (success : bool) (cause : SimplificationCause) (by_ : Z)
    (selfPos : GPos) (v cnt : Z) (s0 s : PassState L) :
  validPos selfPos -> validValue v ->
  cellCount (board s0) selfPos = cnt -> 2 <= cnt ->
  passStep s0 s -> flag (board s) selfPos v = true ->
  exists s', (if success then valueSure ev cause by_ selfPos v cnt s else Ok s)
             = Ok s'
             /\ passStep s0 s' /\ flag (board s') selfPos v = true.
Proof.
  intros. destruct success; [apply valueSure_step; assumption | eauto].
Qed.

Lemma hiddenSingleAt_step (x y cnt : Z) (s0 s : PassState L) (v : Z) :
  validPos (mkGPos x y) -> validValue v ->
  cellCount (board s0) (mkGPos x y) = cnt -> 2 <= cnt ->
  passStep s0 s ->
  exists s', hiddenSingleAt ev x y cnt s v = Ok s' /\ passStep s0 s'.
Proof.
  intros Hp Hv Hcnt H2 Hstep. destruct Hp as [Hx Hy]. simpl in Hx, Hy.
  assert (Hp : validPos (mkGPos x y)) by (split; assumption).
  unfold hiddenSingleAt. rewrite isPossibleAt_flag by assumption. simpl.
  destruct (flag (board s) (mkGPos x y) v) eqn:Hon; simpl; [|eauto].
  destruct (rowUnique_ok (board s) x y v Hy Hv) as (r1 & E1). rewrite E1. simpl.
  destruct (maybeSure_step r1 VALUE_SURE_BY_ROW y (mkGPos x y) v cnt s0 s
              Hp Hv Hcnt H2 Hstep Hon) as (s1 & F1 & Hstep1 & Hon1).
  rewrite F1. simpl.
  destruct (colUnique_ok (board s1) x y v Hx Hv) as (r2 & E2). rewrite E2. simpl.
  destruct (maybeSure_step r2 VALUE_SURE_BY_COLUMN x (mkGPos x y) v cnt s0 s1
              Hp Hv Hcnt H2 Hstep1 Hon1) as (s2 & F2 & Hstep2 & Hon2).
  rewrite F2. simpl.
  destruct (chunkUnique_ok (board s2) x y v Hx Hy Hv) as (r3 & E3). rewrite E3. simpl.
  destruct (maybeSure_step r3 VALUE_SURE_BY_CHUNK (x / 3 + 3 * (y / 3))
              (mkGPos x y) v cnt s0 s2 Hp Hv Hcnt H2 Hstep2 Hon2)
    as (s3 & F3 & Hstep3 & _).
  exists s3. split; [exact F3 | exact Hstep3].
Qed.

Lemma simplifyCell_step (selfPos : GPos) (s : PassState L) :
  validPos selfPos -> wfBoard (board s) ->
  exists ok s', simplifyCell ev selfPos s = Ok (ok, s')
                /\ passStep s s'
                /\ (ok = true -> 1 <= cellCount (board s) selfPos).
Proof.
  intros Hp Hwf. unfold simplifyCell.
  rewrite getCellInfoAt_spec by assumption. cbn [bind fst snd].
  pose proof (cellCount_range (board s) selfPos) as Hr.
  destruct (Z.eqb_spec (cellCount (board s) selfPos) 0) as [E0|N0].
  { eexists _, _. split; [reflexivity|]. split; [apply notify_step, Hwf|].
    discriminate. }
  match goal with
  | |- exists ok s', bind ?naked _ = _ /\ _ =>
      assert (Hnaked : exists s1, naked = Ok s1 /\ passStep s s1)
  end.
  { destruct (Z.eqb_spec (cellCount (board s) selfPos) 1) as [E1|N1].
    - destruct (onlyValue_spec (board s) selfPos E1) as (Hv & _).
      destruct Hp as [Hx Hy].
      destruct (eliminateRow_step ev (getX selfPos) (getY selfPos) _ s Hy Hv Hwf)
        as (s1 & F1 & S1).
      destruct (eliminateColumn_step ev (getX selfPos) (getY selfPos) _ s1 Hx Hv
                  (proj1 S1)) as (s2 & F2 & S2).
      destruct (eliminateChunk_step ev (getX selfPos) (getY selfPos) _ s2 Hx Hy Hv
                  (proj1 S2)) as (s3 & F3 & S3).
      exists s3. rewrite F1. cbn [bind]. rewrite F2. cbn [bind].
      split; [exact F3|].
      eapply passStep_trans; [|exact S3].
      eapply passStep_trans; eassumption.
    - exists s. split; [reflexivity | apply passStep_refl, Hwf]. }
  destruct Hnaked as (s1 & F1 & S1). rewrite F1. cbn [bind].
  rewrite getCellInfoAt_spec by assumption. cbn [bind fst snd].
  destruct (Z.eqb_spec (cellCount (board s1) selfPos) 0) as [E0'|N0'].
  { eexists _, _. split; [reflexivity|]. split; [|discriminate].
    eapply passStep_trans; [exact S1 | apply notify_step, (proj1 S1)]. }
  destruct (Z.eqb_spec (cellCount (board s1) selfPos) 1) as [E1'|N1'].
  { eexists _, _. split; [reflexivity|]. split; [exact S1 | lia]. }
  pose proof (cellCount_range (board s1) selfPos) as Hr1.
  destruct selfPos as [x y]. cbn [getX getY] in *.
  assert (Hloop : exists s2,
             foldM (hiddenSingleAt ev x y (cellCount (board s1) (mkGPos x y)))
                   values s1 = Ok s2 /\ passStep s1 s2).
  { apply (foldM_invariant (fun s' => passStep s1 s') validValue);
      [intros v; apply values_valid | | apply passStep_refl, (proj1 S1)].
    intros s' v Hv Hs'. apply hiddenSingleAt_step; auto. lia. }
  destruct Hloop as (s2 & F2 & S2). rewrite F2. cbn [bind].
  eexists _, _. split; [reflexivity|].
  split; [eapply passStep_trans; eassumption | lia].
Qed.

Lemma simplifyCells_step (cells : list GPos) :
  (forall c, In c cells -> validPos c) ->
  forall s, wfBoard (board s) ->
  exists ok s', simplifyCells ev cells s = Ok (ok, s')
                /\ passStep s s'
                /\ (ok = true ->
                    forall c, In c cells -> 1 <= cellCount (board s) c).
Proof.
  induction cells as [|c cells IH]; intros Hcells s Hwf; simpl.
  - exists true, s. split; [reflexivity|].
    split; [apply passStep_refl, Hwf | intros _ c []].
  - destruct (simplifyCell_step c s (Hcells c (or_introl eq_refl)) Hwf)
      as (ok & s1 & E1 & S1 & Hc).
    rewrite E1. simpl. destruct ok.
    + destruct (IH (fun q Hq => Hcells q (or_intror Hq)) s1 (proj1 S1))
        as (ok' & s2 & E2 & S2 & Hrest).
      exists ok', s2. split; [exact E2|].
      split; [eapply passStep_trans; eassumption|].
      intros Hok q [<-|Hq]; [auto|].
      pose proof (cellCount_mono _ _ q (proj1 (proj2 S1))
                    (Hcells q (or_intror Hq))).
      specialize (Hrest Hok q Hq). lia.
    + exists false, s1. split; [reflexivity|]. split; [exact S1 | discriminate].
Qed.

(** A pass on any board: no exception, flags only cleared, a non-zero
    count means fewer flags, and a pass that returns [true] started with
    no empty cell. *)
Lemma simplify_step (b : list Z) (l : L) :
  wfBoard b ->
  exists ok s', simplify ev b l = Ok (ok, s')
                /\ wfBoard (board s')
                /\ subBoard (board s') b
                /\ (eliminations s' <> 0 -> flagCount (board s') < flagCount b)
                /\ (ok = true -> 81 <= flagCount b).
Proof.
  intros Hwf. unfold simplify.
  destruct (simplifyCells_step allCells (fun c => proj1 (allCells_valid c))
              (mkPass b 0 l) Hwf) as (ok & s' & E & (Hwf' & Hsub & Hcase) & Hall).
  exists ok, s'. simpl in *. repeat split; auto.
  - intros Hne. destruct Hcase as [[_ He]|Hlt]; [contradiction | exact Hlt].
  - intros Hok. apply flagCount_all_nonempty. auto.
Qed.

End HiddenSingle.

(** ** The fixpoint loop *)

Section LoopProperties.
Context {L : Type}.
Variable sl : Z -> Z -> Z -> list Z -> L -> L.
Variable el : SimplificationCause -> GPos -> Z -> Z -> list Z -> L -> L.

(** A pass that does not end the loop needs 81 set flags and clears at
    least one, so [flagCount b - 79] passes are always enough. *)
Lemma simplifyLoop_terminates (fuel : nat) :
  forall (b : list Z) (total index : Z) (n : nat) (l : L),
    wfBoard b -> (1 <= fuel)%nat -> flagCount b <= Z.of_nat fuel + 79 ->
    exists r,
      simplifyLoop sl el fuel b total index n l = Some (Ok r)
      /\ wfBoard (loopBoard r)
      /\ subBoard (loopBoard r) b
      /\ (n < passes r <= n + fuel)%nat.
Proof.
  induction fuel as [|fuel IH]; intros b total index n l Hwf Hfuel Hcount; [lia|].
  destruct (simplify_step el b l Hwf) as (ok & s' & E & Hwf' & Hsub & Hdec & Hfull).
  simpl. rewrite E. destruct ok; simpl.
  - destruct (Z.eqb_spec (eliminations s') 0) as [E0|N0].
    + eexists. split; [reflexivity|]. simpl. repeat split; auto; lia.
    + specialize (Hdec N0). specialize (Hfull eq_refl).
      destruct (IH (board s') (wrap64 (total + eliminations s'))
                  (wrap32 (index + 1)) (S n)
                  (sl index (eliminations s') (wrap64 (total + eliminations s'))
                      (board s') (obs s')) Hwf')
        as (r & Er & Hwfr & Hsubr & Hn); [lia | lia |].
      exists r. split; [exact Er|]. split; [exact Hwfr|].
      split; [eapply subBoard_trans; eassumption | lia].
  - eexists. split; [reflexivity|]. simpl. repeat split; auto; lia.
Qed.

End LoopProperties.

(** C2. On every board: a pass of [simplify] throws nothing and never turns
    a flag on; a pass whose elimination count is not zero leaves strictly
    fewer set flags; the number of set flags lies between 0 and 729; and
    [simplifyToTheEnd] ends, with a fixpoint or a contradiction, after at
    most 729 passes. *)
Theorem simplifyToTheEnd_terminates {L : Type}
    (sl : Z -> Z -> Z -> list Z -> L -> L)
    (el : SimplificationCause -> GPos -> Z -> Z -> list Z -> L -> L)
    (b : list Z) (l : L) :
  wfBoard b ->
  (exists ok s',
      simplify el b l = Ok (ok, s')
      /\ subBoard (board s') b
      /\ (eliminations s' <> 0 -> flagCount (board s') < flagCount b))
  /\ 0 <= flagCount b <= 729
  /\ (exists r,
        simplifyToTheEnd sl el 729 b l = Some (Ok r)
        /\ (1 <= passes r <= 729)%nat
        /\ subBoard (loopBoard r) b).
Proof.
  intros Hwf. split; [|split].
  - destruct (simplify_step el b l Hwf) as (ok & s' & E & _ & Hsub & Hdec & _).
    exists ok, s'. auto.
  - apply flagCount_range.
  - pose proof (flagCount_range b).
    destruct (simplifyLoop_terminates sl el 729 b 0 0 0%nat l Hwf)
      as (r & E & _ & Hsub & Hn); [lia | lia |].
    exists r. split; [exact E|]. split; [lia | exact Hsub].
Qed.

Lemma simplifyToTheEnd_terminates_witness :
  (exists ok s',
      simplify (fun _ _ _ _ _ (u : unit) => u) newBoard tt = Ok (ok, s')
      /\ subBoard (board s') newBoard
      /\ (eliminations s' <> 0 -> flagCount (board s') < flagCount newBoard))
  /\ 0 <= flagCount newBoard <= 729
  /\ (exists r,
        simplifyToTheEnd (fun _ _ _ _ (u : unit) => u)
          (fun _ _ _ _ _ (u : unit) => u) 729 newBoard tt = Some (Ok r)
        /\ (1 <= passes r <= 729)%nat
        /\ subBoard (loopBoard r) newBoard).
Proof.
  apply (simplifyToTheEnd_terminates (fun _ _ _ _ (u : unit) => u)
           (fun _ _ _ _ _ (u : unit) => u) newBoard tt).
  reflexivity.
Defined.

(** ** The observers do not steer the solver *)

Lemma bind_Ok {A B : Type} (a : A) (k : A -> outcome B) : bind (Ok a) k = k a.
Proof. reflexivity. Qed.

Lemma foldM_erase {A S S' : Type} (e : S -> S')
    (f : S -> A -> outcome S) (f' : S' -> A -> outcome S') (l : list A) :
  (forall s a, omap e (f s a) = f' (e s) a) ->
  forall s, omap e (foldM f l s) = foldM f' l (e s).
Proof.
  intros H. induction l as [|a l IH]; intros s; simpl; [reflexivity|].
  rewrite <- H. destruct (f s a); simpl; auto.
Qed.

Lemma bind_erase {A A' B B' : Type} (e : A -> A') (e2 : B -> B')
    (c : outcome A) (c' : outcome A') (k : A -> outcome B) (k' : A' -> outcome B') :
  omap e c = c' -> (forall a, omap e2 (k a) = k' (e a)) ->
  omap e2 (bind c k) = bind c' k'.
Proof. intros <- H. destruct c; simpl; auto. Qed.

Section Erasure.
Context {L : Type}.
Variable ev : SimplificationCause -> GPos -> Z -> Z -> list Z -> L -> L.

Lemma eliminateAt_erase (cause : SimplificationCause) (by_ : Z) (peer : GPos)
    (onlyVal : Z) (s : PassState L) :
  omap erasePass (eliminateAt ev cause by_ peer onlyVal s)
  = eliminateAt silentEvent cause by_ peer onlyVal (erasePass s).
Proof.
  unfold eliminateAt. simpl.
  destruct (isPossibleAt (board s) peer onlyVal) as [[|]|]; simpl; try reflexivity.
  destruct (setPossibleAt (board s) peer onlyVal false) as [[?|?] ?]; reflexivity.
Qed.

Lemma eliminateRow_erase (x y onlyVal : Z) (s : PassState L) :
  omap erasePass (eliminateRow ev x y onlyVal s)
  = eliminateRow silentEvent x y onlyVal (erasePass s).
Proof.
  unfold eliminateRow. apply foldM_erase. intros s1 cx.
  destruct (cx =? x); [reflexivity | apply eliminateAt_erase].
Qed.

Lemma eliminateColumn_erase (x y onlyVal : Z) (s : PassState L) :
  omap erasePass (eliminateColumn ev x y onlyVal s)
  = eliminateColumn silentEvent x y onlyVal (erasePass s).
Proof.
  unfold eliminateColumn. apply foldM_erase. intros s1 cy.
  destruct (cy =? y); [reflexivity | apply eliminateAt_erase].
Qed.

Lemma eliminateChunk_erase (x y onlyVal : Z) (s : PassState L) :
  omap erasePass (eliminateChunk ev x y onlyVal s)
  = eliminateChunk silentEvent x y onlyVal (erasePass s).
Proof.
  unfold eliminateChunk. apply foldM_erase. intros s1 by_.
  apply foldM_erase. intros s2 bx.
  destruct (samePos bx by_ x y); [reflexivity | apply eliminateAt_erase].
Qed.

Lemma valueSure_erase (cause : SimplificationCause) (by_ : Z) (selfPos : GPos)
    (v cnt : Z) (s : PassState L) :
  omap erasePass (valueSure ev cause by_ selfPos v cnt s)
  = valueSure silentEvent cause by_ selfPos v cnt (erasePass s).
Proof.
  unfold valueSure. simpl.
  destruct (makeSureAt (board s) selfPos v false); reflexivity.
Qed.

Lemma maybeSure_erase (success : bool) (cause : SimplificationCause) (by_ : Z)
    (selfPos : GPos) (v cnt : Z) (s : PassState L) :
  omap erasePass
    (if success then valueSure ev cause by_ selfPos v cnt s else Ok s)
  = (if success then valueSure silentEvent cause by_ selfPos v cnt (erasePass s)
     else Ok (erasePass s)).
Proof. destruct success; [apply valueSure_erase | reflexivity]. Qed.

Lemma hiddenSingleAt_erase (x y cnt : Z) (s : PassState L) (v : Z) :
  omap erasePass (hiddenSingleAt ev x y cnt s v)
  = hiddenSingleAt silentEvent x y cnt (erasePass s) v.
Proof.
  unfold hiddenSingleAt. cbn [erasePass board].
  destruct (isPossibleAt (board s) (mkGPos x y) v) as [[|]|];
    cbn [bind negb]; try reflexivity.
  destruct (rowUnique (board s) x y v) as [r1|]; cbn [bind]; [|reflexivity].
  apply (bind_erase erasePass erasePass); [apply maybeSure_erase|].
  intros s1. cbn [erasePass board].
  destruct (colUnique (board s1) x y v) as [r2|]; cbn [bind]; [|reflexivity].
  apply (bind_erase erasePass erasePass); [apply maybeSure_erase|].
  intros s2. cbn [erasePass board].
  destruct (chunkUnique (board s2) x y v) as [r3|]; cbn [bind]; [|reflexivity].
  apply maybeSure_erase.
Qed.

Lemma simplifyCell_erase (selfPos : GPos) (s : PassState L) :
  omap eraseCell (simplifyCell ev selfPos s)
  = simplifyCell silentEvent selfPos (erasePass s).
Proof.
  unfold simplifyCell. cbn [erasePass board].
  destruct (getCellInfoAt (board s) selfPos) as [info|]; cbn [bind]; [|reflexivity].
  destruct (snd info =? 0); [reflexivity|].
  apply (bind_erase erasePass eraseCell).
  - destruct (snd info =? 1); [|reflexivity].
    apply (bind_erase erasePass erasePass); [apply eliminateRow_erase|].
    intros s1.
    apply (bind_erase erasePass erasePass); [apply eliminateColumn_erase|].
    intros s2. apply eliminateChunk_erase.
  - intros s1. cbn [erasePass board].
    destruct (getCellInfoAt (board s1) selfPos) as [info1|]; cbn [bind]; [|reflexivity].
    destruct (snd info1 =? 0); [reflexivity|].
    destruct (snd info1 =? 1); [reflexivity|].
    apply (bind_erase erasePass eraseCell).
    + apply foldM_erase. intros s2 v. apply hiddenSingleAt_erase.
    + reflexivity.
Qed.

Lemma simplifyCells_erase (cells : list GPos) (s : PassState L) :
  omap eraseCell (simplifyCells ev cells s)
  = simplifyCells silentEvent cells (erasePass s).
Proof.
  revert s. induction cells as [|c cells IH]; intros s; simpl; [reflexivity|].
  rewrite <- simplifyCell_erase.
  destruct (simplifyCell ev c s) as [[[|] s1]|]; simpl; auto.
Qed.

Lemma simplify_erase (b : list Z) (l : L) :
  omap eraseCell (simplify ev b l) = simplify silentEvent b tt.
Proof. unfold simplify. apply simplifyCells_erase. Qed.

End Erasure.

Section SolverErasure.
Context {L : Type}.
Variable al : list Z -> list bool -> GPos -> list Z -> L -> L.
Variable sl : list Z -> Z -> Z -> Z -> bool -> list bool -> list Z -> L -> L.
Variable el : list Z -> SimplificationCause -> GPos -> Z -> Z -> list Z -> L -> L.

Lemma simplifyLoop_erase
    (sl1 : Z -> Z -> Z -> list Z -> L -> L)
    (el1 : SimplificationCause -> GPos -> Z -> Z -> list Z -> L -> L)
    (fuel : nat) :
  forall (b : list Z) (total index : Z) (n : nat) (l : L),
    option_map (omap eraseLoop) (simplifyLoop sl1 el1 fuel b total index n l)
    = simplifyLoop silentPass silentEvent fuel b total index n tt.
Proof.
  induction fuel as [|fuel IH]; intros b total index n l; simpl; [reflexivity|].
  rewrite <- (simplify_erase el1 b l).
  destruct (simplify el1 b l) as [[ok s']|]; simpl; [|reflexivity].
  destruct ok; simpl; [|reflexivity].
  destruct (eliminations s' =? 0); [reflexivity|]. apply IH.
Qed.

Variable rec : SolverState L -> option (outcome (bool * SolverState L)).
Variable rec' : SolverState unit -> option (outcome (bool * SolverState unit)).
Hypothesis rec_erase : forall st, solverOutcome (rec st) = rec' (eraseSolver st).

Lemma tryBranch_erase (pos : GPos) (v branchIndex : Z) (st : SolverState L) :
  solverOutcome (tryBranch al rec pos v branchIndex st)
  = tryBranch quietAssign rec' pos v branchIndex (eraseSolver st).
Proof using rec_erase.
  unfold tryBranch, eraseSolver. cbn [sboard spath sassigned sobs].
  destruct (makeSureAt (sboard st) pos v false) as [b1|]; [|reflexivity].
  set (st1 := mkSolver b1 (spath st ++ [branchIndex]) (sassigned st)
                (al (spath st ++ [branchIndex]) (sassigned st) pos b1 (sobs st))).
  change (mkSolver b1 (spath st ++ [branchIndex]) (sassigned st)
            (quietAssign (spath st ++ [branchIndex]) (sassigned st) pos b1 tt))
    with (eraseSolver st1).
  rewrite <- (rec_erase st1).
  destruct (rec st1) as [[[[|] st']|]|]; reflexivity.
Qed.

Lemma tryCandidates_erase (pos : GPos) (candidates : list Z) :
  forall (branchIndex : Z) (st : SolverState L),
    solverOutcome (tryCandidates al rec pos candidates branchIndex st)
    = tryCandidates quietAssign rec' pos candidates branchIndex (eraseSolver st).
Proof using rec_erase.
  induction candidates as [|v rest IH]; intros branchIndex st; simpl;
    [reflexivity|].
  rewrite <- tryBranch_erase.
  destruct (tryBranch al rec pos v branchIndex st) as [[[[|] st']|]|];
    simpl; auto.
Qed.

Lemma branchOn_erase (st : SolverState L) :
  solverOutcome (branchOn al rec st) = branchOn quietAssign rec' (eraseSolver st).
Proof using rec_erase.
  unfold branchOn, eraseSolver. cbn [sboard spath sassigned sobs].
  destruct (isSolved (sboard st)) as [[|]|]; try reflexivity.
  destruct (findMRVCell (sboard st)) as [[pos cnt]|]; [|reflexivity].
  destruct (cnt =? 0); [reflexivity|].
  destruct (getCandiatesAt (sboard st) pos) as [candidates|]; [|reflexivity].
  match goal with
  | |- solverOutcome (match tryCandidates al rec pos candidates 0 ?m with _ => _ end) = _ =>
      pose proof (tryCandidates_erase pos candidates 0 m) as H;
      unfold eraseSolver in H; cbn [sboard spath sassigned sobs] in H;
      rewrite <- H;
      destruct (tryCandidates al rec pos candidates 0 m) as [[[[|] st']|]|]
  end; reflexivity.
Qed.

End SolverErasure.

Lemma dfsSolve_erase {L : Type}
    (al : list Z -> list bool -> GPos -> list Z -> L -> L)
    (sl : list Z -> Z -> Z -> Z -> bool -> list bool -> list Z -> L -> L)
    (el : list Z -> SimplificationCause -> GPos -> Z -> Z -> list Z -> L -> L)
    (fuel : nat) :
  forall (isFirst : bool) (st : SolverState L),
    solverOutcome (dfsSolve al sl el fuel isFirst st)
    = dfsSolve quietAssign quietPass quietEliminate fuel isFirst (eraseSolver st).
Proof.
  induction fuel as [|fuel IH]; intros isFirst st; [reflexivity|].
  cbn [dfsSolve]. unfold simplifyToTheEnd, eraseSolver.
  cbn [sboard spath sassigned sobs].
  change (simplifyLoop
            (fun i elim elimSum =>
               quietPass (spath st) i elim elimSum isFirst (sassigned st))
            (quietEliminate (spath st)))
    with (simplifyLoop (@silentPass unit) (@silentEvent unit)).
  rewrite <- (simplifyLoop_erase
                (fun i elim elimSum =>
                   sl (spath st) i elim elimSum isFirst (sassigned st))
                (el (spath st)) (S fuel) (sboard st) 0 0 0%nat (sobs st)).
  destruct (simplifyLoop _ _ (S fuel) (sboard st) 0 0 0%nat (sobs st))
    as [[r|]|]; try reflexivity.
  cbn [option_map omap eraseLoop stable loopBoard loopObs].
  destruct (stable r); cbn [negb]; [|reflexivity].
  apply (branchOn_erase al (dfsSolve al sl el fuel false)
           (dfsSolve quietAssign quietPass quietEliminate fuel false)
           (IH false)).
Qed.

(** ** The search ends *)

(** Committing a candidate of a cell that has at least two. *)
Lemma makeSureAt_decreases (b : list Z) (p : GPos) (v : Z) :
  wfBoard b -> validPos p -> validValue v ->
  flag b p v = true -> 2 <= cellCount b p ->
  exists b', makeSureAt b p v false = Ok b'
             /\ wfBoard b' /\ subBoard b' b /\ flagCount b' < flagCount b.
Proof.
  intros Hwf Hp Hv Hon H2.
  destruct (makeSureAt_spec b p v false Hwf Hp) as (b' & E & Hwf' & Hself & Hoth).
  exists b'. split; [exact E|]. split; [exact Hwf'|].
  assert (Hsub : subBoard b' b).
  { apply subBoard_flag. intros q w Hq Hw Hset.
    destruct (decide (q = p)) as [->|Hne].
    - rewrite Hself in Hset by assumption.
      destruct (Z.eqb_spec w v) as [->|]; [assumption | discriminate].
    - rewrite <- Hoth; assumption. }
  split; [exact Hsub|].
  apply (flagCount_strict_cell b' b p); auto.
  destruct (cellCount_single b' p v Hv) as [Hone _].
  { intros w Hw Hne. rewrite Hself by assumption.
    destruct (Z.eqb_spec w v); [contradiction | reflexivity]. }
  rewrite Hone. destruct (flag b' p v); simpl; lia.
Qed.

Lemma scanCounts_spec (stop : Z -> bool) (b : list Z) (cells : list GPos) :
  (forall c, In c cells -> validPos c) ->
  scanCounts stop b cells = Ok (existsb (fun p => stop (cellCount b p)) cells).
Proof.
  induction cells as [|c cells IH]; intros Hcells; simpl; [reflexivity|].
  rewrite getCellInfoAt_spec by (apply Hcells; left; reflexivity). simpl.
  destruct (stop (cellCount b c)); [reflexivity|].
  apply IH. intros; apply Hcells; right; assumption.
Qed.

Lemma isSolved_spec (b : list Z) :
  isSolved b = Ok (negb (existsb (fun p => negb (cellCount b p =? 1)) allCells)).
Proof.
  unfold isSolved. rewrite scanCounts_spec; [reflexivity|].
  intros c. apply allCells_valid.
Qed.

Lemma candidatesLoop_spec (b : list Z) (p : GPos) (vs acc : list Z) :
  validPos p -> (forall v, In v vs -> validValue v) ->
  foldM (fun (acc : list Z) v =>
           let* q := isPossibleAt b p v in
           if q then Ok (acc ++ [v]) else Ok acc) vs acc
  = Ok (acc ++ List.filter (flag b p) vs).
Proof.
  intros Hp. revert acc. induction vs as [|v vs IH]; intros acc Hvs;
    cbn [foldM List.filter].
  - rewrite app_nil_r. reflexivity.
  - assert (Hv : validValue v) by (apply Hvs; left; reflexivity).
    assert (Hrest : forall w, In w vs -> validValue w)
      by (intros; apply Hvs; right; assumption).
    rewrite isPossibleAt_flag, bind_Ok by assumption.
    destruct (flag b p v); rewrite bind_Ok, (IH _ Hrest);
      [rewrite <- app_assoc|]; reflexivity.
Qed.

Lemma getCandiatesAt_spec (b : list Z) (p : GPos) :
  validPos p -> getCandiatesAt b p = Ok (List.filter (flag b p) values).
Proof.
  intros Hp. unfold getCandiatesAt.
  rewrite candidatesLoop_spec by (auto; apply values_valid). reflexivity.
Qed.

Lemma existsb_false {A : Type} (f : A -> bool) (l : list A) :
  existsb f l = false -> forall x, In x l -> f x = false.
Proof.
  intros H x Hx. destruct (f x) eqn:E; [|reflexivity].
  rewrite (proj2 (existsb_exists f l)) in H by eauto. discriminate.
Qed.

(** When the board is not solved [findMRVCell] does not throw: it finds an
    empty cell, or a cell with at least two candidates. *)
Lemma findMRVCell_unsolved (b : list Z) :
  isSolved b = Ok false ->
  exists p c, findMRVCell b = Ok (p, c) /\ validPos p
              /\ (c = 0 \/ (cellCount b p = c /\ 2 <= c)).
Proof.
  rewrite isSolved_spec. intros Hsolved.
  destruct (existsb (fun p => negb (cellCount b p =? 1)) allCells) eqn:Hex;
    [clear Hsolved | discriminate Hsolved].
  apply existsb_exists in Hex as (p & Hp & Hne).
  apply allCells_valid in Hp. apply negb_true_iff, Z.eqb_neq in Hne.
  pose proof (findMRVCell_empty b) as Hzero.
  pose proof (fun H q => findMRVCell_least b q H) as Hmin.
  destruct (existsb (fun q => cellCount b q =? 0) allCells) eqn:Hz.
  - apply existsb_exists in Hz as (q & Hq & Hq0).
    apply allCells_valid in Hq. apply Z.eqb_eq in Hq0.
    rewrite <- countAt_cellCount in Hq0 by assumption.
    destruct (Hzero q Hq Hq0) as (p0 & E & Hp0 & _).
    exists p0, 0. split; [exact E|]. split; [exact Hp0 | left; reflexivity].
  - pose proof (existsb_false _ _ Hz) as Hall.
    assert (Hnz : forall q, validPos q -> countAt b q <> 0).
    { intros q Hq. rewrite countAt_cellCount by assumption.
      apply Z.eqb_neq, Hall, allCells_valid, Hq. }
    pose proof (cellCount_range b p). pose proof (Hnz p Hp) as Hp0.
    rewrite countAt_cellCount in Hp0 by assumption.
    destruct (Hmin Hnz p Hp) as (p0 & c & E & Hp0' & Hc & Hrange & _).
    { rewrite countAt_cellCount by assumption. lia. }
    exists p0, c. split; [exact E|]. split; [exact Hp0'|]. right.
    rewrite <- countAt_cellCount by assumption. split; [exact Hc | lia].
Qed.

Section SolverTotal.
Context {L : Type}.
Variable al : list Z -> list bool -> GPos -> list Z -> L -> L.
Variable sl : list Z -> Z -> Z -> Z -> bool -> list bool -> list Z -> L -> L.
Variable el : list Z -> SimplificationCause -> GPos -> Z -> Z -> list Z -> L -> L.

Variable rec : SolverState L -> option (outcome (bool * SolverState L)).
Variable bound : Z.
Hypothesis rec_total :
  forall st, wfBoard (sboard st) -> flagCount (sboard st) < bound ->
             exists res st', rec st = Some (Ok (res, st')).

(** A branch on a candidate of a cell with two or more: it returns, and
    after a failure the board is the one it started from. *)
Lemma tryBranch_total (pos : GPos) (v branchIndex : Z) (st : SolverState L) :
  wfBoard (sboard st) -> validPos pos -> validValue v ->
  flagCount (sboard st) <= bound -> 2 <= cellCount (sboard st) pos ->
  flag (sboard st) pos v = true ->
  exists res st',
    tryBranch al rec pos v branchIndex st = Some (Ok (res, st'))
    /\ (res = false -> sboard st' = sboard st).
Proof using rec_total.
  intros Hwf Hp Hv Hb H2 Hon. unfold tryBranch.
  destruct (makeSureAt_decreases (sboard st) pos v Hwf Hp Hv Hon H2)
    as (b1 & E & Hwf1 & _ & Hlt).
  rewrite E.
  destruct (rec_total (mkSolver b1 (spath st ++ [branchIndex]) (sassigned st)
                         (al (spath st ++ [branchIndex]) (sassigned st) pos b1
                             (sobs st))))
    as (res & st' & Er); [exact Hwf1 | simpl; lia |].
  rewrite Er. destruct res; eexists _, _; split; try reflexivity.
  discriminate.
Qed.

Lemma tryCandidates_total (pos : GPos) (candidates : list Z) :
  forall (branchIndex : Z) (st : SolverState L),
    wfBoard (sboard st) -> validPos pos ->
    flagCount (sboard st) <= bound -> 2 <= cellCount (sboard st) pos ->
    (forall v, In v candidates ->
               validValue v /\ flag (sboard st) pos v = true) ->
    exists res st',
      tryCandidates al rec pos candidates branchIndex st = Some (Ok (res, st'))
      /\ (res = false -> sboard st' = sboard st).
Proof using rec_total.
  induction candidates as [|v rest IH]; intros bi st Hwf Hp Hb H2 Hc; simpl.
  - eexists _, _. split; reflexivity.
  - destruct (Hc v (or_introl eq_refl)) as [Hv Hon].
    destruct (tryBranch_total pos v bi st Hwf Hp Hv Hb H2 Hon)
      as (res & st1 & E1 & Hback).
    rewrite E1. destruct res.
    + eexists _, _. split; [reflexivity | discriminate].
    + specialize (Hback eq_refl).
      destruct (IH (wrap32 (bi + 1)) st1) as (res & st2 & E2 & Hback2);
        try (rewrite Hback; assumption); try assumption.
      { intros w Hw. rewrite Hback. apply Hc. right. exact Hw. }
      exists res, st2. split; [exact E2|]. intros Hres.
      rewrite (Hback2 Hres). exact Hback.
Qed.

Lemma branchOn_total (st : SolverState L) :
  wfBoard (sboard st) -> flagCount (sboard st) <= bound ->
  exists res st', branchOn al rec st = Some (Ok (res, st')).
Proof using rec_total.
  intros Hwf Hb. unfold branchOn.
  rewrite isSolved_spec.
  destruct (negb (existsb _ allCells)) eqn:Hs; [eauto|].
  assert (Hun : isSolved (sboard st) = Ok false)
    by (rewrite isSolved_spec, Hs; reflexivity).
  destruct (findMRVCell_unsolved (sboard st) Hun) as (pos & cnt & E & Hp & Hcnt).
  rewrite E. destruct (Z.eqb_spec cnt 0) as [->|Hne]; [eauto|].
  destruct Hcnt as [->|[Hc H2]]; [contradiction|].
  rewrite getCandiatesAt_spec by assumption.
  match goal with
  | |- context [tryCandidates al rec pos ?cs 0 ?m] =>
      destruct (tryCandidates_total pos cs 0 m) as (res & st' & Et & _)
  end; cbn [sboard]; auto; try lia.
  - intros v Hv. apply List.filter_In in Hv as [Hv Hon].
    split; [apply values_valid, Hv | exact Hon].
  - rewrite Et. destruct res; eauto.
Qed.

End SolverTotal.

(** With more fuel than set flags [dfsSolve] returns, and returns a boolean:
    no exception escapes it. *)
Lemma dfsSolve_total {L : Type}
    (al : list Z -> list bool -> GPos -> list Z -> L -> L)
    (sl : list Z -> Z -> Z -> Z -> bool -> list bool -> list Z -> L -> L)
    (el : list Z -> SimplificationCause -> GPos -> Z -> Z -> list Z -> L -> L)
    (fuel : nat) :
  forall (isFirst : bool) (st : SolverState L),
    wfBoard (sboard st) -> flagCount (sboard st) < Z.of_nat fuel ->
    exists res st', dfsSolve al sl el fuel isFirst st = Some (Ok (res, st')).
Proof.
  induction fuel as [|fuel IH]; intros isFirst st Hwf Hfuel.
  - pose proof (flagCount_range (sboard st)). lia.
  - cbn [dfsSolve]. unfold simplifyToTheEnd.
    destruct (simplifyLoop_terminates
                (fun i elim elimSum =>
                   sl (spath st) i elim elimSum isFirst (sassigned st))
                (el (spath st)) (S fuel) (sboard st) 0 0 0%nat (sobs st) Hwf)
      as (r & E & Hwfr & Hsub & _); [lia | lia |].
    rewrite E. destruct (stable r); cbn [negb]; [|eauto].
    apply (branchOn_total al (dfsSolve al sl el fuel false) (Z.of_nat fuel)).
    + intros st2 Hwf2 Hlt. apply IH; assumption.
    + exact Hwfr.
    + pose proof (flagCount_mono _ _ Hsub). simpl. lia.
Qed.

(** ** Claims about the search *)

Lemma tryBranch_rollback {L : Type}
    (al : list Z -> list bool -> GPos -> list Z -> L -> L)
    (rec : SolverState L -> option (outcome (bool * SolverState L)))
    (pos : GPos) (v branchIndex : Z) (st st' : SolverState L) :
  tryBranch al rec pos v branchIndex st = Some (Ok (false, st')) ->
  exists b1 stRec,
    makeSureAt (sboard st) pos v false = Ok b1
    /\ rec (mkSolver b1 (spath st ++ [branchIndex]) (sassigned st)
              (al (spath st ++ [branchIndex]) (sassigned st) pos b1 (sobs st)))
       = Some (Ok (false, stRec))
    /\ sboard st' = copyData (sboard st).
Proof.
  unfold tryBranch. intros H.
  destruct (makeSureAt (sboard st) pos v false) as [b1|]; [|discriminate].
  destruct (rec _) as [[[[|] stRec]|]|] eqn:Er; try discriminate.
  injection H as <-. exists b1, stRec. auto.
Qed.

(** C3. In [dfsSolve], when the recursion on a candidate fails, the board
    the loop goes on with is word for word the snapshot taken before the
    trial assignment, whatever the recursion did to the board. *)
Theorem dfsSolve_rollback_exact {L : Type}
    (al : list Z -> list bool -> GPos -> list Z -> L -> L)
    (sl : list Z -> Z -> Z -> Z -> bool -> list bool -> list Z -> L -> L)
    (el : list Z -> SimplificationCause -> GPos -> Z -> Z -> list Z -> L -> L)
    (fuel : nat) (pos : GPos) (v branchIndex : Z) (st st' : SolverState L) :
  tryBranch al (dfsSolve al sl el fuel false) pos v branchIndex st
  = Some (Ok (false, st')) ->
  (exists b1 stRec,
      makeSureAt (sboard st) pos v false = Ok b1
      /\ dfsSolve al sl el fuel false
           (mkSolver b1 (spath st ++ [branchIndex]) (sassigned st)
              (al (spath st ++ [branchIndex]) (sassigned st) pos b1 (sobs st)))
         = Some (Ok (false, stRec)))
  /\ sboard st' = copyData (sboard st)
  /\ sboard st' = sboard st.
Proof.
  intros H. apply tryBranch_rollback in H as (b1 & stRec & E1 & E2 & E3).
  split; [exists b1, stRec; auto|]. split; [exact E3 | exact E3].
Qed.

Lemma dfsSolve_rollback_exact_witness :
  (exists b1 stRec,
      makeSureAt (sboard rollbackStart) (mkGPos 0 0) 1 false = Ok b1
      /\ dfsSolve quietAssign quietPass quietEliminate 2 false
           (mkSolver b1 (spath rollbackStart ++ [0]) (sassigned rollbackStart)
              (quietAssign (spath rollbackStart ++ [0]) (sassigned rollbackStart)
                 (mkGPos 0 0) b1 (sobs rollbackStart)))
         = Some (Ok (false, stRec)))
  /\ sboard rollbackAfter = copyData (sboard rollbackStart)
  /\ sboard rollbackAfter = sboard rollbackStart.
Proof.
  apply (dfsSolve_rollback_exact quietAssign quietPass quietEliminate 2
           (mkGPos 0 0) 1 0 rollbackStart rollbackAfter).
  vm_compute. reflexivity.
Defined.

(** ** Listeners that only look *)

Lemma readOnly_pure {L : Type} (f : list Z -> L -> outcome (list Z * L)) :
  readOnly f -> forall b l, f b l = Ok (b, pureOf f b l).
Proof.
  intros H b l. unfold pureOf. destruct (H b l) as (l' & ->). reflexivity.
Qed.

Lemma bind_ext {A B : Type} (c c' : outcome A) (k k' : A -> outcome B) :
  c = c' -> (forall a, k a = k' a) -> bind c k = bind c' k'.
Proof. intros <- H. destruct c; simpl; auto. Qed.

Lemma foldM_ext {S A : Type} (f g : S -> A -> outcome S) (l : list A) :
  (forall s a, f s a = g s a) -> forall s, foldM f l s = foldM g l s.
Proof.
  intros H. induction l as [|a l IH]; intros s; cbn [foldM]; [reflexivity|].
  apply bind_ext; [apply H | exact IH].
Qed.

(** With a listener that only looks, every step of a pass is the step of
    the pass above with what the listener does to its own state. *)
Section LookingPass.
Context {L : Type}.
Variable ev :
  SimplificationCause -> GPos -> Z -> Z -> list Z -> L -> outcome (list Z * L).
Hypothesis Hev : forall cause cell value by_, readOnly (ev cause cell value by_).

Lemma notify_looks (cause : SimplificationCause) (cell : GPos) (v by_ : Z)
    (st : PassState L) :
  Live.notify ev cause cell v by_ st = Ok (notify (eventOf ev) cause cell v by_ st).
Proof using Hev.
  unfold Live.notify, notify, eventOf.
  rewrite (readOnly_pure _ (Hev cause cell v by_)), bind_Ok. reflexivity.
Qed.

Lemma eliminateAt_looks (cause : SimplificationCause) (by_ : Z) (peer : GPos)
    (onlyVal : Z) (st : PassState L) :
  Live.eliminateAt ev cause by_ peer onlyVal st
  = eliminateAt (eventOf ev) cause by_ peer onlyVal st.
Proof using Hev.
  unfold Live.eliminateAt, eliminateAt.
  apply bind_ext; [reflexivity|]. intros [|]; [|reflexivity].
  apply bind_ext; [reflexivity|]. intros r. apply notify_looks.
Qed.

Lemma eliminateRow_looks (x y onlyVal : Z) (st : PassState L) :
  Live.eliminateRow ev x y onlyVal st = eliminateRow (eventOf ev) x y onlyVal st.
Proof using Hev.
  unfold Live.eliminateRow, eliminateRow. apply foldM_ext. intros s cx.
  destruct (cx =? x); [reflexivity | apply eliminateAt_looks].
Qed.

Lemma eliminateColumn_looks (x y onlyVal : Z) (st : PassState L) :
  Live.eliminateColumn ev x y onlyVal st
  = eliminateColumn (eventOf ev) x y onlyVal st.
Proof using Hev.
  unfold Live.eliminateColumn, eliminateColumn. apply foldM_ext. intros s cy.
  destruct (cy =? y); [reflexivity | apply eliminateAt_looks].
Qed.

Lemma eliminateChunk_looks (x y onlyVal : Z) (st : PassState L) :
  Live.eliminateChunk ev x y onlyVal st
  = eliminateChunk (eventOf ev) x y onlyVal st.
Proof using Hev.
  unfold Live.eliminateChunk, eliminateChunk. cbv zeta.
  apply foldM_ext. intros s by_. apply foldM_ext. intros s' bx.
  destruct (samePos bx by_ x y); [reflexivity | apply eliminateAt_looks].
Qed.

Lemma valueSure_looks (cause : SimplificationCause) (by_ : Z) (selfPos : GPos)
    (v cnt : Z) (st : PassState L) :
  Live.valueSure ev cause by_ selfPos v cnt st
  = valueSure (eventOf ev) cause by_ selfPos v cnt st.
Proof using Hev.
  unfold Live.valueSure, valueSure. cbv zeta.
  rewrite notify_looks, bind_Ok. reflexivity.
Qed.

Lemma maybeSure_looks (success : bool) (cause : SimplificationCause) (by_ : Z)
    (selfPos : GPos) (v cnt : Z) (st : PassState L) :
  (if success then Live.valueSure ev cause by_ selfPos v cnt st else Ok st)
  = (if success then valueSure (eventOf ev) cause by_ selfPos v cnt st
     else Ok st).
Proof using Hev. destruct success; [apply valueSure_looks | reflexivity]. Qed.

Lemma hiddenSingleAt_looks (x y cnt : Z) (st : PassState L) (v : Z) :
  Live.hiddenSingleAt ev x y cnt st v = hiddenSingleAt (eventOf ev) x y cnt st v.
Proof using Hev.
  unfold Live.hiddenSingleAt, hiddenSingleAt. cbv zeta.
  apply bind_ext; [reflexivity|]. intros p. destruct (negb p); [reflexivity|].
  apply bind_ext; [reflexivity|]. intros r1.
  apply bind_ext; [apply maybeSure_looks|]. intros s1.
  apply bind_ext; [reflexivity|]. intros r2.
  apply bind_ext; [apply maybeSure_looks|]. intros s2.
  apply bind_ext; [reflexivity|]. intros r3. apply maybeSure_looks.
Qed.

Lemma simplifyCell_looks (selfPos : GPos) (st : PassState L) :
  Live.simplifyCell ev selfPos st = simplifyCell (eventOf ev) selfPos st.
Proof using Hev.
  unfold Live.simplifyCell, simplifyCell. cbv zeta.
  apply bind_ext; [reflexivity|]. intros info.
  destruct (snd info =? 0); [rewrite notify_looks, bind_Ok; reflexivity|].
  apply bind_ext.
  { destruct (snd info =? 1); [|reflexivity].
    apply bind_ext; [apply eliminateRow_looks|]. intros sa.
    apply bind_ext; [apply eliminateColumn_looks|]. intros sb.
    apply eliminateChunk_looks. }
  intros s1. apply bind_ext; [reflexivity|]. intros info2.
  destruct (snd info2 =? 0); [rewrite notify_looks, bind_Ok; reflexivity|].
  destruct (snd info2 =? 1); [reflexivity|].
  apply bind_ext; [|reflexivity].
  apply foldM_ext. intros s v. apply hiddenSingleAt_looks.
Qed.

Lemma simplifyCells_looks (cells : list GPos) (st : PassState L) :
  Live.simplifyCells ev cells st = simplifyCells (eventOf ev) cells st.
Proof using Hev.
  revert st. induction cells as [|c cells IH]; intros st;
    cbn [Live.simplifyCells simplifyCells]; [reflexivity|].
  apply bind_ext; [apply simplifyCell_looks|]. intros r.
  destruct (fst r); [apply IH | reflexivity].
Qed.

Lemma simplify_looks (b : list Z) (l : L) :
  Live.simplify ev b l = simplify (eventOf ev) b l.
Proof using Hev. apply simplifyCells_looks. Qed.

End LookingPass.

Lemma simplifyLoop_looks {L : Type}
    (sl : Z -> Z -> Z -> list Z -> L -> outcome (list Z * L))
    (el : SimplificationCause -> GPos -> Z -> Z -> list Z -> L ->
          outcome (list Z * L))
    (fuel : nat) :
  (forall index eliminated eliminatedSum,
      readOnly (sl index eliminated eliminatedSum)) ->
  (forall cause cell value by_, readOnly (el cause cell value by_)) ->
  forall (b : list Z) (total index : Z) (n : nat) (l : L),
    Live.simplifyLoop sl el fuel b total index n l
    = simplifyLoop (passOf sl) (eventOf el) fuel b total index n l.
Proof.
  intros Hsl Hel. induction fuel as [|fuel IH]; intros b total index n l;
    cbn [Live.simplifyLoop simplifyLoop]; [reflexivity|].
  rewrite (simplify_looks el Hel).
  destruct (simplify (eventOf el) b l) as [[ok st]|]; [|reflexivity].
  cbv zeta.
  rewrite (readOnly_pure _ (Hsl index (eliminations st)
                              (wrap64 (total + eliminations st)))).
  destruct ok; cbn [negb]; [|reflexivity].
  destruct (eliminations st =? 0); [reflexivity | apply IH].
Qed.

Section LookingSolver.
Context {L : Type}.
Variable al : list Z -> list bool -> GPos -> list Z -> L -> outcome (list Z * L).
Hypothesis Hal : forall path assigned pos, readOnly (al path assigned pos).

Variable rec rec' : SolverState L -> option (outcome (bool * SolverState L)).
Hypothesis Hrec : forall st, rec st = rec' st.

Lemma tryBranch_looks (pos : GPos) (v branchIndex : Z) (st : SolverState L) :
  Live.tryBranch al rec pos v branchIndex st
  = tryBranch (assignOf al) rec' pos v branchIndex st.
Proof using Hal Hrec.
  unfold Live.tryBranch, tryBranch, assignOf.
  destruct (makeSureAt (sboard st) pos v false) as [b1|]; [|reflexivity].
  cbv zeta. rewrite (readOnly_pure _ (Hal _ _ _)), Hrec. reflexivity.
Qed.

Lemma tryCandidates_looks (pos : GPos) (candidates : list Z) :
  forall (branchIndex : Z) (st : SolverState L),
    Live.tryCandidates al rec pos candidates branchIndex st
    = tryCandidates (assignOf al) rec' pos candidates branchIndex st.
Proof using Hal Hrec.
  induction candidates as [|v rest IH]; intros bi st;
    cbn [Live.tryCandidates tryCandidates]; [reflexivity|].
  rewrite tryBranch_looks.
  destruct (tryBranch (assignOf al) rec' pos v bi st) as [[[[|] st1]|]|];
    auto.
Qed.

Lemma branchOn_looks (st : SolverState L) :
  Live.branchOn al rec st = branchOn (assignOf al) rec' st.
Proof using Hal Hrec.
  unfold Live.branchOn, branchOn.
  destruct (isSolved (sboard st)) as [[|]|]; try reflexivity.
  destruct (findMRVCell (sboard st)) as [[pos cnt]|]; [|reflexivity].
  destruct (cnt =? 0); [reflexivity|].
  destruct (getCandiatesAt (sboard st) pos) as [candidates|]; [|reflexivity].
  cbv zeta. rewrite tryCandidates_looks. reflexivity.
Qed.

End LookingSolver.

(** With listeners that only look, the search is the search above run with
    what the listeners do to their own state. *)
Lemma dfsSolve_looks {L : Type}
    (al : list Z -> list bool -> GPos -> list Z -> L -> outcome (list Z * L))
    (sl : list Z -> Z -> Z -> Z -> bool -> list bool -> list Z -> L ->
          outcome (list Z * L))
    (el : list Z -> SimplificationCause -> GPos -> Z -> Z -> list Z -> L ->
          outcome (list Z * L))
    (fuel : nat) :
  lookOnly al sl el ->
  forall (isFirst : bool) (st : SolverState L),
    Live.dfsSolve al sl el fuel isFirst st
    = dfsSolve (assignOf al) (solverPassOf sl) (solverEventOf el) fuel isFirst st.
Proof.
  intros (Hal & Hsl & Hel). induction fuel as [|fuel IH]; intros isFirst st;
    cbn [Live.dfsSolve dfsSolve]; [reflexivity|].
  unfold Live.simplifyToTheEnd, simplifyToTheEnd.
  rewrite simplifyLoop_looks by (intros; first [apply Hsl | apply Hel]).
  match goal with
  | |- match ?a with _ => _ end = match ?c with _ => _ end => change a with c
  end.
  destruct (simplifyLoop _ _ _ _ _ _ _ _) as [[r|]|]; try reflexivity.
  destruct (negb (stable r)); [reflexivity|].
  apply branchOn_looks; [exact Hal | exact (IH false)].
Qed.

(** C8, for listeners that only look.  In the search as the code runs it,
    where a listener may write to the board and may throw: whenever the
    three listeners of both runs return normally and leave the board as it
    is, [dfsSolve] from the same board, path and markers yields the same
    outcome (boolean result, board, path, markers) with either triple, the
    outcome of the run with the empty listeners; and with 730 units of fuel
    or more both runs do return a boolean, the same, with the same board. *)
Theorem dfsSolve_observers_irrelevant {L1 L2 : Type}
    (al1 : list Z -> list bool -> GPos -> list Z -> L1 -> outcome (list Z * L1))
    (sl1 : list Z -> Z -> Z -> Z -> bool -> list bool -> list Z -> L1 ->
           outcome (list Z * L1))
    (el1 : list Z -> SimplificationCause -> GPos -> Z -> Z -> list Z -> L1 ->
           outcome (list Z * L1))
    (al2 : list Z -> list bool -> GPos -> list Z -> L2 -> outcome (list Z * L2))
    (sl2 : list Z -> Z -> Z -> Z -> bool -> list bool -> list Z -> L2 ->
           outcome (list Z * L2))
    (el2 : list Z -> SimplificationCause -> GPos -> Z -> Z -> list Z -> L2 ->
           outcome (list Z * L2))
    (fuel : nat) (isFirst : bool)
    (b path : list Z) (assigned : list bool) (l1 : L1) (l2 : L2) :
  lookOnly al1 sl1 el1 -> lookOnly al2 sl2 el2 ->
  solverOutcome
    (Live.dfsSolve al1 sl1 el1 fuel isFirst (mkSolver b path assigned l1))
  = solverOutcome
      (Live.dfsSolve al2 sl2 el2 fuel isFirst (mkSolver b path assigned l2))
  /\ solverOutcome
       (Live.dfsSolve al1 sl1 el1 fuel isFirst (mkSolver b path assigned l1))
     = Live.dfsSolve Live.quietAssign Live.quietPass Live.quietEliminate fuel
         isFirst (mkSolver b path assigned tt)
  /\ (wfBoard b -> (730 <= fuel)%nat ->
      exists res st1 st2,
        Live.dfsSolve al1 sl1 el1 fuel isFirst (mkSolver b path assigned l1)
        = Some (Ok (res, st1))
        /\ Live.dfsSolve al2 sl2 el2 fuel isFirst (mkSolver b path assigned l2)
           = Some (Ok (res, st2))
        /\ sboard st1 = sboard st2).
Proof.
  intros Hlook1 Hlook2.
  assert (Hquiet : lookOnly Live.quietAssign Live.quietPass Live.quietEliminate)
    by (repeat split; intros; intros b0 u; exists u; reflexivity).
  rewrite (dfsSolve_looks al1 sl1 el1 fuel Hlook1),
    (dfsSolve_looks al2 sl2 el2 fuel Hlook2),
    (dfsSolve_looks _ _ _ fuel Hquiet).
  pose proof (dfsSolve_erase (assignOf al1) (solverPassOf sl1) (solverEventOf el1)
                fuel isFirst (mkSolver b path assigned l1)) as H1.
  pose proof (dfsSolve_erase (assignOf al2) (solverPassOf sl2) (solverEventOf el2)
                fuel isFirst (mkSolver b path assigned l2)) as H2.
  unfold eraseSolver in H1, H2. cbn [sboard spath sassigned] in H1, H2.
  split; [congruence|]. split; [exact H1|].
  intros Hwf Hfuel. pose proof (flagCount_range b) as Hr.
  destruct (dfsSolve_total (assignOf al1) (solverPassOf sl1) (solverEventOf el1)
              fuel isFirst (mkSolver b path assigned l1))
    as (res1 & st1 & E1); [exact Hwf | simpl; lia |].
  destruct (dfsSolve_total (assignOf al2) (solverPassOf sl2) (solverEventOf el2)
              fuel isFirst (mkSolver b path assigned l2))
    as (res2 & st2 & E2); [exact Hwf | simpl; lia |].
  rewrite E1 in H1. rewrite E2 in H2. rewrite <- H2 in H1.
  injection H1 as Hres Hb Hp Ha. subst res2.
  exists res1, st1, st2. auto.
Qed.

Lemma dfsSolve_observers_irrelevant_witness :
  solverOutcome
    (Live.dfsSolve countAssign countPass countEvent 730 true
       (mkSolver shiftPuzzle [0] (replicate 81 false) 0))
  = solverOutcome
      (Live.dfsSolve Live.quietAssign Live.quietPass Live.quietEliminate 730 true
         (mkSolver shiftPuzzle [0] (replicate 81 false) tt))
  /\ solverOutcome
       (Live.dfsSolve countAssign countPass countEvent 730 true
          (mkSolver shiftPuzzle [0] (replicate 81 false) 0))
     = Live.dfsSolve Live.quietAssign Live.quietPass Live.quietEliminate 730
         true (mkSolver shiftPuzzle [0] (replicate 81 false) tt)
  /\ (wfBoard shiftPuzzle -> (730 <= 730)%nat ->
      exists res st1 st2,
        Live.dfsSolve countAssign countPass countEvent 730 true
          (mkSolver shiftPuzzle [0] (replicate 81 false) 0)
        = Some (Ok (res, st1))
        /\ Live.dfsSolve Live.quietAssign Live.quietPass Live.quietEliminate 730
             true (mkSolver shiftPuzzle [0] (replicate 81 false) tt)
           = Some (Ok (res, st2))
        /\ sboard st1 = sboard st2).
Proof.
  apply (dfsSolve_observers_irrelevant countAssign countPass countEvent
           Live.quietAssign Live.quietPass Live.quietEliminate 730 true
           shiftPuzzle [0] (replicate 81 false) 0 tt).
  - repeat split; intros; intros b n; exists (n + 1); reflexivity.
  - repeat split; intros; intros b u; exists u; reflexivity.
Defined.

(** C8 as stated fails.  From the same board the search returns [true]
    with the empty listeners, [false] with an elimination listener that
    empties the cell it is told about, and ends in an exception with an
    elimination listener that throws. *)
Lemma dfsSolve_listener_changes_outcome :
  (exists st',
      Live.dfsSolve Live.quietAssign Live.quietPass Live.quietEliminate 730 true
        shiftStart = Some (Ok (true, st')))
  /\ (exists st',
        Live.dfsSolve Live.quietAssign Live.quietPass wipeCell 730 true
          shiftStart = Some (Ok (false, st')))
  /\ Live.dfsSolve Live.quietAssign Live.quietPass throwingListener 730 true
       shiftStart = Some (Throw runtime_error).
Proof.
  split; [eexists; vm_compute; reflexivity|].
  split; [eexists; vm_compute; reflexivity|].
  vm_compute. reflexivity.
Qed.

(** ** What the pass listener is told *)

Lemma foldM_preserves {S A : Type} (P : S -> Prop)
    (f : S -> A -> outcome S) (l : list A) :
  (forall s a s', f s a = Ok s' -> P s -> P s') ->
  forall s s', foldM f l s = Ok s' -> P s -> P s'.
Proof.
  intros Hf. induction l as [|a l IH]; intros s s'; simpl.
  - intros [= <-]. auto.
  - destruct (f s a) as [s1|] eqn:E; simpl; [|discriminate].
    intros H Hs. apply (IH s1 s' H). apply (Hf s a s1 E Hs).
Qed.

Section SilentPass.
Context {L : Type}.
Variable l0 : L.

Lemma eliminateAt_obs (cause : SimplificationCause) (by_ : Z) (peer : GPos)
    (onlyVal : Z) (s s' : PassState L) :
  eliminateAt silentEvent cause by_ peer onlyVal s = Ok s' ->
  obs s = l0 -> obs s' = l0.
Proof.
  unfold eliminateAt.
  destruct (isPossibleAt (board s) peer onlyVal) as [[|]|]; simpl;
    try discriminate.
  - destruct (setPossibleAt (board s) peer onlyVal false) as [[?|?] ?]; simpl;
      [|discriminate].
    intros [= <-]. auto.
  - intros [= <-]. auto.
Qed.

Lemma valueSure_obs (cause : SimplificationCause) (by_ : Z) (selfPos : GPos)
    (v cnt : Z) (s s' : PassState L) :
  valueSure silentEvent cause by_ selfPos v cnt s = Ok s' ->
  obs s = l0 -> obs s' = l0.
Proof.
  unfold valueSure. simpl.
  destruct (makeSureAt (board s) selfPos v false); simpl; [|discriminate].
  intros [= <-]. auto.
Qed.

Lemma maybeSure_obs (success : bool) (cause : SimplificationCause) (by_ : Z)
    (selfPos : GPos) (v cnt : Z) (s s' : PassState L) :
  (if success then valueSure silentEvent cause by_ selfPos v cnt s else Ok s)
  = Ok s' ->
  obs s = l0 -> obs s' = l0.
Proof.
  destruct success; [apply valueSure_obs|]. intros [= <-]. auto.
Qed.

Lemma hiddenSingleAt_obs (x y cnt : Z) (s : PassState L) (v : Z)
    (s' : PassState L) :
  hiddenSingleAt silentEvent x y cnt s v = Ok s' -> obs s = l0 -> obs s' = l0.
Proof.
  unfold hiddenSingleAt.
  destruct (isPossibleAt (board s) (mkGPos x y) v) as [[|]|]; cbn [bind negb];
    try discriminate; [|intros [= <-]; auto].
  destruct (rowUnique (board s) x y v) as [r1|]; cbn [bind]; [|discriminate].
  destruct (if r1 then _ else _) as [s1|] eqn:E1; cbn [bind]; [|discriminate].
  destruct (colUnique (board s1) x y v) as [r2|]; cbn [bind]; [|discriminate].
  destruct (if r2 then _ else _) as [s2|] eqn:E2; cbn [bind]; [|discriminate].
  destruct (chunkUnique (board s2) x y v) as [r3|]; cbn [bind]; [|discriminate].
  intros E3 Hs.
  apply (maybeSure_obs _ _ _ _ _ _ _ _ E3).
  apply (maybeSure_obs _ _ _ _ _ _ _ _ E2).
  apply (maybeSure_obs _ _ _ _ _ _ _ _ E1). exact Hs.
Qed.

Lemma simplifyCell_obs (selfPos : GPos) (s : PassState L)
    (r : bool * PassState L) :
  simplifyCell silentEvent selfPos s = Ok r -> obs s = l0 -> obs (snd r) = l0.
Proof.
  unfold simplifyCell.
  destruct (getCellInfoAt (board s) selfPos) as [info|]; cbn [bind];
    [|discriminate].
  destruct (snd info =? 0); [intros [= <-]; auto|].
  destruct (if snd info =? 1 then _ else _) as [s1|] eqn:E1; cbn [bind];
    [|discriminate].
  assert (H1 : obs s = l0 -> obs s1 = l0).
  { destruct (snd info =? 1); [|injection E1 as <-; auto].
    destruct (eliminateRow _ _ _ _ s) as [sa|] eqn:Ea; cbn [bind] in E1;
      [|discriminate].
    destruct (eliminateColumn _ _ _ _ sa) as [sb|] eqn:Eb; cbn [bind] in E1;
      [|discriminate].
    intros Hs.
    assert (Ha : obs sa = l0).
    { revert Ea Hs. unfold eliminateRow. apply (foldM_preserves (fun st : PassState L => obs st = l0)).
      intros s2 cx s2'. destruct (cx =? _); [intros [= <-]; auto|].
      apply eliminateAt_obs. }
    assert (Hb : obs sb = l0).
    { revert Eb Ha. unfold eliminateColumn. apply (foldM_preserves (fun st : PassState L => obs st = l0)).
      intros s2 cy s2'. destruct (cy =? _); [intros [= <-]; auto|].
      apply eliminateAt_obs. }
    revert E1 Hb. unfold eliminateChunk. apply (foldM_preserves (fun st : PassState L => obs st = l0)).
    intros s2 by_ s2'. apply (foldM_preserves (fun st : PassState L => obs st = l0)).
    intros s3 bx s3'. destruct (samePos _ _ _ _); [intros [= <-]; auto|].
    apply eliminateAt_obs. }
  destruct (getCellInfoAt (board s1) selfPos) as [info1|]; cbn [bind];
    [|discriminate].
  destruct (snd info1 =? 0); [intros [= <-]; auto|].
  destruct (snd info1 =? 1); [intros [= <-]; auto|].
  destruct (foldM _ values s1) as [s2|] eqn:E2; cbn [bind]; [|discriminate].
  intros [= <-] Hs. cbn [snd]. pose proof (H1 Hs) as Hs1. revert E2 Hs1. apply (foldM_preserves (fun st : PassState L => obs st = l0)).
  intros s3 v s3'. apply hiddenSingleAt_obs.
Qed.

Lemma simplifyCells_obs (cells : list GPos) :
  forall (s : PassState L) (r : bool * PassState L),
    simplifyCells silentEvent cells s = Ok r -> obs s = l0 -> obs (snd r) = l0.
Proof.
  induction cells as [|c cells IH]; intros s r; simpl.
  - intros [= <-]. auto.
  - destruct (simplifyCell silentEvent c s) as [r1|] eqn:E1; simpl;
      [|discriminate].
    pose proof (simplifyCell_obs c s r1 E1) as H1.
    destruct (fst r1); [|intros [= <-]; exact H1].
    intros H Hs. apply (IH _ _ H). auto.
Qed.

End SilentPass.

Lemma simplify_silent_obs {L : Type} (b : list Z) (l : L)
    (ok : bool) (s' : PassState L) :
  simplify silentEvent b l = Ok (ok, s') -> obs s' = l.
Proof.
  unfold simplify. intros H.
  apply (simplifyCells_obs l allCells _ _ H). reflexivity.
Qed.

Lemma simplifyLoop_trace (fuel : nat) :
  forall (b : list Z) (total index : Z) (n : nat) (l : list (Z * Z * Z))
         (r : LoopResult (list (Z * Z * Z))),
    simplifyLoop recordPass silentEvent fuel b total index n l = Some (Ok r) ->
    exists tr,
      loopObs r = l ++ tr
      /\ (length tr + (if stable r then 1 else 0) + n = passes r)%nat
      /\ running total index tr
      /\ totalEliminations r = lastTotal total tr
      /\ (stable r = true -> Forall (fun rec => snd (fst rec) <> 0) tr).
Proof.
  induction fuel as [|fuel IH]; intros b total index n l r; simpl; [discriminate|].
  destruct (simplify silentEvent b l) as [[ok s']|] eqn:E; [|discriminate].
  pose proof (simplify_silent_obs b l ok s' E) as Hobs.
  destruct ok; simpl.
  - destruct (Z.eqb_spec (eliminations s') 0) as [E0|N0].
    + intros [= <-]. exists []. simpl. rewrite app_nil_r. auto.
    + intros H. apply IH in H as (tr & Hl & Hn & Hrun & Htot & Hnz).
      exists ((index, eliminations s', wrap64 (total + eliminations s')) :: tr).
      unfold recordPass in Hl. rewrite Hobs, <- app_assoc in Hl.
      split; [exact Hl|]. split; [simpl; lia|]. split; [simpl; auto|].
      split; [exact Htot|]. intros Hst. constructor; [exact N0 | auto].
  - intros [= <-].
    exists [(index, eliminations s', wrap64 (total + eliminations s'))].
    simpl. unfold recordPass. rewrite Hobs.
    repeat split; try reflexivity. discriminate.
Qed.

(** What the loop tells the pass listener, on every board: a record for each
    pass that eliminated something or found the contradiction, with
    consecutive indices from 0 and the running total; the last pass of a run
    that reaches the fixpoint is not among them. *)
Lemma simplifyListener_invocations (b : list Z) :
  wfBoard b ->
  exists r,
    simplifyToTheEnd recordPass silentEvent 729 b [] = Some (Ok r)
    /\ (length (loopObs r) + (if stable r then 1 else 0) = passes r)%nat
    /\ running 0 0 (loopObs r)
    /\ totalEliminations r = lastTotal 0 (loopObs r)
    /\ (stable r = true -> Forall (fun rec => snd (fst rec) <> 0) (loopObs r)).
Proof.
  intros Hwf. pose proof (flagCount_range b).
  destruct (simplifyLoop_terminates recordPass silentEvent 729 b 0 0 0%nat [] Hwf)
    as (r & E & _); [lia | lia |].
  exists r. split; [exact E|].
  apply simplifyLoop_trace in E as (tr & Hl & Hn & Hrun & Htot & Hnz).
  simpl in Hl. subst tr. split; [lia | auto].
Qed.

(** C5.  The pass listener is not called for every pass.  On the default
    board [simplify] runs once, returns [true] and counts 0 eliminations,
    the loop ends with one pass made, and the listener has not been called:
    the record (0, 0, 0) of that pass is missing.  On the default board
    with the cell (0,0) emptied the one pass also counts 0 eliminations,
    returns [false], and that pass is reported, as (0, 0, 0). *)
Theorem simplifyListener_skips_last_pass :
  (exists s',
      simplify (@silentEvent unit) newBoard tt = Ok (true, s')
      /\ eliminations s' = 0)
  /\ (exists r,
        simplifyToTheEnd recordPass silentEvent 729 newBoard [] = Some (Ok r)
        /\ stable r = true
        /\ passes r = 1%nat
        /\ totalEliminations r = 0
        /\ loopObs r = []
        /\ length (loopObs r) <> passes r)
  /\ (exists s',
        simplify (@silentEvent unit) emptyCorner tt = Ok (false, s')
        /\ eliminations s' = 0)
  /\ (exists r,
        simplifyToTheEnd recordPass silentEvent 729 emptyCorner [] = Some (Ok r)
        /\ stable r = false
        /\ passes r = 1%nat
        /\ loopObs r = [(0, 0, 0)]).
Proof.
  split; [eexists; split; [vm_compute; reflexivity | reflexivity]|].
  split.
  { eexists. split; [vm_compute; reflexivity|]. cbn.
    repeat split; auto. }
  split; [eexists; split; [vm_compute; reflexivity | reflexivity]|].
  eexists. split; [vm_compute; reflexivity|]. cbn. repeat split.
Qed.

(** ** Scenarios *)

(** C9. On the default board, after the forcing assignment of 5 at (4,4),
    the first pass of [simplify] returns [true] and reports 20 eliminations,
    whatever the listener: 8 in the row, 8 in the column and 4 in the
    chunk. *)
Theorem single_clue_first_pass {L : Type}
    (ev : SimplificationCause -> GPos -> Z -> Z -> list Z -> L -> L) (l : L) :
  flagCount newBoard = 729
  /\ exists b1 s',
    makeSureAt newBoard (mkGPos 4 4) 5 true = Ok b1
    /\ simplify ev b1 l = Ok (true, s')
    /\ eliminations s' = 20
    /\ exists t,
         simplify recordEvent b1 [] = Ok (true, t)
         /\ length (eventsOf ELIMINATION_BY_ROW (obs t)) = 8%nat
         /\ length (eventsOf ELIMINATION_BY_COLUMN (obs t)) = 8%nat
         /\ length (eventsOf ELIMINATION_BY_CHUNK (obs t)) = 4%nat
         /\ length (obs t) = 20%nat.
Proof.
  split; [vm_compute; reflexivity|].
  exists singleClue.
  assert (Hq : exists u, simplify (@silentEvent unit) singleClue tt = Ok (true, u)
                         /\ eliminations u = 20).
  { eexists. split; [vm_compute; reflexivity | reflexivity]. }
  destruct Hq as (u & Eu & Hu).
  pose proof (simplify_erase ev singleClue l) as He. rewrite Eu in He.
  destruct (simplify ev singleClue l) as [[ok s']|]; [|discriminate].
  injection He as Hok Hs. subst ok u. cbn [erasePass eliminations] in Hu.
  exists s'. split; [vm_compute; reflexivity|].
  split; [reflexivity|]. split; [exact Hu|].
  eexists. split; [vm_compute; reflexivity|]. simpl. auto.
Qed.

(** C4 fails on the code.  On the puzzle [fourOnes] the first pass fires
    the hidden single 1 at (8,8) three times, by row, by column and by
    chunk, and adds the stale [cnt - 1 = 8] each time: it reports 84
    eliminations while 68 flags were cleared. *)
Theorem hidden_single_counted_thrice :
  exists s',
    simplify recordEvent fourOnes [] = Ok (true, s')
    /\ eliminations s' = 84
    /\ flagCount fourOnes - flagCount (board s') = 68
    /\ eventsOf VALUE_SURE_BY_ROW (obs s')
       = [(VALUE_SURE_BY_ROW, mkGPos 8 8, 1, 8)]
    /\ eventsOf VALUE_SURE_BY_COLUMN (obs s')
       = [(VALUE_SURE_BY_COLUMN, mkGPos 8 8, 1, 8)]
    /\ eventsOf VALUE_SURE_BY_CHUNK (obs s')
       = [(VALUE_SURE_BY_CHUNK, mkGPos 8 8, 1, 8)].
Proof.
  eexists. split; [vm_compute; reflexivity|].
  vm_compute. repeat split; reflexivity.
Qed.

(** * Further properties of the board *)

(** ** The layout of the flags *)

(** X1. The 729 pairs of a cell and a value are laid out without overlap:
    the bit index computed by [isPossibleAt] and [setPossibleAt] lies below
    729, inside the twelve words, and two pairs share it only if they are
    the same pair. *)
Theorem flag_bits_distinct (p q : GPos) (v w : Z) :
  validPos p -> validPos q -> validValue v -> validValue w ->
  gpos2bitsetIndex p = 9 * cellIndex p
  /\ 0 <= wrap32 (gpos2bitsetIndex p + (v - 1)) < 729
  /\ 0 <= wrap32 (gpos2bitsetIndex p + (v - 1)) / 64 < 12
  /\ (wrap32 (gpos2bitsetIndex p + (v - 1)) = wrap32 (gpos2bitsetIndex q + (w - 1))
      <-> p = q /\ v = w).
Proof.
  intros Hp Hq Hv Hw.
  rewrite !bit_index_valid by assumption.
  pose proof (bitIndex_range p v Hp Hv) as Hr.
  split; [apply gpos2bitsetIndex_valid, Hp|]. split; [exact Hr|]. split.
  - split; [apply Z.div_pos; lia | apply Z.div_lt_upper_bound; lia].
  - split; [apply bitIndex_inj; assumption|]. intros [-> ->]. reflexivity.
Qed.

Lemma flag_bits_distinct_witness :
  gpos2bitsetIndex (mkGPos 8 8) = 9 * cellIndex (mkGPos 8 8)
  /\ 0 <= wrap32 (gpos2bitsetIndex (mkGPos 8 8) + (9 - 1)) < 729
  /\ 0 <= wrap32 (gpos2bitsetIndex (mkGPos 8 8) + (9 - 1)) / 64 < 12
  /\ (wrap32 (gpos2bitsetIndex (mkGPos 8 8) + (9 - 1))
      = wrap32 (gpos2bitsetIndex (mkGPos 0 0) + (1 - 1))
      <-> mkGPos 8 8 = mkGPos 0 0 /\ 9 = 1).
Proof.
  apply (flag_bits_distinct (mkGPos 8 8) (mkGPos 0 0) 9 1);
    unfold validPos, validValue; simpl; lia.
Defined.

(** ** One flag at a time *)

Lemma increasing_NoDup (l : list Z) : increasing l = true -> List.NoDup l.
Proof.
  induction l as [|a l IH]; intros H; constructor.
  - intros Hin. destruct (increasing_tail a l H) as [_ Hlt].
    specialize (Hlt a Hin). lia.
  - apply IH. destruct (increasing_tail a l H) as [Hl _]. exact Hl.
Qed.

Lemma allCells_NoDup : List.NoDup allCells.
Proof.
  apply (List.NoDup_map_inv cellIndex), increasing_NoDup, allCells_increasing.
Qed.

Lemma sumZ_single_diff {A : Type} (f g : A -> Z) (l : list A) (a0 : A) :
  List.NoDup l -> In a0 l -> (forall a, In a l -> a <> a0 -> g a = f a) ->
  sumZ g l = sumZ f l + (g a0 - f a0).
Proof.
  induction l as [|a l IH]; intros Hnd Hin Hsame; [destruct Hin|].
  inversion Hnd as [|? ? Hnot Hnd']; subst. simpl.
  destruct Hin as [->|Hin].
  - rewrite (sumZ_ext g f l); [lia|].
    intros a Ha. apply Hsame; [right; exact Ha|]. intros ->. contradiction.
  - rewrite IH; auto.
    + rewrite (Hsame a); [lia | left; reflexivity |]. intros ->. contradiction.
    + intros a' Ha'. apply Hsame. right. exact Ha'.
Qed.

(** The effect of a call that reports a change on the two counts. *)
Lemma flip_counts (b b' : list Z) (p : GPos) (v : Z) :
  validPos p -> validValue v ->
  (forall q w, validPos q -> validValue w -> (q, w) <> (p, v) ->
               flag b' q w = flag b q w) ->
  cellCount b' p = cellCount b p + (Z.b2z (flag b' p v) - Z.b2z (flag b p v))
  /\ (forall q, validPos q -> q <> p -> cellCount b' q = cellCount b q)
  /\ flagCount b' = flagCount b + (Z.b2z (flag b' p v) - Z.b2z (flag b p v)).
Proof.
  intros Hp Hv Hoth.
  assert (Hcell : cellCount b' p
                  = cellCount b p + (Z.b2z (flag b' p v) - Z.b2z (flag b p v))).
  { unfold cellCount.
    apply (sumZ_single_diff (fun w => Z.b2z (flag b p w))
             (fun w => Z.b2z (flag b' p w)) values v values_NoDup).
    - apply values_valid, Hv.
    - intros w Hw Hne. rewrite Hoth; auto; [apply values_valid, Hw|].
      intros [= ->]. contradiction. }
  assert (Hrest : forall q, validPos q -> q <> p -> cellCount b' q = cellCount b q).
  { intros q Hq Hne. unfold cellCount. apply sumZ_ext. intros w Hw.
    rewrite Hoth; auto; [apply values_valid, Hw|]. intros [= -> _]. contradiction. }
  split; [exact Hcell|]. split; [exact Hrest|].
  rewrite !flagCount_cells.
  rewrite (sumZ_single_diff (cellCount b) (cellCount b') allCells p allCells_NoDup).
  - lia.
  - apply allCells_valid, Hp.
  - intros q Hq Hne. apply Hrest; [apply allCells_valid, Hq | exact Hne].
Qed.

(** X2. [setPossibleAt] on a valid cell and value touches that one flag
    only: every other flag of the board reads as before, and the array keeps
    its twelve words. *)
Theorem setPossibleAt_frame (b : list Z) (p q : GPos) (v w : Z) (on : bool) :
  wfBoard b -> validPos p -> validValue v -> validPos q -> validValue w ->
  (q, w) <> (p, v) ->
  isPossibleAt (snd (setPossibleAt b p v on)) q w = isPossibleAt b q w
  /\ wfBoard (snd (setPossibleAt b p v on)).
Proof.
  intros Hwf Hp Hv Hq Hw Hne.
  destruct (setPossibleAt_flags b p v on Hwf Hp Hv) as (b' & E & Hwf' & _ & Hoth).
  rewrite E. simpl. rewrite !isPossibleAt_flag by assumption.
  split; [f_equal; apply Hoth; assumption | exact Hwf'].
Qed.

Lemma setPossibleAt_frame_witness :
  isPossibleAt (snd (setPossibleAt newBoard (mkGPos 2 3) 4 false)) (mkGPos 2 3) 5
  = isPossibleAt newBoard (mkGPos 2 3) 5
  /\ wfBoard (snd (setPossibleAt newBoard (mkGPos 2 3) 4 false)).
Proof.
  apply (setPossibleAt_frame newBoard (mkGPos 2 3) (mkGPos 2 3) 4 5 false);
    try reflexivity; try (unfold validPos, validValue; simpl; lia).
  intros [=].
Defined.

(** X3. The boolean returned by [setPossibleAt] counts exactly: when it is
    [true] the candidate count of the cell and the number of set flags of
    the board moved by one (up when setting, down when clearing) and no
    other cell changed its count; when it is [false] the array is unchanged.
    The same call again returns [false]. *)
Theorem setPossibleAt_counts (b : list Z) (p : GPos) (v : Z) (on : bool) :
  wfBoard b -> validPos p -> validValue v ->
  exists changed b',
    setPossibleAt b p v on = (Ok changed, b')
    /\ (changed = true ->
        countAt b' p = countAt b p + (if on then 1 else -1)
        /\ flagCount b' = flagCount b + (if on then 1 else -1)
        /\ forall q, validPos q -> q <> p -> countAt b' q = countAt b q)
    /\ (changed = false -> b' = b)
    /\ setPossibleAt b' p v on = (Ok false, b').
Proof.
  intros Hwf Hp Hv.
  destruct (setPossibleAt_flags b p v on Hwf Hp Hv) as (b' & E & Hwf' & Hset & Hoth).
  exists (negb (Bool.eqb (flag b p v) on)), b'. split; [exact E|].
  destruct (flip_counts b b' p v Hp Hv Hoth) as (Hc & Hrest & Hf).
  split; [|split].
  - intros Hch. apply negb_true_iff, eqb_false_iff in Hch.
    rewrite Hset in Hc, Hf. rewrite !countAt_cellCount by assumption.
    assert (Hd : Z.b2z on - Z.b2z (flag b p v) = if on then 1 else -1)
      by (destruct on, (flag b p v); simpl; try reflexivity; exfalso; apply Hch; reflexivity).
    rewrite Hd in Hc, Hf. split; [exact Hc|]. split; [exact Hf|].
    intros q Hq Hne. rewrite !countAt_cellCount by assumption. auto.
  - intros Hch. apply negb_false_iff, eqb_prop in Hch.
    rewrite (setPossibleAt_same b p v on Hp Hv Hch) in E. congruence.
  - apply setPossibleAt_same; assumption.
Qed.

Lemma setPossibleAt_counts_witness :
  exists changed b',
    setPossibleAt newBoard (mkGPos 7 1) 3 false = (Ok changed, b')
    /\ (changed = true ->
        countAt b' (mkGPos 7 1) = countAt newBoard (mkGPos 7 1) + (-1)
        /\ flagCount b' = flagCount newBoard + (-1)
        /\ forall q, validPos q -> q <> mkGPos 7 1 ->
                     countAt b' q = countAt newBoard q)
    /\ (changed = false -> b' = newBoard)
    /\ setPossibleAt b' (mkGPos 7 1) 3 false = (Ok false, b').
Proof.
  apply (setPossibleAt_counts newBoard (mkGPos 7 1) 3 false);
    try reflexivity; unfold validPos, validValue; simpl; lia.
Defined.

(** ** Reading a cell *)

Lemma sumZ_b2z_all_off {A : Type} (f : A -> bool) (l : list A) :
  (forall a, In a l -> f a = false) -> sumZ (fun a => Z.b2z (f a)) l = 0.
Proof.
  induction l as [|a l IH]; intros H; simpl; [reflexivity|].
  rewrite (H a) by (left; reflexivity). rewrite IH; [reflexivity|].
  intros; apply H; right; assumption.
Qed.

Lemma cellCount_zero (b : list Z) (p : GPos) :
  cellCount b p = 0 <-> forall w, validValue w -> flag b p w = false.
Proof.
  unfold cellCount. split.
  - intros H w Hw. destruct (sumZ_b2z_zero (flag b p) values 0 H) as [_ Hoff].
    apply Hoff, values_valid, Hw.
  - intros H. apply sumZ_b2z_all_off. intros w Hw. apply H, values_valid, Hw.
Qed.

Lemma cellCount_pos (b : list Z) (p : GPos) (v : Z) :
  validValue v -> flag b p v = true -> 1 <= cellCount b p.
Proof.
  intros Hv Hon. pose proof (cellCount_range b p).
  destruct (Z.eq_dec (cellCount b p) 0) as [E|]; [|lia].
  rewrite (proj1 (cellCount_zero b p) E v Hv) in Hon. discriminate.
Qed.

(** X4. The three readers of a cell agree: [getOnlyPossibleValue] and
    [getPossiblesCountAt] return the two components of [getCellInfoAt]; the
    count lies in 0..9; the value is non-zero exactly when the count is 1,
    and is then the one possible value of the cell; the count is 0 exactly
    when no value is possible. *)
Theorem cellInfo_consistent (b : list Z) (p : GPos) :
  validPos p ->
  exists only cnt,
    getCellInfoAt b p = Ok (only, cnt)
    /\ getOnlyPossibleValue b p = Ok only
    /\ getPossiblesCountAt b p = Ok cnt
    /\ 0 <= cnt <= 9
    /\ (only <> 0 <-> cnt = 1)
    /\ (cnt = 1 ->
        validValue only /\ isPossibleAt b p only = Ok true
        /\ forall w, validValue w -> isPossibleAt b p w = Ok true -> w = only)
    /\ (cnt = 0 <-> forall w, validValue w -> isPossibleAt b p w = Ok false).
Proof.
  intros Hp. unfold getOnlyPossibleValue, getPossiblesCountAt.
  rewrite getCellInfoAt_spec by assumption. eexists _, _.
  split; [reflexivity|]. split; [reflexivity|]. split; [reflexivity|].
  split; [apply cellCount_range|]. split; [|split].
  - destruct (Z.eqb_spec (cellCount b p) 1) as [E|N].
    + pose proof (onlyValue_spec b p E) as Hspec. cbv zeta in Hspec.
      destruct Hspec as (Hv & _). unfold validValue in Hv.
      split; [auto | intros _; lia].
    + split; [congruence | contradiction].
  - intros E. rewrite E. cbn [Z.eqb Pos.eqb].
    pose proof (onlyValue_spec b p E) as Hspec. cbv zeta in Hspec.
    destruct Hspec as (Hv & Hon & Huniq).
    split; [exact Hv|]. split; [rewrite isPossibleAt_flag, Hon by assumption; reflexivity|].
    intros w Hw Hposs. rewrite isPossibleAt_flag in Hposs by assumption.
    apply Huniq; [exact Hw | congruence].
  - rewrite cellCount_zero. split; intros H w Hw.
    + rewrite isPossibleAt_flag, H by assumption. reflexivity.
    + specialize (H w Hw). rewrite isPossibleAt_flag in H by assumption. congruence.
Qed.

Lemma cellInfo_consistent_witness :
  exists only cnt,
    getCellInfoAt singleClue (mkGPos 4 4) = Ok (only, cnt)
    /\ getOnlyPossibleValue singleClue (mkGPos 4 4) = Ok only
    /\ getPossiblesCountAt singleClue (mkGPos 4 4) = Ok cnt
    /\ 0 <= cnt <= 9
    /\ (only <> 0 <-> cnt = 1)
    /\ (cnt = 1 ->
        validValue only /\ isPossibleAt singleClue (mkGPos 4 4) only = Ok true
        /\ forall w, validValue w ->
                     isPossibleAt singleClue (mkGPos 4 4) w = Ok true -> w = only)
    /\ (cnt = 0 <->
        forall w, validValue w -> isPossibleAt singleClue (mkGPos 4 4) w = Ok false).
Proof.
  apply (cellInfo_consistent singleClue (mkGPos 4 4)).
  unfold validPos; simpl; lia.
Defined.

Lemma filter_increasing (f : Z -> bool) (l : list Z) :
  increasing l = true -> increasing (List.filter f l) = true.
Proof.
  induction l as [|a l IH]; intros H; [reflexivity|].
  destruct (increasing_tail a l H) as [Hl Hlt]. simpl.
  destruct (f a); [|apply IH, Hl].
  specialize (IH Hl).
  destruct (List.filter f l) as [|c r] eqn:E; [reflexivity|].
  change (increasing (a :: c :: r)) with ((a <? c) && increasing (c :: r)).
  rewrite IH, andb_true_r. apply Z.ltb_lt, Hlt.
  apply (proj1 (List.filter_In f c l)). rewrite E. left. reflexivity.
Qed.

Lemma filter_length_sumZ (f : Z -> bool) (l : list Z) :
  Z.of_nat (length (List.filter f l)) = sumZ (fun a => Z.b2z (f a)) l.
Proof.
  induction l as [|a l IH]; [reflexivity|]. simpl.
  destruct (f a); simpl length; simpl Z.b2z; lia.
Qed.

(** X5. [getCandiatesAt] returns the possible values of the cell and only
    those, in strictly ascending order, as many as [getPossiblesCountAt]
    counts. *)
Theorem getCandiatesAt_ascending (b : list Z) (p : GPos) :
  validPos p ->
  exists cs,
    getCandiatesAt b p = Ok cs
    /\ increasing cs = true
    /\ (forall v, In v cs <-> validValue v /\ isPossibleAt b p v = Ok true)
    /\ getPossiblesCountAt b p = Ok (Z.of_nat (length cs)).
Proof.
  intros Hp. exists (List.filter (flag b p) values).
  split; [apply getCandiatesAt_spec, Hp|].
  split; [apply filter_increasing; reflexivity|]. split.
  - intros v. rewrite List.filter_In, values_valid. split.
    + intros [Hv Hon]. split; [exact Hv|].
      rewrite isPossibleAt_flag, Hon by assumption. reflexivity.
    + intros [Hv Hposs]. split; [exact Hv|].
      rewrite isPossibleAt_flag in Hposs by assumption. congruence.
  - unfold getPossiblesCountAt. rewrite getCellInfoAt_spec by assumption.
    rewrite bind_Ok. cbn [snd]. rewrite filter_length_sumZ. reflexivity.
Qed.

Lemma getCandiatesAt_ascending_witness :
  exists cs,
    getCandiatesAt singleClue (mkGPos 4 0) = Ok cs
    /\ increasing cs = true
    /\ (forall v, In v cs <->
                  validValue v /\ isPossibleAt singleClue (mkGPos 4 0) v = Ok true)
    /\ getPossiblesCountAt singleClue (mkGPos 4 0) = Ok (Z.of_nat (length cs)).
Proof.
  apply (getCandiatesAt_ascending singleClue (mkGPos 4 0)).
  unfold validPos; simpl; lia.
Defined.

(** ** The status of the board *)

Lemma existsb_counts (b : list Z) (stop : Z -> bool) :
  existsb (fun p => stop (cellCount b p)) allCells = true
  <-> exists p, validPos p /\ stop (countAt b p) = true.
Proof.
  rewrite existsb_exists. split; intros (p & Hp & Hs).
  - apply allCells_valid in Hp. exists p. split; [exact Hp|].
    rewrite countAt_cellCount by assumption. exact Hs.
  - exists p. rewrite countAt_cellCount in Hs by assumption.
    split; [apply allCells_valid, Hp | exact Hs].
Qed.

(** X6. [isSolved] and [hasContradiction] never throw; [isSolved] is [true]
    exactly when every cell has one candidate, [hasContradiction] exactly
    when some cell has none; a solved board has no contradiction. *)
Theorem status_checks (b : list Z) :
  exists solved contra,
    isSolved b = Ok solved
    /\ hasContradiction b = Ok contra
    /\ (solved = true <-> forall p, validPos p -> countAt b p = 1)
    /\ (contra = true <-> exists p, validPos p /\ countAt b p = 0)
    /\ (solved = true -> contra = false).
Proof.
  eexists _, _. split; [apply isSolved_spec|]. split.
  { unfold hasContradiction. apply scanCounts_spec. intros c. apply allCells_valid. }
  assert (Hs : negb (existsb (fun p => negb (cellCount b p =? 1)) allCells) = true
               <-> forall p, validPos p -> countAt b p = 1).
  { rewrite negb_true_iff. split.
    - intros H p Hp. pose proof (existsb_false _ _ H p (proj2 (allCells_valid p) Hp)) as Hf.
      simpl in Hf. apply negb_false_iff, Z.eqb_eq in Hf.
      rewrite countAt_cellCount by assumption. exact Hf.
    - intros H. destruct (existsb _ allCells) eqn:E; [|reflexivity].
      apply (existsb_counts b (fun c => negb (c =? 1))) in E as (p & Hp & Hne).
      rewrite (H p Hp) in Hne. discriminate. }
  split; [exact Hs|]. split.
  - rewrite (existsb_counts b (fun c => c =? 0)).
    split; intros (p & Hp & H0); exists p; (split; [exact Hp|]);
      [apply Z.eqb_eq | apply Z.eqb_eq]; exact H0.
  - intros Hsolved. pose proof (proj1 Hs Hsolved) as Hall.
    destruct (existsb (fun p => cellCount b p =? 0) allCells) eqn:E; [|reflexivity].
    apply (existsb_counts b (fun c => c =? 0)) in E as (p & Hp & H0).
    rewrite (Hall p Hp) in H0. discriminate.
Qed.

(** ** The default board *)

Lemma newBoard_flags : allFlagsSet newBoard = true.
Proof. vm_compute. reflexivity. Qed.

(** X7. The default constructor yields twelve words below 2^64 in which
    every value is possible at every cell: each count is 9, 729 flags are
    set, and the board is neither solved nor contradictory. *)
Theorem default_board_full :
  wfBoard newBoard
  /\ (forall w, In w newBoard -> 0 <= w < 2 ^ 64)
  /\ (forall p v, validPos p -> validValue v -> isPossibleAt newBoard p v = Ok true)
  /\ (forall p, validPos p -> getPossiblesCountAt newBoard p = Ok 9)
  /\ flagCount newBoard = 729
  /\ isSolved newBoard = Ok false
  /\ hasContradiction newBoard = Ok false.
Proof.
  assert (Hall : forall p v, validPos p -> validValue v -> flag newBoard p v = true).
  { intros p v Hp Hv. pose proof newBoard_flags as H. unfold allFlagsSet in H.
    rewrite forallb_forall in H. specialize (H p (proj2 (allCells_valid p) Hp)).
    rewrite forallb_forall in H. apply H, values_valid, Hv. }
  split; [reflexivity|]. split.
  { unfold newBoard. intros w Hw. apply list_elem_of_In, elem_of_replicate in Hw.
    destruct Hw as [-> _]. lia. }
  split.
  { intros p v Hp Hv. rewrite isPossibleAt_flag, Hall by assumption. reflexivity. }
  split.
  { intros p Hp. unfold getPossiblesCountAt.
    rewrite getCellInfoAt_spec, bind_Ok by assumption. cbn [snd]. f_equal.
    unfold cellCount. rewrite (sumZ_ext _ (fun _ => 1)); [reflexivity|].
    intros v Hv. rewrite Hall; [reflexivity | exact Hp | apply values_valid, Hv]. }
  split; [vm_compute; reflexivity|]. split; vm_compute; reflexivity.
Qed.

(** ** Committing a value *)

Lemma foldM_fixed {S A : Type} (f : S -> A -> outcome S) (l : list A) (s : S) :
  (forall a, In a l -> f s a = Ok s) -> foldM f l s = Ok s.
Proof.
  induction l as [|a l IH]; intros H; simpl; [reflexivity|].
  rewrite (H a) by (left; reflexivity). simpl. apply IH.
  intros; apply H; right; assumption.
Qed.

(** X8. [makeSureAt] works on its cell alone: every flag of every other cell
    reads as before, no flag of the board is turned on except, when forcing,
    the one of the value; and the call is idempotent: made again on its own
    result it changes nothing. *)
Theorem makeSureAt_frame (b : list Z) (p : GPos) (value : Z) (force : bool) :
  wfBoard b -> validPos p ->
  exists b',
    makeSureAt b p value force = Ok b'
    /\ wfBoard b'
    /\ (forall q w, validPos q -> validValue w -> q <> p ->
          isPossibleAt b' q w = isPossibleAt b q w)
    /\ (forall w, validValue w -> w <> value -> isPossibleAt b' p w = Ok false)
    /\ (force = false -> subBoard b' b)
    /\ makeSureAt b' p value force = Ok b'.
Proof.
  intros Hwf Hp.
  destruct (makeSureAt_spec b p value force Hwf Hp) as (b' & E & Hwf' & Hself & Hoth).
  exists b'. split; [exact E|]. split; [exact Hwf'|]. split; [|split; [|split]].
  - intros q w Hq Hw Hne. rewrite !isPossibleAt_flag by assumption.
    f_equal. auto.
  - intros w Hw Hne. rewrite isPossibleAt_flag, Hself by assumption.
    destruct (Z.eqb_spec w value); [contradiction | reflexivity].
  - intros ->. apply subBoard_flag. intros q w Hq Hw Hset.
    destruct (decide (q = p)) as [->|Hne].
    + rewrite Hself in Hset by assumption.
      destruct (Z.eqb_spec w value) as [->|]; [exact Hset | discriminate].
    + rewrite <- Hoth; assumption.
  - unfold makeSureAt. apply foldM_fixed. intros v Hv. apply values_valid in Hv.
    pose proof (Hself v Hv) as Hfv.
    destruct (Z.eqb_spec v value) as [->|Hne].
    + destruct force; [|reflexivity].
      rewrite (setPossibleAt_same b' p value true Hp Hv); [reflexivity|].
      rewrite Hfv. reflexivity.
    + rewrite (setPossibleAt_same b' p v false Hp Hv Hfv). reflexivity.
Qed.

Lemma makeSureAt_frame_witness :
  exists b',
    makeSureAt newBoard (mkGPos 4 4) 5 true = Ok b'
    /\ wfBoard b'
    /\ (forall q w, validPos q -> validValue w -> q <> mkGPos 4 4 ->
          isPossibleAt b' q w = isPossibleAt newBoard q w)
    /\ (forall w, validValue w -> w <> 5 -> isPossibleAt b' (mkGPos 4 4) w = Ok false)
    /\ (true = false -> subBoard b' newBoard)
    /\ makeSureAt b' (mkGPos 4 4) 5 true = Ok b'.
Proof.
  apply (makeSureAt_frame newBoard (mkGPos 4 4) 5 true);
    [reflexivity | unfold validPos; simpl; lia].
Defined.

(** * Further properties of a pass *)

(** ** Contradictions *)

Lemma passStep_off {L : Type} (s s' : PassState L) (q : GPos) (w : Z) :
  passStep s s' -> validPos q -> validValue w ->
  flag (board s) q w = false -> flag (board s') q w = false.
Proof.
  intros (_ & Hsub & _) Hq Hw Hoff. rewrite subBoard_flag in Hsub.
  destruct (flag (board s') q w) eqn:E; [|reflexivity].
  rewrite (Hsub q w Hq Hw E) in Hoff. discriminate.
Qed.

Lemma passStep_count {L : Type} (s s' : PassState L) (q : GPos) :
  passStep s s' -> validPos q -> cellCount (board s') q <= cellCount (board s) q.
Proof. intros (_ & Hsub & _) Hq. apply cellCount_mono; assumption. Qed.

Section Contradiction.
Context {L : Type}.
Variable ev : SimplificationCause -> GPos -> Z -> Z -> list Z -> L -> L.

(** A cell on which the pass stops is empty on the board it leaves. *)
Lemma simplifyCell_stops (c : GPos) (s s' : PassState L) :
  validPos c -> simplifyCell ev c s = Ok (false, s') ->
  cellCount (board s') c = 0.
Proof.
  intros Hc. unfold simplifyCell.
  rewrite getCellInfoAt_spec, bind_Ok by assumption. cbn [fst snd].
  destruct (Z.eqb_spec (cellCount (board s) c) 0) as [E0|N0].
  { intros [= <-]. exact E0. }
  destruct (if cellCount (board s) c =? 1 then _ else _) as [s1|]; [|discriminate].
  rewrite bind_Ok, getCellInfoAt_spec, bind_Ok by assumption. cbn [fst snd].
  destruct (Z.eqb_spec (cellCount (board s1) c) 0) as [E0'|N0'].
  { intros [= <-]. exact E0'. }
  destruct (cellCount (board s1) c =? 1); [discriminate|].
  destruct (foldM _ values s1); simpl; discriminate.
Qed.

Lemma simplifyCells_stops (cells : list GPos) :
  (forall c, In c cells -> validPos c) ->
  forall s s', wfBoard (board s) ->
    simplifyCells ev cells s = Ok (false, s') ->
    exists c, In c cells /\ cellCount (board s') c = 0.
Proof.
  induction cells as [|c cells IH]; intros Hcells s s' Hwf; simpl; [discriminate|].
  destruct (simplifyCell_step ev c s (Hcells c (or_introl eq_refl)) Hwf)
    as (ok & s1 & E1 & S1 & _).
  rewrite E1, bind_Ok. cbn [fst snd]. destruct ok.
  - intros H. destruct (IH (fun q Hq => Hcells q (or_intror Hq)) s1 s' (proj1 S1) H)
      as (c' & Hin & Hz).
    exists c'. split; [right; exact Hin | exact Hz].
  - intros [= <-]. exists c. split; [left; reflexivity|].
    apply (simplifyCell_stops c s s1); [apply Hcells; left; reflexivity | exact E1].
Qed.

(** A list of cells to visit that holds an empty cell ends in [false]. *)
Lemma simplifyCells_empty (cells : list GPos) (s : PassState L) (c : GPos) :
  (forall q, In q cells -> validPos q) -> wfBoard (board s) ->
  In c cells -> cellCount (board s) c = 0 ->
  exists s', simplifyCells ev cells s = Ok (false, s') /\ passStep s s'.
Proof.
  intros Hcells Hwf Hin Hz.
  destruct (simplifyCells_step ev cells Hcells s Hwf) as (ok & s' & E & S & Hall).
  destruct ok; [|eauto]. specialize (Hall eq_refl c Hin). lia.
Qed.

End Contradiction.

(** X9. [simplify] finds every contradiction and reports no other: on a
    board with an empty cell it returns [false]; and whenever it returns
    [false] the board it leaves has an empty cell ([hasContradiction] holds
    of it), so a pass that returns [false] was stopped by a real dead end. *)
Theorem simplify_contradiction {L : Type}
    (ev : SimplificationCause -> GPos -> Z -> Z -> list Z -> L -> L)
    (b : list Z) (l : L) :
  wfBoard b ->
  exists ok s',
    simplify ev b l = Ok (ok, s')
    /\ (hasContradiction b = Ok true -> ok = false)
    /\ (ok = false -> hasContradiction (board s') = Ok true)
    /\ (ok = true -> hasContradiction b = Ok false).
Proof.
  intros Hwf.
  destruct (simplifyCells_step ev allCells (fun c => proj1 (allCells_valid c))
              (mkPass b 0 l) Hwf) as (ok & s' & E & S & Hall).
  exists ok, s'. split; [exact E|].
  assert (Hcontra : forall b0, hasContradiction b0
                    = Ok (existsb (fun p => cellCount b0 p =? 0) allCells)).
  { intros b0. unfold hasContradiction. apply scanCounts_spec.
    intros c. apply allCells_valid. }
  assert (Hfirst : hasContradiction b = Ok true -> ok = false).
  { rewrite Hcontra. intros Hex.
    destruct (existsb (fun p => cellCount b p =? 0) allCells) eqn:Eex;
      [|discriminate].
    apply existsb_exists in Eex as (p & Hp & Hz). apply Z.eqb_eq in Hz.
    destruct ok; [|reflexivity]. specialize (Hall eq_refl p Hp). simpl in Hall. lia. }
  split; [exact Hfirst|]. split.
  - intros ->.
    destruct (simplifyCells_stops ev allCells (fun c => proj1 (allCells_valid c))
                (mkPass b 0 l) s' Hwf E) as (c & Hin & Hz).
    rewrite Hcontra. f_equal. apply existsb_exists. exists c.
    split; [exact Hin | apply Z.eqb_eq, Hz].
  - intros ->. rewrite Hcontra in *.
    destruct (existsb (fun p => cellCount b p =? 0) allCells); [|reflexivity].
    specialize (Hfirst eq_refl). discriminate.
Qed.

Lemma simplify_contradiction_witness :
  exists ok s',
    simplify (@silentEvent unit) (boardOf (makeSureAt newBoard (mkGPos 5 2) 0 false)) tt
    = Ok (ok, s')
    /\ (hasContradiction (boardOf (makeSureAt newBoard (mkGPos 5 2) 0 false)) = Ok true
        -> ok = false)
    /\ (ok = false -> hasContradiction (board s') = Ok true)
    /\ (ok = true ->
        hasContradiction (boardOf (makeSureAt newBoard (mkGPos 5 2) 0 false))
        = Ok false).
Proof.
  apply (simplify_contradiction silentEvent
           (boardOf (makeSureAt newBoard (mkGPos 5 2) 0 false)) tt).
  reflexivity.
Defined.

(** ** Naked singles *)

Lemma peer_sym (p q : GPos) : peer p q -> peer q p.
Proof.
  unfold peer, sameChunk. intros [Hne H]. split; [congruence|].
  destruct H as [H|[H|[H1 H2]]]; auto.
Qed.

Lemma chunk_member (z c : Z) :
  0 <= z <= 8 -> 0 <= c <= 8 -> c / 3 = z / 3 ->
  In c [z / 3 * 3; z / 3 * 3 + 1; z / 3 * 3 + 2].
Proof.
  intros Hz Hc E. rewrite <- E.
  pose proof (Z.div_mod c 3). pose proof (Z.mod_pos_bound c 3).
  simpl. lia.
Qed.

Lemma foldM_each {L A : Type} (P : A -> Prop) (Q : A -> PassState L -> Prop)
    (f : PassState L -> A -> outcome (PassState L)) (l : list A) :
  (forall a, In a l -> P a) ->
  (forall a s s', passStep s s' -> Q a s -> Q a s') ->
  (forall s a, P a -> wfBoard (board s) ->
               exists s', f s a = Ok s' /\ passStep s s' /\ Q a s') ->
  forall s, wfBoard (board s) ->
    exists s', foldM f l s = Ok s' /\ passStep s s' /\ forall a, In a l -> Q a s'.
Proof.
  intros Hl Hstable Hf. induction l as [|a l IH]; intros s Hwf; simpl.
  - exists s. split; [reflexivity|]. split; [apply passStep_refl, Hwf | intros a []].
  - destruct (Hf s a (Hl a (or_introl eq_refl)) Hwf) as (s1 & E1 & S1 & Q1).
    rewrite E1, bind_Ok.
    destruct (IH (fun a' Ha' => Hl a' (or_intror Ha')) s1 (proj1 S1))
      as (s2 & E2 & S2 & Q2).
    exists s2. split; [exact E2|]. split; [eapply passStep_trans; eassumption|].
    intros a' [<-|Ha']; [apply (Hstable a s1 s2 S2 Q1) | apply Q2, Ha'].
Qed.

Section NakedSingle.
Context {L : Type}.
Variable ev : SimplificationCause -> GPos -> Z -> Z -> list Z -> L -> L.

Lemma eliminateAt_clears (cause : SimplificationCause) (by_ : Z) (peer_ : GPos)
    (v : Z) (s : PassState L) :
  validPos peer_ -> validValue v -> wfBoard (board s) ->
  exists s', eliminateAt ev cause by_ peer_ v s = Ok s'
             /\ passStep s s' /\ flag (board s') peer_ v = false.
Proof.
  intros Hp Hv Hwf.
  destruct (eliminateAt_step ev cause by_ peer_ v s Hp Hv Hwf) as (s' & E & S).
  exists s'. split; [exact E|]. split; [exact S|].
  revert E. unfold eliminateAt. rewrite isPossibleAt_flag, bind_Ok by assumption.
  destruct (flag (board s) peer_ v) eqn:Hon.
  - destruct (setPossibleAt_flags (board s) peer_ v false Hwf Hp Hv)
      as (b' & Eb & _ & Hoff & _).
    rewrite Eb. simpl. intros [= <-]. exact Hoff.
  - intros [= <-]. exact Hon.
Qed.

Lemma eliminateRow_clears (x y v : Z) (s : PassState L) :
  0 <= y <= 8 -> validValue v -> wfBoard (board s) ->
  exists s', eliminateRow ev x y v s = Ok s' /\ passStep s s'
             /\ forall cx, 0 <= cx <= 8 -> cx <> x ->
                           flag (board s') (mkGPos cx y) v = false.
Proof.
  intros Hy Hv Hwf. unfold eliminateRow.
  destruct (foldM_each (fun cx => 0 <= cx <= 8)
              (fun cx (st : PassState L) =>
                 0 <= cx <= 8 -> cx <> x -> flag (board st) (mkGPos cx y) v = false)
              (fun st cx =>
                 if cx =? x then Ok st
                 else eliminateAt ev ELIMINATION_BY_ROW y (mkGPos cx y) v st)
              range9 (fun a => proj1 (range9_In a))) with (s := s)
    as (s' & E & S & Q); auto.
  - intros cx s1 s2 S12 Q1 Hcx Hne.
    apply (passStep_off s1 s2); auto. split; assumption.
  - intros s1 cx Hcx Hwf1. destruct (Z.eqb_spec cx x) as [->|Hne].
    + exists s1. split; [reflexivity|].
      split; [apply passStep_refl, Hwf1 | intros _ Hc; contradiction].
    + destruct (eliminateAt_clears ELIMINATION_BY_ROW y (mkGPos cx y) v s1)
        as (s2 & E2 & S2 & Hoff); auto; [split; assumption|]. eauto.
  - exists s'. split; [exact E|]. split; [exact S|].
    intros cx Hcx Hne. apply Q; auto. apply range9_In, Hcx.
Qed.

Lemma eliminateColumn_clears (x y v : Z) (s : PassState L) :
  0 <= x <= 8 -> validValue v -> wfBoard (board s) ->
  exists s', eliminateColumn ev x y v s = Ok s' /\ passStep s s'
             /\ forall cy, 0 <= cy <= 8 -> cy <> y ->
                           flag (board s') (mkGPos x cy) v = false.
Proof.
  intros Hx Hv Hwf. unfold eliminateColumn.
  destruct (foldM_each (fun cy => 0 <= cy <= 8)
              (fun cy (st : PassState L) =>
                 0 <= cy <= 8 -> cy <> y -> flag (board st) (mkGPos x cy) v = false)
              (fun st cy =>
                 if cy =? y then Ok st
                 else eliminateAt ev ELIMINATION_BY_COLUMN x (mkGPos x cy) v st)
              range9 (fun a => proj1 (range9_In a))) with (s := s)
    as (s' & E & S & Q); auto.
  - intros cy s1 s2 S12 Q1 Hcy Hne.
    apply (passStep_off s1 s2); auto. split; assumption.
  - intros s1 cy Hcy Hwf1. destruct (Z.eqb_spec cy y) as [->|Hne].
    + exists s1. split; [reflexivity|].
      split; [apply passStep_refl, Hwf1 | intros _ Hc; contradiction].
    + destruct (eliminateAt_clears ELIMINATION_BY_COLUMN x (mkGPos x cy) v s1)
        as (s2 & E2 & S2 & Hoff); auto; [split; assumption|]. eauto.
  - exists s'. split; [exact E|]. split; [exact S|].
    intros cy Hcy Hne. apply Q; auto. apply range9_In, Hcy.
Qed.

Lemma eliminateChunk_clears (x y v : Z) (s : PassState L) :
  0 <= x <= 8 -> 0 <= y <= 8 -> validValue v -> wfBoard (board s) ->
  exists s', eliminateChunk ev x y v s = Ok s' /\ passStep s s'
             /\ forall bx by_, 0 <= bx <= 8 -> 0 <= by_ <= 8 ->
                  bx / 3 = x / 3 -> by_ / 3 = y / 3 -> samePos bx by_ x y = false ->
                  flag (board s') (mkGPos bx by_) v = false.
Proof.
  intros Hx Hy Hv Hwf. unfold eliminateChunk.
  set (xs := [x / 3 * 3; x / 3 * 3 + 1; x / 3 * 3 + 2]).
  set (ys := [y / 3 * 3; y / 3 * 3 + 1; y / 3 * 3 + 2]).
  destruct (foldM_each (fun by_ => 0 <= by_ <= 8)
              (fun by_ (st : PassState L) =>
                 0 <= by_ <= 8 ->
                 forall bx, In bx xs -> samePos bx by_ x y = false ->
                            flag (board st) (mkGPos bx by_) v = false)
              (fun st by_ =>
                 foldM (fun st bx =>
                          if samePos bx by_ x y then Ok st
                          else eliminateAt ev ELIMINATION_BY_CHUNK
                                 (x / 3 + 3 * (y / 3)) (mkGPos bx by_) v st)
                       xs st)
              ys (fun a => chunk_range y a Hy)) with (s := s)
    as (s' & E & S & Q); auto.
  - intros by_ s1 s2 S12 Q1 Hby bx Hbx Hsame.
    apply (passStep_off s1 s2); auto.
    split; [apply (chunk_range x bx Hx Hbx) | exact Hby].
  - intros s1 by_ Hby Hwf1.
    destruct (foldM_each (fun bx => 0 <= bx <= 8)
                (fun bx (st : PassState L) =>
                   0 <= bx <= 8 -> samePos bx by_ x y = false ->
                   flag (board st) (mkGPos bx by_) v = false)
                (fun st bx =>
                   if samePos bx by_ x y then Ok st
                   else eliminateAt ev ELIMINATION_BY_CHUNK
                          (x / 3 + 3 * (y / 3)) (mkGPos bx by_) v st)
                xs (fun a => chunk_range x a Hx)) with (s := s1)
      as (s2 & E2 & S2 & Q2); auto.
    + intros bx sa sb Sab Qa Hbx Hsame.
      apply (passStep_off sa sb); auto. split; assumption.
    + intros sa bx Hbx Hwfa. destruct (samePos bx by_ x y) eqn:Es.
      * exists sa. split; [reflexivity|].
        split; [apply passStep_refl, Hwfa | intros _ Hc; discriminate].
      * destruct (eliminateAt_clears ELIMINATION_BY_CHUNK (x / 3 + 3 * (y / 3))
                    (mkGPos bx by_) v sa) as (sb & Eb & Sb & Hoff); auto;
          [split; assumption|]. eauto.
    + exists s2. split; [exact E2|]. split; [exact S2|].
      intros _ bx Hbx Hsame. apply Q2; auto. apply (chunk_range x bx Hx Hbx).
  - exists s'. split; [exact E|]. split; [exact S|].
    intros bx by_ Hbx Hby Ex Ey Hsame.
    apply (Q by_); auto.
    + apply chunk_member; assumption.
    + apply chunk_member; assumption.
Qed.

(** A cell whose only candidate is [v]: the visit clears [v] at every cell
    of its row, its column and its chunk, and goes no further. *)
Lemma simplifyCell_naked (c : GPos) (v : Z) (s : PassState L) :
  validPos c -> validValue v -> wfBoard (board s) ->
  flag (board s) c v = true ->
  (forall w, validValue w -> w <> v -> flag (board s) c w = false) ->
  exists ok s',
    simplifyCell ev c s = Ok (ok, s') /\ passStep s s'
    /\ forall q, validPos q -> peer c q -> flag (board s') q v = false.
Proof.
  intros Hc Hv Hwf Hon Hoff.
  destruct (cellCount_single (board s) c v Hv Hoff) as [Hcnt Hlast].
  rewrite Hon in Hcnt. simpl in Hcnt. specialize (Hlast Hon).
  destruct c as [x y]. destruct Hc as [Hx Hy]. cbn [getX getY] in Hx, Hy.
  assert (Hc : validPos (mkGPos x y)) by (split; assumption).
  unfold simplifyCell. cbn [getX getY].
  rewrite getCellInfoAt_spec, bind_Ok by assumption. cbn [fst snd].
  rewrite Hcnt, Hlast. cbn [Z.eqb Pos.eqb].
  destruct (eliminateRow_clears x y v s Hy Hv Hwf) as (s1 & E1 & S1 & R1).
  destruct (eliminateColumn_clears x y v s1 Hx Hv (proj1 S1)) as (s2 & E2 & S2 & R2).
  destruct (eliminateChunk_clears x y v s2 Hx Hy Hv (proj1 S2))
    as (s3 & E3 & S3 & R3).
  rewrite E1, bind_Ok, E2, bind_Ok, E3, bind_Ok.
  assert (S03 : passStep s s3)
    by (eapply passStep_trans; [eapply passStep_trans|]; eassumption).
  assert (Hclear : forall q, validPos q -> peer (mkGPos x y) q ->
                             flag (board s3) q v = false).
  { intros [qx qy] [Hqx Hqy] [Hne Hhouse]. cbn [getX getY] in *.
    destruct (Z.eq_dec qy y) as [->|Hny].
    - assert (qx <> x) by congruence.
      apply (passStep_off s2 s3 _ _ S3); [split; assumption | assumption |].
      apply (passStep_off s1 s2 _ _ S2); [split; assumption | assumption |].
      apply R1; assumption.
    - destruct (Z.eq_dec qx x) as [->|Hnx].
      + apply (passStep_off s2 s3 _ _ S3); [split; assumption | assumption |].
        apply R2; assumption.
      + destruct Hhouse as [H|[H|[Hcx Hcy]]]; [congruence | congruence |].
        cbn [getX getY] in Hcx, Hcy.
        apply R3; auto. unfold samePos.
        apply andb_false_iff. left. apply Z.eqb_neq. exact Hnx. }
  rewrite getCellInfoAt_spec, bind_Ok by assumption. cbn [fst snd].
  pose proof (passStep_count s s3 (mkGPos x y) S03 Hc) as Hle.
  pose proof (cellCount_range (board s3) (mkGPos x y)) as Hr.
  destruct (Z.eqb_spec (cellCount (board s3) (mkGPos x y)) 0) as [E0|N0].
  { eexists _, _. split; [reflexivity|]. split; [|exact Hclear].
    eapply passStep_trans; [exact S03 | apply notify_step, (proj1 S03)]. }
  destruct (Z.eqb_spec (cellCount (board s3) (mkGPos x y)) 1) as [E1'|N1'];
    [|lia].
  eexists _, _. split; [reflexivity|]. split; [exact S03 | exact Hclear].
Qed.

(** On a list of cells to visit: a cell with no candidate but [v], once the
    visits returned [true], has had [v] cleared from all its peers. *)
Lemma simplifyCells_propagates (cells : list GPos) (c : GPos) (v : Z) :
  (forall q, In q cells -> validPos q) -> In c cells -> validValue v ->
  forall s s', wfBoard (board s) ->
    (forall w, validValue w -> w <> v -> flag (board s) c w = false) ->
    simplifyCells ev cells s = Ok (true, s') ->
    forall q, validPos q -> peer c q -> flag (board s') q v = false.
Proof.
  intros Hcells Hin Hv. induction cells as [|c0 cells IH]; [destruct Hin|].
  intros s s' Hwf Hoff. simpl.
  assert (Hc0 : validPos c0) by (apply Hcells; left; reflexivity).
  assert (Hrest : forall q, In q cells -> validPos q)
    by (intros; apply Hcells; right; assumption).
  destruct (decide (c0 = c)) as [->|Hne].
  - assert (Hc : validPos c) by exact Hc0.
    destruct (simplifyCell_step ev c s Hc Hwf) as (ok & s1 & E1 & S1 & Hpos).
    rewrite E1, bind_Ok. cbn [fst snd]. destruct ok; [|discriminate].
    specialize (Hpos eq_refl).
    assert (Hon : flag (board s) c v = true).
    { destruct (flag (board s) c v) eqn:Ef; [reflexivity|].
      assert (cellCount (board s) c = 0); [|lia].
      apply cellCount_zero. intros w Hw.
      destruct (Z.eq_dec w v) as [->|]; [exact Ef | auto]. }
    destruct (simplifyCell_naked c v s Hc Hv Hwf Hon Hoff)
      as (ok' & s1' & E1' & _ & Hclear).
    rewrite E1 in E1'. injection E1' as <- <-.
    intros Hrun q Hq Hpeer.
    destruct (simplifyCells_step ev cells Hrest s1 (proj1 S1))
      as (ok2 & s2 & E2 & S2 & _).
    rewrite E2 in Hrun. injection Hrun as -> ->.
    apply (passStep_off s1 s' _ _ S2); auto.
  - destruct Hin as [Heq|Hin]; [contradiction|].
    destruct (simplifyCell_step ev c0 s Hc0 Hwf) as (ok & s1 & E1 & S1 & _).
    rewrite E1, bind_Ok. cbn [fst snd]. destruct ok; [|discriminate].
    apply (IH Hrest Hin s1 s' (proj1 S1)).
    intros w Hw Hnv. apply (passStep_off s s1 _ _ S1); auto.
Qed.

Lemma simplifyCells_head_duplicate (cells : list GPos) (c a : GPos) (v : Z)
    (s : PassState L) :
  validPos c -> (forall q, In q cells -> validPos q) ->
  In a cells -> peer c a -> validValue v -> wfBoard (board s) ->
  (forall w, validValue w -> w <> v -> flag (board s) c w = false) ->
  (forall w, validValue w -> w <> v -> flag (board s) a w = false) ->
  exists s', simplifyCells ev (c :: cells) s = Ok (false, s').
Proof.
  intros Hc Hcells Hina Hpeer Hv Hwf Hoffc Hoffa. simpl.
  assert (Ha : validPos a) by auto.
  destruct (simplifyCell_step ev c s Hc Hwf) as (ok & s1 & E1 & S1 & Hpos).
  rewrite E1, bind_Ok. cbn [fst snd]. destruct ok; [|eauto].
  specialize (Hpos eq_refl).
  assert (Hon : flag (board s) c v = true).
  { destruct (flag (board s) c v) eqn:Ef; [reflexivity|].
    assert (cellCount (board s) c = 0); [|lia].
    apply cellCount_zero. intros w Hw.
    destruct (Z.eq_dec w v) as [->|]; [exact Ef | auto]. }
  destruct (simplifyCell_naked c v s Hc Hv Hwf Hon Hoffc)
    as (ok' & s1' & E1' & _ & Hclear).
  rewrite E1 in E1'. injection E1' as <- <-.
  destruct (simplifyCells_empty ev cells s1 a Hcells (proj1 S1) Hina)
    as (s' & E & _); [|eauto].
  apply cellCount_zero. intros w Hw.
  destruct (Z.eq_dec w v) as [->|Hne]; [apply Hclear; assumption|].
  apply (passStep_off s s1 _ _ S1); auto.
Qed.

(** Two peers with no candidate but the same [v]: the visits end in
    [false]. *)
Lemma simplifyCells_duplicate (cells : list GPos) (c1 c2 : GPos) (v : Z) :
  (forall q, In q cells -> validPos q) ->
  In c1 cells -> In c2 cells -> peer c1 c2 -> validValue v ->
  forall s, wfBoard (board s) ->
    (forall w, validValue w -> w <> v -> flag (board s) c1 w = false) ->
    (forall w, validValue w -> w <> v -> flag (board s) c2 w = false) ->
    exists s', simplifyCells ev cells s = Ok (false, s').
Proof.
  intros Hcells Hin1 Hin2 Hpeer Hv.
  induction cells as [|c0 cells IH]; [destruct Hin1|].
  intros s Hwf Hoff1 Hoff2.
  assert (Hc0 : validPos c0) by (apply Hcells; left; reflexivity).
  assert (Hrest : forall q, In q cells -> validPos q)
    by (intros; apply Hcells; right; assumption).
  assert (Hne12 : c1 <> c2) by (destruct Hpeer; assumption).
  destruct (decide (c0 = c1)) as [->|Hne1].
  - destruct Hin2 as [Heq|Hin2]; [contradiction|].
    apply (simplifyCells_head_duplicate cells c1 c2 v); auto.
  - destruct (decide (c0 = c2)) as [->|Hne2].
    + destruct Hin1 as [Heq|Hin1]; [congruence|].
      apply (simplifyCells_head_duplicate cells c2 c1 v); auto.
      apply peer_sym, Hpeer.
    + destruct Hin1 as [Heq|Hin1]; [contradiction|].
      destruct Hin2 as [Heq|Hin2]; [contradiction|].
      simpl.
      destruct (simplifyCell_step ev c0 s Hc0 Hwf) as (ok & s1 & E1 & S1 & _).
      rewrite E1, bind_Ok. cbn [fst snd]. destruct ok; [|eauto].
      apply (IH Hrest Hin1 Hin2 s1 (proj1 S1)).
      * intros w Hw Hnv. apply (passStep_off s s1 _ _ S1); auto.
      * intros w Hw Hnv. apply (passStep_off s s1 _ _ S1); auto.
Qed.

End NakedSingle.

Lemma single_cell (b : list Z) (c : GPos) (v : Z) :
  validPos c -> getCellInfoAt b c = Ok (v, 1) ->
  validValue v /\ flag b c v = true
  /\ forall w, validValue w -> w <> v -> flag b c w = false.
Proof.
  intros Hc. rewrite getCellInfoAt_spec by assumption. intros Heq.
  assert (Hcnt : cellCount b c = 1).
  { apply (f_equal (omap snd)) in Heq. cbn [omap snd] in Heq. congruence. }
  assert (Hv : lastSet (flag b c) values 0 = v).
  { apply (f_equal (omap fst)) in Heq. cbn [omap fst] in Heq.
    rewrite Hcnt in Heq. change (1 =? 1) with true in Heq. cbv iota in Heq.
    congruence. }
  pose proof (onlyValue_spec b c Hcnt) as Hspec. cbv zeta in Hspec.
  rewrite Hv in Hspec. destruct Hspec as (Hval & Hon & Huniq).
  split; [exact Hval|]. split; [exact Hon|].
  intros w Hw Hne. destruct (flag b c w) eqn:E; [|reflexivity].
  elim Hne. apply Huniq; assumption.
Qed.

(** X10. Naked singles propagate.  If a cell has exactly one candidate [v]
    when a pass starts and the pass returns [true], then on the board the
    pass leaves [v] is possible at no other cell of its row, of its column
    or of its chunk. *)
Theorem naked_single_propagates {L : Type}
    (ev : SimplificationCause -> GPos -> Z -> Z -> list Z -> L -> L)
    (b : list Z) (l : L) (c : GPos) (v : Z) :
  wfBoard b -> validPos c -> getCellInfoAt b c = Ok (v, 1) ->
  exists ok s',
    simplify ev b l = Ok (ok, s')
    /\ (ok = true ->
        forall q, validPos q -> peer c q -> isPossibleAt (board s') q v = Ok false).
Proof.
  intros Hwf Hc Hinfo.
  destruct (single_cell b c v Hc Hinfo) as (Hv & _ & Hoff).
  destruct (simplifyCells_step ev allCells (fun q => proj1 (allCells_valid q))
              (mkPass b 0 l) Hwf) as (ok & s' & E & _).
  exists ok, s'. split; [exact E|]. intros -> q Hq Hpeer.
  rewrite isPossibleAt_flag by assumption. f_equal.
  apply (simplifyCells_propagates ev allCells c v
           (fun q => proj1 (allCells_valid q)) (proj2 (allCells_valid c) Hc) Hv
           (mkPass b 0 l) s' Hwf Hoff E q Hq Hpeer).
Qed.

Lemma naked_single_propagates_witness :
  exists ok s',
    simplify (@silentEvent unit) singleClue tt = Ok (ok, s')
    /\ (ok = true ->
        forall q, validPos q -> peer (mkGPos 4 4) q ->
                  isPossibleAt (board s') q 5 = Ok false).
Proof.
  apply (naked_single_propagates silentEvent singleClue tt (mkGPos 4 4) 5).
  - reflexivity.
  - unfold validPos; simpl; lia.
  - vm_compute. reflexivity.
Defined.

(** X11. Two cells of one house (row, column or chunk) that both have the
    same value as their only candidate: the pass returns [false] and leaves
    a board with an empty cell. *)
Theorem duplicate_single_contradiction {L : Type}
    (ev : SimplificationCause -> GPos -> Z -> Z -> list Z -> L -> L)
    (b : list Z) (l : L) (c1 c2 : GPos) (v : Z) :
  wfBoard b -> validPos c1 -> validPos c2 -> peer c1 c2 ->
  getCellInfoAt b c1 = Ok (v, 1) -> getCellInfoAt b c2 = Ok (v, 1) ->
  exists s',
    simplify ev b l = Ok (false, s')
    /\ hasContradiction (board s') = Ok true.
Proof.
  intros Hwf Hc1 Hc2 Hpeer Hi1 Hi2.
  destruct (single_cell b c1 v Hc1 Hi1) as (Hv & _ & Hoff1).
  destruct (single_cell b c2 v Hc2 Hi2) as (_ & _ & Hoff2).
  destruct (simplifyCells_duplicate ev allCells c1 c2 v
              (fun q => proj1 (allCells_valid q))
              (proj2 (allCells_valid c1) Hc1) (proj2 (allCells_valid c2) Hc2)
              Hpeer Hv (mkPass b 0 l) Hwf Hoff1 Hoff2) as (s' & E).
  exists s'. split; [exact E|].
  destruct (simplifyCells_stops ev allCells (fun q => proj1 (allCells_valid q))
              (mkPass b 0 l) s' Hwf E) as (c & Hin & Hz).
  unfold hasContradiction. rewrite scanCounts_spec by (intros q; apply allCells_valid).
  f_equal. apply existsb_exists. exists c. split; [exact Hin | apply Z.eqb_eq, Hz].
Qed.

Lemma duplicate_single_contradiction_witness :
  exists s',
    simplify (@silentEvent unit) twoFives tt = Ok (false, s')
    /\ hasContradiction (board s') = Ok true.
Proof.
  apply (duplicate_single_contradiction silentEvent twoFives tt
           (mkGPos 0 0) (mkGPos 1 0) 5).
  - reflexivity.
  - unfold validPos; simpl; lia.
  - unfold validPos; simpl; lia.
  - split; [intros [=] | left; reflexivity].
  - vm_compute. reflexivity.
  - vm_compute. reflexivity.
Defined.

(** ** The elimination counter *)

Lemma wrap32_small (z : Z) : 0 <= z < 2 ^ 32 -> wrap32 z = z.
Proof. intros H. unfold wrap32. apply Z.mod_small. exact H. Qed.

Lemma elimBound_refl {L : Type} (k : Z) (s : PassState L) :
  0 <= k -> elimBound k s s.
Proof. intros Hk. split; [lia | reflexivity]. Qed.

Lemma elimBound_trans {L : Type} (k1 k2 : Z) (s1 s2 s3 : PassState L) :
  elimBound k1 s1 s2 -> elimBound k2 s2 s3 -> elimBound (k1 + k2) s1 s3.
Proof.
  intros [H1 E1] [H2 E2]. split; [lia|]. intros E.
  assert (Ea : eliminations s2 = eliminations s1) by lia.
  assert (Eb : eliminations s3 = eliminations s2) by lia.
  rewrite (E2 Eb). exact (E1 Ea).
Qed.

Lemma elimBound_weaken {L : Type} (k k' : Z) (s s' : PassState L) :
  k <= k' -> elimBound k s s' -> elimBound k' s s'.
Proof. intros Hk [H E]. split; [lia | exact E]. Qed.

Lemma foldM_bound {L A : Type} (k : Z) (P : A -> Prop)
    (f : PassState L -> A -> outcome (PassState L)) (l : list A) :
  0 <= k -> (forall a, In a l -> P a) ->
  (forall s a s', P a -> 0 <= eliminations s -> eliminations s + k < 2 ^ 32 ->
                  f s a = Ok s' -> elimBound k s s') ->
  forall s s',
    0 <= eliminations s -> eliminations s + k * Z.of_nat (length l) < 2 ^ 32 ->
    foldM f l s = Ok s' -> elimBound (k * Z.of_nat (length l)) s s'.
Proof.
  intros Hk Hl Hf. induction l as [|a l IH]; intros s s' H0 Hlim.
  - simpl. intros [= <-]. apply elimBound_refl. lia.
  - cbn [foldM]. destruct (f s a) as [s1|] eqn:E1; [|discriminate].
    rewrite bind_Ok. intros E2.
    assert (Hlen : Z.of_nat (length (a :: l)) = 1 + Z.of_nat (length l))
      by (simpl length; lia).
    rewrite Hlen in *.
    pose proof (Hf s a s1 (Hl a (or_introl eq_refl)) H0 ltac:(nia) E1) as B1.
    destruct B1 as [B1 B1'].
    assert (B2 : elimBound (k * Z.of_nat (length l)) s1 s').
    { apply IH; auto; [intros; apply Hl; right; assumption | lia | nia]. }
    replace (k * (1 + Z.of_nat (length l))) with (k + k * Z.of_nat (length l)) by lia.
    apply (elimBound_trans k _ s s1 s'); [split; assumption | exact B2].
Qed.

Section Counter.
Context {L : Type}.
Variable ev : SimplificationCause -> GPos -> Z -> Z -> list Z -> L -> L.

Lemma eliminateAt_bound (cause : SimplificationCause) (by_ : Z) (peer_ : GPos)
    (v : Z) (s s' : PassState L) :
  0 <= eliminations s -> eliminations s + 1 < 2 ^ 32 ->
  eliminateAt ev cause by_ peer_ v s = Ok s' -> elimBound 1 s s'.
Proof.
  intros H0 Hlim. unfold eliminateAt.
  destruct (isPossibleAt (board s) peer_ v) as [[|]|]; simpl; try discriminate.
  - destruct (setPossibleAt (board s) peer_ v false) as [[?|?] ?]; simpl;
      [|discriminate].
    intros [= <-]. unfold elimBound. simpl.
    rewrite wrap32_small by lia. split; lia.
  - intros [= <-]. apply elimBound_refl. lia.
Qed.

Lemma eliminateRow_bound (x y v : Z) (s s' : PassState L) :
  0 <= eliminations s -> eliminations s + 9 < 2 ^ 32 ->
  eliminateRow ev x y v s = Ok s' -> elimBound 9 s s'.
Proof.
  intros H0 Hlim E.
  apply (foldM_bound 1 (fun _ => True) _ range9) in E; auto; try lia.
  intros s1 cx s2 _ Ha Hb. destruct (cx =? x).
  - intros [= <-]. apply elimBound_refl. lia.
  - apply eliminateAt_bound; assumption.
Qed.

Lemma eliminateColumn_bound (x y v : Z) (s s' : PassState L) :
  0 <= eliminations s -> eliminations s + 9 < 2 ^ 32 ->
  eliminateColumn ev x y v s = Ok s' -> elimBound 9 s s'.
Proof.
  intros H0 Hlim E.
  apply (foldM_bound 1 (fun _ => True) _ range9) in E; auto; try lia.
  intros s1 cy s2 _ Ha Hb. destruct (cy =? y).
  - intros [= <-]. apply elimBound_refl. lia.
  - apply eliminateAt_bound; assumption.
Qed.

Lemma eliminateChunk_bound (x y v : Z) (s s' : PassState L) :
  0 <= eliminations s -> eliminations s + 9 < 2 ^ 32 ->
  eliminateChunk ev x y v s = Ok s' -> elimBound 9 s s'.
Proof.
  intros H0 Hlim E. unfold eliminateChunk in E.
  apply (foldM_bound 3 (fun _ => True)) in E; auto; try (simpl length; lia).
  intros s1 by_ s2 _ Ha Hb E1.
  apply (foldM_bound 1 (fun _ => True)) in E1; auto; try (simpl length; lia).
  intros s3 bx s4 _ Hc Hd. destruct (samePos bx by_ x y).
  - intros [= <-]. apply elimBound_refl. lia.
  - apply eliminateAt_bound; assumption.
Qed.

Lemma maybeSure_bound (success : bool) (cause : SimplificationCause) (by_ : Z)
    (selfPos : GPos) (v cnt : Z) (s s' : PassState L) :
  2 <= cnt <= 9 -> 0 <= eliminations s -> eliminations s + 8 < 2 ^ 32 ->
  (if success then valueSure ev cause by_ selfPos v cnt s else Ok s) = Ok s' ->
  elimBound 8 s s'.
Proof.
  intros Hcnt H0 Hlim. destruct success.
  - unfold valueSure. simpl.
    destruct (makeSureAt (board s) selfPos v false); simpl; [|discriminate].
    intros [= <-]. unfold elimBound. simpl.
    rewrite wrap32_small by lia. split; lia.
  - intros [= <-]. apply elimBound_refl. lia.
Qed.

Lemma hiddenSingleAt_bound (x y cnt : Z) (s : PassState L) (v : Z)
    (s' : PassState L) :
  2 <= cnt <= 9 -> 0 <= eliminations s -> eliminations s + 24 < 2 ^ 32 ->
  hiddenSingleAt ev x y cnt s v = Ok s' -> elimBound 24 s s'.
Proof.
  intros Hcnt H0 Hlim. unfold hiddenSingleAt.
  destruct (isPossibleAt (board s) (mkGPos x y) v) as [[|]|]; cbn [bind negb];
    try discriminate; [|intros [= <-]; apply elimBound_refl; lia].
  destruct (rowUnique (board s) x y v) as [r1|]; cbn [bind]; [|discriminate].
  destruct (if r1 then _ else _) as [s1|] eqn:E1; cbn [bind]; [|discriminate].
  apply maybeSure_bound in E1; [|assumption|assumption|lia].
  destruct (colUnique (board s1) x y v) as [r2|]; cbn [bind]; [|discriminate].
  destruct (if r2 then _ else _) as [s2|] eqn:E2; cbn [bind]; [|discriminate].
  apply maybeSure_bound in E2; [|assumption|destruct E1; lia|destruct E1; lia].
  destruct (chunkUnique (board s2) x y v) as [r3|]; cbn [bind]; [|discriminate].
  intros E3.
  apply maybeSure_bound in E3;
    [|assumption|destruct E1, E2; lia|destruct E1, E2; lia].
  apply (elimBound_trans 16 8 s s2 s'); [|exact E3].
  apply (elimBound_trans 8 8 s s1 s2); assumption.
Qed.

Lemma notify_bound (k : Z) (cause : SimplificationCause) (cell : GPos)
    (v by_ : Z) (s s1 : PassState L) :
  elimBound k s s1 -> elimBound k s (notify ev cause cell v by_ s1).
Proof. intros [H E]. split; simpl; assumption. Qed.

Lemma simplifyCell_bound (c : GPos) (s : PassState L) (r : bool * PassState L) :
  validPos c -> 0 <= eliminations s -> eliminations s + 243 < 2 ^ 32 ->
  simplifyCell ev c s = Ok r -> elimBound 243 s (snd r).
Proof.
  intros Hc H0 Hlim. unfold simplifyCell.
  rewrite getCellInfoAt_spec, bind_Ok by assumption. cbn [fst snd].
  destruct (cellCount (board s) c =? 0);
    [intros [= <-]; apply notify_bound, elimBound_refl; lia|].
  destruct (if cellCount (board s) c =? 1 then _ else _) as [s1|] eqn:E1;
    [|discriminate].
  assert (B1 : elimBound 27 s s1).
  { destruct (cellCount (board s) c =? 1);
      [|injection E1 as <-; apply elimBound_refl; lia].
    destruct (eliminateRow _ _ _ _ s) as [sa|] eqn:Ea; [|discriminate].
    rewrite bind_Ok in E1.
    destruct (eliminateColumn _ _ _ _ sa) as [sb|] eqn:Eb; [|discriminate].
    rewrite bind_Ok in E1.
    apply eliminateRow_bound in Ea; [|assumption|lia].
    apply eliminateColumn_bound in Eb; [|destruct Ea; lia|destruct Ea; lia].
    apply eliminateChunk_bound in E1;
      [|destruct Ea, Eb; lia|destruct Ea, Eb; lia].
    apply (elimBound_trans 18 9 s sb s1); [|exact E1].
    apply (elimBound_trans 9 9 s sa sb); assumption. }
  rewrite bind_Ok, getCellInfoAt_spec, bind_Ok by assumption. cbn [fst snd].
  pose proof (cellCount_range (board s1) c) as Hr.
  destruct (Z.eqb_spec (cellCount (board s1) c) 0) as [E0|N0];
    [intros [= <-]; apply notify_bound, (elimBound_weaken 27); [lia | exact B1]|].
  destruct (Z.eqb_spec (cellCount (board s1) c) 1) as [E1'|N1'];
    [intros [= <-]; apply (elimBound_weaken 27); [lia | exact B1]|].
  destruct (foldM _ values s1) as [s2|] eqn:E2; [|discriminate].
  rewrite bind_Ok. intros [= <-]. cbn [snd].
  apply (foldM_bound 24 (fun _ => True)) in E2; auto;
    try (simpl length; destruct B1; lia).
  - apply (elimBound_trans 27 216 s s1 s2); [exact B1 | exact E2].
  - intros sa v sb _ Ha Hb. apply hiddenSingleAt_bound; auto. lia.
Qed.

Lemma simplifyCells_bound (cells : list GPos) :
  (forall c, In c cells -> validPos c) ->
  forall (s : PassState L) (r : bool * PassState L),
    0 <= eliminations s ->
    eliminations s + 243 * Z.of_nat (length cells) < 2 ^ 32 ->
    simplifyCells ev cells s = Ok r ->
    elimBound (243 * Z.of_nat (length cells)) s (snd r).
Proof.
  induction cells as [|c cells IH]; intros Hcells s r H0 Hlim.
  - simpl. intros [= <-]. apply elimBound_refl. lia.
  - cbn [simplifyCells].
    destruct (simplifyCell ev c s) as [r1|] eqn:E1; [|discriminate].
    rewrite bind_Ok.
    assert (Hlen : Z.of_nat (length (c :: cells)) = 1 + Z.of_nat (length cells))
      by (simpl length; lia).
    rewrite Hlen in *.
    apply simplifyCell_bound in E1; [|apply Hcells; left; reflexivity|lia|lia].
    destruct (fst r1).
    + intros E2. apply IH in E2;
        [|intros; apply Hcells; right; assumption|destruct E1; lia|destruct E1; lia].
      replace (243 * (1 + Z.of_nat (length cells)))
        with (243 + 243 * Z.of_nat (length cells)) by lia.
      apply (elimBound_trans 243 _ s (snd r1) (snd r)); assumption.
    + intros [= <-]. apply (elimBound_weaken 243); [lia | exact E1].
Qed.

End Counter.

(** The counter of a whole pass: no wrap-around, and zero only if the board
    is as it was. *)
Lemma simplify_counter {L : Type}
    (ev : SimplificationCause -> GPos -> Z -> Z -> list Z -> L -> L)
    (b : list Z) (l : L) (ok : bool) (s' : PassState L) :
  simplify ev b l = Ok (ok, s') ->
  0 <= eliminations s' <= 19683 /\ (eliminations s' = 0 -> board s' = b).
Proof.
  unfold simplify. intros E.
  apply simplifyCells_bound in E;
    [|intros c; apply allCells_valid|simpl; lia|rewrite allCells_length; simpl; lia].
  rewrite allCells_length in E. destruct E as [Hb He]. simpl in Hb, He.
  split; [lia | exact He].
Qed.

(** X12. The count [simplify] reports cannot wrap around: it lies between 0
    and 19683; and it is 0 exactly when the pass left the array as it was.
    So a pass that reports nothing has changed nothing (which is what lets
    [simplifyToTheEnd] stop on a zero count). *)
Theorem simplify_zero_iff_unchanged {L : Type}
    (ev : SimplificationCause -> GPos -> Z -> Z -> list Z -> L -> L)
    (b : list Z) (l : L) :
  wfBoard b ->
  exists ok s',
    simplify ev b l = Ok (ok, s')
    /\ 0 <= eliminations s' <= 19683
    /\ (eliminations s' = 0 <-> board s' = b).
Proof.
  intros Hwf.
  destruct (simplifyCells_step ev allCells (fun c => proj1 (allCells_valid c))
              (mkPass b 0 l) Hwf) as (ok & s' & E & (_ & _ & Hcase) & _).
  destruct (simplify_counter ev b l ok s' E) as [Hr Hz].
  exists ok, s'. split; [exact E|]. split; [exact Hr|]. split; [exact Hz|].
  intros Hb. simpl in Hcase. destruct Hcase as [[_ He]|Hlt]; [exact He|].
  rewrite Hb in Hlt. lia.
Qed.

Lemma simplify_zero_iff_unchanged_witness :
  exists ok s',
    simplify (@silentEvent unit) fourOnes tt = Ok (ok, s')
    /\ 0 <= eliminations s' <= 19683
    /\ (eliminations s' = 0 <-> board s' = fourOnes).
Proof.
  apply (simplify_zero_iff_unchanged silentEvent fourOnes tt). reflexivity.
Defined.

(** ** Houses of a completed grid *)

Lemma fits_flag (g : GPos -> Z) (b : list Z) :
  validGrid g ->
  (fits g b <-> forall p, validPos p -> flag b p (g p) = true).
Proof.
  intros [Hval _]. unfold fits. split; intros H p Hp; specialize (H p Hp).
  - rewrite isPossibleAt_flag in H by auto. congruence.
  - rewrite isPossibleAt_flag by auto. congruence.
Qed.

(** Pigeonhole: the nine cells of a house carry nine different values of
    1..9, hence every value. *)
Lemma house_covers (g : GPos -> Z) (cs : list GPos) (v : Z) :
  validGrid g -> house cs -> validValue v -> exists c, In c cs /\ g c = v.
Proof.
  intros [Hval Hdiff] (Hnd & Hlen & Hcs & Hpeer) Hv.
  assert (Hnd' : List.NoDup (map g cs)).
  { apply NoDup_map_NoDup_ForallPairs; [|exact Hnd].
    intros c d Hc Hd E. destruct (decide (c = d)) as [|Hne]; [assumption|].
    exfalso. apply (Hdiff c d); auto. }
  assert (Hincl : incl values (map g cs)).
  { apply NoDup_length_incl; [exact Hnd' | rewrite List.length_map, Hlen; simpl; lia |].
    intros w Hw. apply in_map_iff in Hw as (c & <- & Hc).
    apply values_valid, Hval, Hcs, Hc. }
  specialize (Hincl v (proj2 (values_valid v) Hv)).
  apply in_map_iff in Hincl as (c & E & Hc). eauto.
Qed.

(** A value that no other cell of a house can take belongs to the cell, in
    every grid that is still possible. *)
Lemma hidden_single_value (g : GPos -> Z) (b : list Z) (cs : list GPos)
    (p : GPos) (v : Z) :
  validGrid g -> fits g b -> house cs -> validValue v ->
  (forall c, In c cs -> c <> p -> flag b c v = false) -> g p = v.
Proof.
  intros Hg Hfit Hh Hv Hoff.
  destruct (house_covers g cs v Hg Hh Hv) as (c & Hc & E).
  destruct (decide (c = p)) as [->|Hne]; [exact E|].
  pose proof (proj1 (fits_flag g b Hg) Hfit c) as Hon.
  destruct Hh as (_ & _ & Hcs & _).
  rewrite E, (Hoff c Hc Hne) in Hon. specialize (Hon (Hcs c Hc)). discriminate.
Qed.

Lemma range9_NoDup : List.NoDup range9.
Proof. apply increasing_NoDup. reflexivity. Qed.

Lemma rowCells_In (y : Z) (c : GPos) :
  In c (rowCells y) <-> 0 <= getX c <= 8 /\ getY c = y.
Proof.
  unfold rowCells. rewrite in_map_iff. split.
  - intros (cx & <- & Hcx). apply range9_In in Hcx. auto.
  - intros [Hx <-]. exists (getX c). split; [destruct c; reflexivity|].
    apply range9_In, Hx.
Qed.

Lemma colCells_In (x : Z) (c : GPos) :
  In c (colCells x) <-> getX c = x /\ 0 <= getY c <= 8.
Proof.
  unfold colCells. rewrite in_map_iff. split.
  - intros (cy & <- & Hcy). apply range9_In in Hcy. auto.
  - intros [<- Hy]. exists (getY c). split; [destruct c; reflexivity|].
    apply range9_In, Hy.
Qed.

Lemma rowCells_house (y : Z) : 0 <= y <= 8 -> house (rowCells y).
Proof.
  intros Hy. split; [|split; [reflexivity|split]].
  - apply NoDup_map_NoDup_ForallPairs; [|exact range9_NoDup].
    intros a c _ _ [= E]. exact E.
  - intros c Hc. apply rowCells_In in Hc as [Hx <-]. split; assumption.
  - intros c d Hc Hd Hne. apply rowCells_In in Hc as [_ Hc].
    apply rowCells_In in Hd as [_ Hd]. split; [exact Hne|]. left. congruence.
Qed.

Lemma colCells_house (x : Z) : 0 <= x <= 8 -> house (colCells x).
Proof.
  intros Hx. split; [|split; [reflexivity|split]].
  - apply NoDup_map_NoDup_ForallPairs; [|exact range9_NoDup].
    intros a c _ _ [= E]. exact E.
  - intros c Hc. apply colCells_In in Hc as [<- Hy]. split; assumption.
  - intros c d Hc Hd Hne. apply colCells_In in Hc as [Hc _].
    apply colCells_In in Hd as [Hd _]. split; [exact Hne|]. right. left.
    congruence.
Qed.

Lemma chunk_div (z c : Z) :
  In c [z / 3 * 3; z / 3 * 3 + 1; z / 3 * 3 + 2] -> c / 3 = z / 3.
Proof.
  intros [<-|[<-|[<-|[]]]].
  - apply Z.div_mul. lia.
  - rewrite Z.div_add_l by lia. change (1 / 3) with 0. lia.
  - rewrite Z.div_add_l by lia. change (2 / 3) with 0. lia.
Qed.

Lemma chunkCells_In (x y : Z) (c : GPos) :
  In c (chunkCells x y) <->
  In (getX c) [x / 3 * 3; x / 3 * 3 + 1; x / 3 * 3 + 2]
  /\ In (getY c) [y / 3 * 3; y / 3 * 3 + 1; y / 3 * 3 + 2].
Proof.
  unfold chunkCells. rewrite in_flat_map. split.
  - intros (by_ & Hby & Hc). apply in_map_iff in Hc as (bx & <- & Hbx).
    split; assumption.
  - intros [Hx Hy]. exists (getY c). split; [exact Hy|].
    apply in_map_iff. exists (getX c). split; [destruct c; reflexivity | exact Hx].
Qed.

Lemma chunkCells_NoDup (kx ky : Z) :
  0 <= kx < 3 -> 0 <= ky < 3 ->
  List.NoDup
    (flat_map (fun by_ => map (fun bx => mkGPos bx by_)
                            [kx * 3; kx * 3 + 1; kx * 3 + 2])
              [ky * 3; ky * 3 + 1; ky * 3 + 2]).
Proof.
  intros Hx Hy.
  assert (Ex : kx = 0 \/ kx = 1 \/ kx = 2) by lia.
  assert (Ey : ky = 0 \/ ky = 1 \/ ky = 2) by lia.
  destruct Ex as [-> | [-> | ->]], Ey as [-> | [-> | ->]];
    apply (NoDup_map_inv cellIndex); apply increasing_NoDup; reflexivity.
Qed.

Lemma chunkCells_house (x y : Z) :
  0 <= x <= 8 -> 0 <= y <= 8 -> house (chunkCells x y).
Proof.
  intros Hx Hy.
  assert (0 <= x / 3 < 3)
    by (split; [apply Z.div_pos | apply Z.div_lt_upper_bound]; lia).
  assert (0 <= y / 3 < 3)
    by (split; [apply Z.div_pos | apply Z.div_lt_upper_bound]; lia).
  split; [|split; [reflexivity|split]].
  - apply chunkCells_NoDup; assumption.
  - intros c Hc. apply chunkCells_In in Hc as [Hcx Hcy].
    split; [apply (chunk_range x) | apply (chunk_range y)]; assumption.
  - intros c d Hc Hd Hne. apply chunkCells_In in Hc as [Hcx Hcy].
    apply chunkCells_In in Hd as [Hdx Hdy].
    apply chunk_div in Hcx, Hcy, Hdx, Hdy.
    split; [exact Hne|]. right. right. split; congruence.
Qed.

(** ** What the hidden-single tests establish *)

Lemma rowUnique_true (b : list Z) (x y v : Z) :
  0 <= y <= 8 -> validValue v -> rowUnique b x y v = Ok true ->
  forall c, In c (rowCells y) -> c <> mkGPos x y -> flag b c v = false.
Proof.
  intros Hy Hv. unfold rowUnique.
  assert (Hgen : forall l init,
             (forall cx, In cx l -> 0 <= cx <= 8) ->
             foldM (fun (success : bool) cx =>
                      if cx =? x then Ok success
                      else let* p := isPossibleAt b (mkGPos cx y) v in
                           Ok (if p then false else success)) l init = Ok true ->
             init = true
             /\ forall cx, In cx l -> cx <> x -> flag b (mkGPos cx y) v = false).
  { induction l as [|cx l IH]; intros init Hl; cbn [foldM].
    - intros [= ->]. split; [reflexivity | intros ? []].
    - assert (Hrest : forall c, In c l -> 0 <= c <= 8)
        by (intros; apply Hl; right; assumption).
      destruct (Z.eqb_spec cx x) as [->|Hne]; rewrite ?bind_Ok.
      + intros E. destruct (IH init Hrest E) as [Hi Hoff].
        split; [exact Hi|]. intros c [<-|Hc] Hcx; [contradiction | auto].
      + rewrite isPossibleAt_flag, !bind_Ok
          by first [assumption | split; [apply Hl; left; reflexivity | assumption]].
        intros E. destruct (IH _ Hrest E) as [Hi Hoff].
        destruct (flag b (mkGPos cx y) v) eqn:Hon; [discriminate|].
        split; [exact Hi|]. intros c [<-|Hc] Hcx; [exact Hon | auto]. }
  intros E c Hc Hne.
  destruct (Hgen range9 true (fun cx => proj1 (range9_In cx)) E) as [_ Hoff].
  apply rowCells_In in Hc as [Hcx Hcy]. destruct c as [cx cy]. simpl in *.
  subst cy. apply Hoff; [apply range9_In, Hcx | congruence].
Qed.

Lemma colUnique_true (b : list Z) (x y v : Z) :
  0 <= x <= 8 -> validValue v -> colUnique b x y v = Ok true ->
  forall c, In c (colCells x) -> c <> mkGPos x y -> flag b c v = false.
Proof.
  intros Hx Hv. unfold colUnique.
  assert (Hgen : forall l init,
             (forall cy, In cy l -> 0 <= cy <= 8) ->
             foldM (fun (success : bool) cy =>
                      if cy =? y then Ok success
                      else let* p := isPossibleAt b (mkGPos x cy) v in
                           Ok (if p then false else success)) l init = Ok true ->
             init = true
             /\ forall cy, In cy l -> cy <> y -> flag b (mkGPos x cy) v = false).
  { induction l as [|cy l IH]; intros init Hl; cbn [foldM].
    - intros [= ->]. split; [reflexivity | intros ? []].
    - assert (Hrest : forall c, In c l -> 0 <= c <= 8)
        by (intros; apply Hl; right; assumption).
      destruct (Z.eqb_spec cy y) as [->|Hne]; rewrite ?bind_Ok.
      + intros E. destruct (IH init Hrest E) as [Hi Hoff].
        split; [exact Hi|]. intros c [<-|Hc] Hcy; [contradiction | auto].
      + rewrite isPossibleAt_flag, !bind_Ok
          by first [assumption | split; [assumption | apply Hl; left; reflexivity]].
        intros E. destruct (IH _ Hrest E) as [Hi Hoff].
        destruct (flag b (mkGPos x cy) v) eqn:Hon; [discriminate|].
        split; [exact Hi|]. intros c [<-|Hc] Hcy; [exact Hon | auto]. }
  intros E c Hc Hne.
  destruct (Hgen range9 true (fun cy => proj1 (range9_In cy)) E) as [_ Hoff].
  apply colCells_In in Hc as [Hcx Hcy]. destruct c as [cx cy]. simpl in *.
  subst cx. apply Hoff; [apply range9_In, Hcy | congruence].
Qed.

Lemma samePos_false (bx by_ x y : Z) :
  samePos bx by_ x y = false <-> mkGPos bx by_ <> mkGPos x y.
Proof.
  unfold samePos. rewrite andb_false_iff, !Z.eqb_neq. split.
  - intros H [= -> ->]. destruct H; congruence.
  - intros H. destruct (Z.eq_dec bx x) as [->|]; [|auto].
    right. congruence.
Qed.

Lemma chunkRowUnique_true (b : list Z) (x y v by_ : Z) (bxs : list Z) :
  0 <= by_ <= 8 -> validValue v -> (forall bx, In bx bxs -> 0 <= bx <= 8) ->
  chunkRowUnique b x y v by_ bxs = Ok true ->
  forall bx, In bx bxs -> mkGPos bx by_ <> mkGPos x y ->
             flag b (mkGPos bx by_) v = false.
Proof.
  intros Hby Hv. induction bxs as [|bx bxs IH]; intros Hbxs; cbn [chunkRowUnique].
  - intros _ ? [].
  - assert (Hrest : forall c, In c bxs -> 0 <= c <= 8)
      by (intros; apply Hbxs; right; assumption).
    destruct (samePos bx by_ x y) eqn:Hsame.
    + intros E c [<-|Hc] Hne; [|apply IH; assumption].
      apply samePos_false in Hne. congruence.
    + rewrite isPossibleAt_flag, bind_Ok
        by first [assumption | split; [apply Hbxs; left; reflexivity | assumption]].
      destruct (flag b (mkGPos bx by_) v) eqn:Hon; [discriminate|].
      intros E c [<-|Hc] Hne; [exact Hon | apply IH; assumption].
Qed.

Lemma chunkUniqueRows_true (b : list Z) (x y v : Z) (bxs bys : list Z) :
  validValue v ->
  (forall c, In c bxs -> 0 <= c <= 8) -> (forall c, In c bys -> 0 <= c <= 8) ->
  chunkUniqueRows b x y v bxs bys = Ok true ->
  forall bx by_, In bx bxs -> In by_ bys -> mkGPos bx by_ <> mkGPos x y ->
                 flag b (mkGPos bx by_) v = false.
Proof.
  intros Hv Hbxs. induction bys as [|by0 bys IH]; intros Hbys;
    cbn [chunkUniqueRows].
  - intros _ ? ? _ [].
  - destruct (chunkRowUnique b x y v by0 bxs) as [[|]|] eqn:E0; rewrite ?bind_Ok;
      try discriminate.
    intros E bx by_ Hbx [<-|Hby] Hne.
    + apply (chunkRowUnique_true b x y v by0 bxs); auto.
      apply Hbys. left. reflexivity.
    + apply IH; auto. intros; apply Hbys; right; assumption.
Qed.

Lemma chunkUnique_true (b : list Z) (x y v : Z) :
  0 <= x <= 8 -> 0 <= y <= 8 -> validValue v -> chunkUnique b x y v = Ok true ->
  forall c, In c (chunkCells x y) -> c <> mkGPos x y -> flag b c v = false.
Proof.
  intros Hx Hy Hv E c Hc Hne. apply chunkCells_In in Hc as [Hcx Hcy].
  destruct c as [cx cy]. cbn [getX getY] in *.
  apply (chunkUniqueRows_true b x y v _ _ Hv) with (3 := E); auto;
    intros z; apply chunk_range; assumption.
Qed.

(** ** A pass keeps every solution *)

Lemma foldM_keeps {S A : Type} (P : S -> Prop) (R : A -> Prop)
    (f : S -> A -> outcome S) (l : list A) :
  (forall a, In a l -> R a) ->
  (forall s a s', R a -> P s -> f s a = Ok s' -> P s') ->
  forall s s', P s -> foldM f l s = Ok s' -> P s'.
Proof.
  intros Hl Hf. induction l as [|a l IH]; intros s s' Hs; cbn [foldM].
  - intros [= <-]. exact Hs.
  - destruct (f s a) as [s1|] eqn:E; [|discriminate]. rewrite bind_Ok.
    apply (IH (fun a' Ha' => Hl a' (or_intror Ha'))).
    apply (Hf s a s1 (Hl a (or_introl eq_refl)) Hs E).
Qed.

Section Sound.
Context {L : Type}.
Variable ev : SimplificationCause -> GPos -> Z -> Z -> list Z -> L -> L.
Variable g : GPos -> Z.
Hypothesis Hg : validGrid g.

Lemma fitsPass_flag (s : PassState L) (p : GPos) :
  fitsPass g s -> validPos p -> flag (board s) p (g p) = true.
Proof using Hg. intros [_ H] Hp. apply (proj1 (fits_flag g _ Hg) H p Hp). Qed.

Lemma fitsPass_count (s : PassState L) (p : GPos) :
  fitsPass g s -> validPos p -> 1 <= cellCount (board s) p.
Proof using Hg.
  intros H Hp. apply (cellCount_pos _ p (g p)); [apply Hg, Hp|].
  apply fitsPass_flag; assumption.
Qed.

Lemma eliminateAt_fits (cause : SimplificationCause) (by_ : Z) (q : GPos)
    (v : Z) (s s' : PassState L) :
  validPos q -> validValue v -> g q <> v -> fitsPass g s ->
  eliminateAt ev cause by_ q v s = Ok s' -> fitsPass g s'.
Proof using Hg.
  intros Hq Hv Hne Hfit. pose proof Hfit as [Hwf _]. unfold eliminateAt.
  rewrite isPossibleAt_flag, bind_Ok by assumption.
  destruct (flag (board s) q v); [|intros [= <-]; exact Hfit].
  destruct (setPossibleAt_flags (board s) q v false Hwf Hq Hv)
    as (b' & Eb & Hwf' & _ & Hframe).
  rewrite Eb. simpl. intros [= <-]. split; [exact Hwf'|]. simpl.
  apply fits_flag; [exact Hg|]. intros p Hp.
  rewrite Hframe; [apply fitsPass_flag; assumption | exact Hp | apply Hg, Hp |].
  intros [= -> E]. apply Hne, E.
Qed.

Lemma eliminateRow_fits (x y v : Z) (s s' : PassState L) :
  validPos (mkGPos x y) -> g (mkGPos x y) = v -> fitsPass g s ->
  eliminateRow ev x y v s = Ok s' -> fitsPass g s'.
Proof using Hg.
  intros Hp Hval Hfit. unfold eliminateRow.
  apply (foldM_keeps (fitsPass g) (fun cx => 0 <= cx <= 8));
    [intros a; apply range9_In | | exact Hfit].
  intros s1 cx s2 Hcx H1. destruct (Z.eqb_spec cx x) as [->|Hne];
    [intros [= <-]; exact H1|].
  assert (Hq : validPos (mkGPos cx y)) by (split; [exact Hcx | apply Hp]).
  apply eliminateAt_fits; auto.
  - rewrite <- Hval. apply Hg, Hp.
  - rewrite <- Hval. apply (proj2 Hg); auto.
    split; [congruence | left; reflexivity].
Qed.

Lemma eliminateColumn_fits (x y v : Z) (s s' : PassState L) :
  validPos (mkGPos x y) -> g (mkGPos x y) = v -> fitsPass g s ->
  eliminateColumn ev x y v s = Ok s' -> fitsPass g s'.
Proof using Hg.
  intros Hp Hval Hfit. unfold eliminateColumn.
  apply (foldM_keeps (fitsPass g) (fun cy => 0 <= cy <= 8));
    [intros a; apply range9_In | | exact Hfit].
  intros s1 cy s2 Hcy H1. destruct (Z.eqb_spec cy y) as [->|Hne];
    [intros [= <-]; exact H1|].
  assert (Hq : validPos (mkGPos x cy)) by (split; [apply Hp | exact Hcy]).
  apply eliminateAt_fits; auto.
  - rewrite <- Hval. apply Hg, Hp.
  - rewrite <- Hval. apply (proj2 Hg); auto.
    split; [congruence | right; left; reflexivity].
Qed.

Lemma eliminateChunk_fits (x y v : Z) (s s' : PassState L) :
  validPos (mkGPos x y) -> g (mkGPos x y) = v -> fitsPass g s ->
  eliminateChunk ev x y v s = Ok s' -> fitsPass g s'.
Proof using Hg.
  intros Hp Hval Hfit. pose proof Hp as [Hx Hy]. cbn [getX getY] in Hx, Hy.
  unfold eliminateChunk.
  apply (foldM_keeps (fitsPass g)
           (fun by_ => In by_ [y / 3 * 3; y / 3 * 3 + 1; y / 3 * 3 + 2]));
    [auto | | exact Hfit].
  intros s1 by_ s2 Hby H1.
  apply (foldM_keeps (fitsPass g)
           (fun bx => In bx [x / 3 * 3; x / 3 * 3 + 1; x / 3 * 3 + 2]));
    [auto | | exact H1].
  intros s3 bx s4 Hbx H3. destruct (samePos bx by_ x y) eqn:Hsame;
    [intros [= <-]; exact H3|].
  apply samePos_false in Hsame.
  assert (Hq : validPos (mkGPos bx by_))
    by (split; [apply (chunk_range x) | apply (chunk_range y)]; assumption).
  apply eliminateAt_fits; auto.
  - rewrite <- Hval. apply Hg, Hp.
  - rewrite <- Hval. apply (proj2 Hg); auto.
    split; [exact Hsame|]. right. right.
    apply chunk_div in Hbx, Hby. split; cbn [getX getY]; assumption.
Qed.

Lemma maybeSure_fits (success : bool) (cause : SimplificationCause) (by_ : Z)
    (p : GPos) (v cnt : Z) (s s' : PassState L) :
  validPos p -> (success = true -> g p = v) -> fitsPass g s ->
  (if success then valueSure ev cause by_ p v cnt s else Ok s) = Ok s' ->
  fitsPass g s'.
Proof using Hg.
  intros Hp Hsure Hfit. destruct success; [|intros [= <-]; exact Hfit].
  specialize (Hsure eq_refl). pose proof Hfit as [Hwf _].
  unfold valueSure, notify. cbn [board eliminations obs].
  destruct (makeSureAt_spec (board s) p v false Hwf Hp)
    as (b' & E & Hwf' & Hself & Hoth).
  rewrite E, bind_Ok. intros [= <-]. split; [exact Hwf'|]. cbn [board].
  apply fits_flag; [exact Hg|]. intros q Hq.
  destruct (decide (q = p)) as [->|Hne].
  - rewrite Hself by (apply Hg, Hp). rewrite Hsure, Z.eqb_refl. cbn [orb].
    rewrite <- Hsure. apply fitsPass_flag; assumption.
  - rewrite Hoth; [apply fitsPass_flag; assumption | exact Hq | apply Hg, Hq
                  | exact Hne].
Qed.

Lemma hiddenSingleAt_fits (x y cnt : Z) (s : PassState L) (v : Z)
    (s' : PassState L) :
  validPos (mkGPos x y) -> validValue v -> fitsPass g s ->
  hiddenSingleAt ev x y cnt s v = Ok s' -> fitsPass g s'.
Proof using Hg.
  intros Hp Hv Hfit. pose proof Hp as [Hx Hy]. cbn [getX getY] in Hx, Hy.
  unfold hiddenSingleAt. rewrite isPossibleAt_flag, bind_Ok by assumption.
  destruct (flag (board s) (mkGPos x y) v); cbn [negb];
    [|intros [= <-]; exact Hfit].
  destruct (rowUnique (board s) x y v) as [r1|] eqn:U1; [|discriminate].
  rewrite bind_Ok.
  destruct (if r1 then _ else _) as [s1|] eqn:E1; [|discriminate].
  rewrite bind_Ok.
  apply maybeSure_fits in E1; [|exact Hp| |exact Hfit].
  2:{ intros ->.
      apply (hidden_single_value g (board s) (rowCells y));
        [exact Hg | apply Hfit | apply rowCells_house, Hy | exact Hv|].
      apply rowUnique_true; assumption. }
  destruct (colUnique (board s1) x y v) as [r2|] eqn:U2; [|discriminate].
  rewrite bind_Ok.
  destruct (if r2 then _ else _) as [s2|] eqn:E2; [|discriminate].
  rewrite bind_Ok.
  apply maybeSure_fits in E2; [|exact Hp| |exact E1].
  2:{ intros ->.
      apply (hidden_single_value g (board s1) (colCells x));
        [exact Hg | apply E1 | apply colCells_house, Hx | exact Hv|].
      apply colUnique_true; assumption. }
  destruct (chunkUnique (board s2) x y v) as [r3|] eqn:U3; [|discriminate].
  rewrite bind_Ok. intros E3.
  apply maybeSure_fits in E3; [exact E3|exact Hp| |exact E2].
  intros ->.
  apply (hidden_single_value g (board s2) (chunkCells x y));
    [exact Hg | apply E2 | apply chunkCells_house; assumption | exact Hv|].
  apply chunkUnique_true; assumption.
Qed.

(** On a board that still admits [g] no cell is found empty, so the body
    of the cell loop falls through, and [g] is still admitted after it. *)
Lemma simplifyCell_fits (c : GPos) (s : PassState L) (r : bool * PassState L) :
  validPos c -> fitsPass g s -> simplifyCell ev c s = Ok r ->
  fst r = true /\ fitsPass g (snd r).
Proof using Hg.
  intros Hc Hfit. destruct c as [x y]. unfold simplifyCell. cbn [getX getY].
  rewrite getCellInfoAt_spec, bind_Ok by assumption. cbn [fst snd].
  pose proof (fitsPass_count s _ Hfit Hc) as H1.
  destruct (Z.eqb_spec (cellCount (board s) (mkGPos x y)) 0) as [E0|_]; [lia|].
  destruct (if cellCount (board s) (mkGPos x y) =? 1 then _ else _)
    as [s1|] eqn:E1; [|discriminate].
  assert (F1 : fitsPass g s1).
  { destruct (Z.eqb_spec (cellCount (board s) (mkGPos x y)) 1) as [Eone|];
      [|injection E1 as <-; exact Hfit].
    assert (Hval : g (mkGPos x y)
                   = lastSet (flag (board s) (mkGPos x y)) values 0).
    { pose proof (onlyValue_spec (board s) (mkGPos x y) Eone) as Hspec.
      cbv zeta in Hspec. destruct Hspec as (_ & _ & Huniq).
      apply Huniq; [apply Hg, Hc | apply fitsPass_flag; assumption]. }
    rewrite <- Hval in E1.
    destruct (eliminateRow _ _ _ _ s) as [sa|] eqn:Ea; [|discriminate].
    rewrite bind_Ok in E1.
    destruct (eliminateColumn _ _ _ _ sa) as [sb|] eqn:Eb; [|discriminate].
    rewrite bind_Ok in E1.
    apply eliminateRow_fits in Ea; [|exact Hc|reflexivity|exact Hfit].
    apply eliminateColumn_fits in Eb; [|exact Hc|reflexivity|exact Ea].
    apply eliminateChunk_fits in E1; [exact E1|exact Hc|reflexivity|exact Eb]. }
  rewrite bind_Ok, getCellInfoAt_spec, bind_Ok by assumption. cbn [fst snd].
  pose proof (fitsPass_count s1 _ F1 Hc) as H2.
  destruct (Z.eqb_spec (cellCount (board s1) (mkGPos x y)) 0) as [E0|_]; [lia|].
  destruct (cellCount (board s1) (mkGPos x y) =? 1);
    [intros [= <-]; split; [reflexivity | exact F1]|].
  destruct (foldM _ values s1) as [s2|] eqn:E2; [|discriminate].
  rewrite bind_Ok. intros [= <-]. split; [reflexivity|]. cbn [snd].
  revert E2.
  apply (foldM_keeps (fitsPass g) validValue);
    [intros a; apply values_valid | | exact F1].
  intros sa v sb Hv Ha. apply hiddenSingleAt_fits; assumption.
Qed.

Lemma simplifyCells_fits (cells : list GPos) :
  (forall c, In c cells -> validPos c) ->
  forall (s : PassState L) (r : bool * PassState L),
    fitsPass g s -> simplifyCells ev cells s = Ok r ->
    fst r = true /\ fitsPass g (snd r).
Proof using Hg.
  induction cells as [|c cells IH]; intros Hcells s r Hfit; cbn [simplifyCells].
  - intros [= <-]. split; [reflexivity | exact Hfit].
  - destruct (simplifyCell ev c s) as [r1|] eqn:E1; [|discriminate].
    rewrite bind_Ok.
    apply simplifyCell_fits in E1; [|apply Hcells; left; reflexivity|exact Hfit].
    destruct E1 as [-> F1].
    apply IH; [intros; apply Hcells; right; assumption | exact F1].
Qed.

End Sound.

(** A pass on a board that admits [g]: it returns [true] and the board it
    leaves admits [g]. *)
Lemma simplify_fits {L : Type}
    (ev : SimplificationCause -> GPos -> Z -> Z -> list Z -> L -> L)
    (g : GPos -> Z) (b : list Z) (l : L) :
  validGrid g -> wfBoard b -> fits g b ->
  exists s', simplify ev b l = Ok (true, s')
             /\ wfBoard (board s') /\ fits g (board s')
             /\ subBoard (board s') b.
Proof.
  intros Hg Hwf Hfit.
  destruct (simplify_step ev b l Hwf) as (ok & s' & E & _ & Hsub & _).
  pose proof E as E'. unfold simplify in E'.
  apply (simplifyCells_fits ev g Hg) in E';
    [|intros c; apply allCells_valid|split; assumption].
  cbn [fst snd] in E'. destruct E' as [-> [Hwf' Hfit']].
  exists s'. auto.
Qed.

(** X13. A pass of [simplify] is sound for every completed grid: on a board
    on which a valid grid is still possible it reports no contradiction
    (it returns [true]), it clears no candidate of that grid, and it sets
    no flag. *)
Theorem simplify_keeps_solutions {L : Type}
    (ev : SimplificationCause -> GPos -> Z -> Z -> list Z -> L -> L)
    (g : GPos -> Z) (b : list Z) (l : L) :
  wfBoard b -> validGrid g -> fits g b ->
  exists s', simplify ev b l = Ok (true, s')
             /\ fits g (board s')
             /\ subBoard (board s') b.
Proof.
  intros Hwf Hg Hfit.
  destruct (simplify_fits ev g b l Hg Hwf Hfit) as (s' & E & _ & F & Hsub).
  exists s'. auto.
Qed.

(** ** Executable checks of grids *)

Lemma peerb_spec (p q : GPos) : peerb p q = true <-> peer p q.
Proof.
  destruct p as [px py], q as [qx qy]. unfold peerb, peer, sameChunk.
  cbn [getX getY].
  rewrite andb_true_iff, negb_true_iff, samePos_false, !orb_true_iff,
    andb_true_iff, !Z.eqb_eq.
  tauto.
Qed.

Lemma validGridb_sound (g : GPos -> Z) : validGridb g = true -> validGrid g.
Proof.
  unfold validGridb. rewrite forallb_forall. intros H. split.
  - intros p Hp. specialize (H p (proj2 (allCells_valid p) Hp)).
    apply andb_true_iff in H as [H _]. apply inRange_valid, H.
  - intros p q Hp Hq Hpeer.
    specialize (H p (proj2 (allCells_valid p) Hp)).
    apply andb_true_iff in H as [_ H]. rewrite forallb_forall in H.
    specialize (H q (proj2 (allCells_valid q) Hq)).
    rewrite (proj2 (peerb_spec p q) Hpeer) in H. cbn [implb] in H.
    apply negb_true_iff, Z.eqb_neq in H. exact H.
Qed.

Lemma fitsb_sound (g : GPos -> Z) (b : list Z) : fitsb g b = true -> fits g b.
Proof.
  unfold fitsb, fits. rewrite forallb_forall. intros H p Hp.
  specialize (H p (proj2 (allCells_valid p) Hp)).
  destruct (isPossibleAt b p (g p)) as [[|]|]; [reflexivity | discriminate..].
Qed.

Lemma simplify_keeps_solutions_witness :
  exists s', simplify (@silentEvent unit) shiftPuzzle tt = Ok (true, s')
             /\ fits shiftGrid (board s')
             /\ subBoard (board s') shiftPuzzle.
Proof.
  apply (simplify_keeps_solutions silentEvent shiftGrid shiftPuzzle tt).
  - reflexivity.
  - apply validGridb_sound. vm_compute. reflexivity.
  - apply fitsb_sound. vm_compute. reflexivity.
Defined.

(** ** What [simplifyToTheEnd] returns *)

Lemma passFixpoint_any {L L' : Type}
    (ev : SimplificationCause -> GPos -> Z -> Z -> list Z -> L -> L)
    (ev' : SimplificationCause -> GPos -> Z -> Z -> list Z -> L' -> L')
    (b : list Z) (l : L) (l' : L') :
  passFixpoint ev b l -> passFixpoint ev' b l'.
Proof.
  intros (s & E & He & Hb). unfold passFixpoint.
  pose proof (simplify_erase ev b l) as H1.
  pose proof (simplify_erase ev' b l') as H2.
  rewrite E in H1. rewrite <- H1 in H2.
  destruct (simplify ev' b l') as [[ok s']|]; [|discriminate].
  cbn [omap eraseCell erasePass fst snd] in H2.
  injection H2 as -> Hb' He'. exists s'. split; [reflexivity|].
  split; congruence.
Qed.

Section LoopResults.
Context {L : Type}.
Variable sl : Z -> Z -> Z -> list Z -> L -> L.
Variable el : SimplificationCause -> GPos -> Z -> Z -> list Z -> L -> L.

(** Whatever the fuel: the board the loop leaves is below the one it got;
    after [true] a pass finds nothing more to do on it, after [false] it
    has an empty cell. *)
Lemma simplifyLoop_result (fuel : nat) :
  forall (b : list Z) (total index : Z) (n : nat) (l : L) (r : LoopResult L),
    wfBoard b ->
    simplifyLoop sl el fuel b total index n l = Some (Ok r) ->
    wfBoard (loopBoard r) /\ subBoard (loopBoard r) b
    /\ (stable r = true -> passFixpoint el (loopBoard r) (loopObs r))
    /\ (stable r = false -> hasContradiction (loopBoard r) = Ok true).
Proof.
  induction fuel as [|fuel IH]; intros b total index n l r Hwf;
    cbn [simplifyLoop]; [discriminate|].
  destruct (simplify_step el b l Hwf) as (ok & s' & E & Hwf' & Hsub & _).
  rewrite E. destruct ok; cbn [negb].
  - destruct (Z.eqb_spec (eliminations s') 0) as [E0|N0].
    + intros [= <-]. cbn [loopBoard loopObs stable].
      destruct (simplify_counter el b l true s' E) as [_ Hb].
      specialize (Hb E0). split; [exact Hwf'|]. split; [exact Hsub|].
      split; [|discriminate]. intros _. rewrite Hb.
      apply (passFixpoint_any el el b l). exists s'. auto.
    + intros Er. apply IH in Er; [|exact Hwf'].
      destruct Er as (W & S & F & C). split; [exact W|].
      split; [eapply subBoard_trans; eassumption|]. auto.
  - intros [= <-]. cbn [loopBoard loopObs stable].
    split; [exact Hwf'|]. split; [exact Hsub|]. split; [discriminate|].
    intros _. unfold simplify in E.
    destruct (simplifyCells_stops el allCells
                (fun q => proj1 (allCells_valid q)) (mkPass b 0 l) s' Hwf E)
      as (c & Hin & Hz).
    unfold hasContradiction.
    rewrite scanCounts_spec by (intros q; apply allCells_valid).
    f_equal. apply existsb_exists. exists c. split; [exact Hin|].
    apply Z.eqb_eq, Hz.
Qed.

Lemma simplifyLoop_fits (g : GPos -> Z) (fuel : nat) :
  validGrid g ->
  forall (b : list Z) (total index : Z) (n : nat) (l : L) (r : LoopResult L),
    wfBoard b -> fits g b ->
    simplifyLoop sl el fuel b total index n l = Some (Ok r) ->
    stable r = true /\ fits g (loopBoard r).
Proof.
  intros Hg. induction fuel as [|fuel IH]; intros b total index n l r Hwf Hfit;
    cbn [simplifyLoop]; [discriminate|].
  destruct (simplify_fits el g b l Hg Hwf Hfit) as (s' & E & Hwf' & Hfit' & _).
  rewrite E. cbn [negb]. destruct (eliminations s' =? 0).
  - intros [= <-]. split; [reflexivity | exact Hfit'].
  - apply IH; assumption.
Qed.

End LoopResults.

(** X14. What the result of [simplifyToTheEnd] means.  The loop ends (729
    passes are enough); after [true] the board is a fixpoint: one more pass
    returns [true], counts nothing and leaves the board as it is, whatever
    the listener; after [false] the board has an empty cell. *)
Theorem simplifyToTheEnd_result {L L' : Type}
    (sl : Z -> Z -> Z -> list Z -> L -> L)
    (el : SimplificationCause -> GPos -> Z -> Z -> list Z -> L -> L)
    (ev : SimplificationCause -> GPos -> Z -> Z -> list Z -> L' -> L')
    (fuel : nat) (b : list Z) (l : L) (l' : L') :
  wfBoard b -> (729 <= fuel)%nat ->
  exists r,
    simplifyToTheEnd sl el fuel b l = Some (Ok r)
    /\ (stable r = true ->
        exists s', simplify ev (loopBoard r) l' = Ok (true, s')
                   /\ eliminations s' = 0 /\ board s' = loopBoard r)
    /\ (stable r = false -> hasContradiction (loopBoard r) = Ok true).
Proof.
  intros Hwf Hfuel. pose proof (flagCount_range b).
  destruct (simplifyLoop_terminates sl el fuel b 0 0 0%nat l Hwf)
    as (r & E & _); [lia | lia |].
  exists r. split; [exact E|].
  destruct (simplifyLoop_result sl el fuel b 0 0 0%nat l r Hwf E)
    as (_ & _ & F & C).
  split; [|exact C]. intros Hst.
  apply (passFixpoint_any el ev _ (loopObs r) l'), F, Hst.
Qed.

Lemma simplifyToTheEnd_result_witness :
  exists r,
    simplifyToTheEnd (@silentPass unit) silentEvent 729 shiftPuzzle tt
    = Some (Ok r)
    /\ (stable r = true ->
        exists s', simplify (@silentEvent unit) (loopBoard r) tt = Ok (true, s')
                   /\ eliminations s' = 0 /\ board s' = loopBoard r)
    /\ (stable r = false -> hasContradiction (loopBoard r) = Ok true).
Proof.
  apply (simplifyToTheEnd_result silentPass silentEvent silentEvent 729
           shiftPuzzle tt tt).
  - reflexivity.
  - lia.
Defined.

(** X15. [simplifyToTheEnd] loses no solution: on a board on which a valid
    completed grid is still possible the loop returns [true] and the grid is
    still possible on the board it leaves.  So a [false] from the loop
    means that the board had no solution. *)
Theorem simplifyToTheEnd_keeps_solutions {L : Type}
    (sl : Z -> Z -> Z -> list Z -> L -> L)
    (el : SimplificationCause -> GPos -> Z -> Z -> list Z -> L -> L)
    (fuel : nat) (g : GPos -> Z) (b : list Z) (l : L) :
  wfBoard b -> (729 <= fuel)%nat -> validGrid g -> fits g b ->
  exists r,
    simplifyToTheEnd sl el fuel b l = Some (Ok r)
    /\ stable r = true
    /\ fits g (loopBoard r)
    /\ subBoard (loopBoard r) b.
Proof.
  intros Hwf Hfuel Hg Hfit. pose proof (flagCount_range b).
  destruct (simplifyLoop_terminates sl el fuel b 0 0 0%nat l Hwf)
    as (r & E & _ & Hsub & _); [lia | lia |].
  exists r. split; [exact E|].
  destruct (simplifyLoop_fits sl el g fuel Hg b 0 0 0%nat l r Hwf Hfit E)
    as [Hst Hfit'].
  auto.
Qed.

Lemma simplifyToTheEnd_keeps_solutions_witness :
  exists r,
    simplifyToTheEnd (@silentPass unit) silentEvent 729 shiftPuzzle tt
    = Some (Ok r)
    /\ stable r = true
    /\ fits shiftGrid (loopBoard r)
    /\ subBoard (loopBoard r) shiftPuzzle.
Proof.
  apply (simplifyToTheEnd_keeps_solutions silentPass silentEvent 729 shiftGrid
           shiftPuzzle tt).
  - reflexivity.
  - lia.
  - apply validGridb_sound. vm_compute. reflexivity.
  - apply fitsb_sound. vm_compute. reflexivity.
Defined.

(** ** The search finds solutions only *)

Lemma makeSureAt_sub (b : list Z) (p : GPos) (v : Z) (b1 : list Z) :
  wfBoard b -> validPos p -> makeSureAt b p v false = Ok b1 ->
  wfBoard b1 /\ subBoard b1 b.
Proof.
  intros Hwf Hp E.
  destruct (makeSureAt_spec b p v false Hwf Hp) as (b' & E' & Hwf' & Hself & Hoth).
  rewrite E in E'. injection E' as <-. split; [exact Hwf'|].
  apply subBoard_flag. intros q w Hq Hw Hset.
  destruct (decide (q = p)) as [->|Hne].
  - rewrite Hself in Hset by assumption.
    destruct (w =? v); [exact Hset | discriminate].
  - rewrite <- Hoth; assumption.
Qed.

Lemma solved_counts (b : list Z) :
  isSolved b = Ok true <-> forall p, validPos p -> cellCount b p = 1.
Proof.
  rewrite isSolved_spec.
  destruct (existsb (fun p => negb (cellCount b p =? 1)) allCells) eqn:H;
    cbn [negb].
  - split; [discriminate|]. intros Hall.
    apply existsb_exists in H as (p & Hp & Hne).
    rewrite (Hall p (proj1 (allCells_valid p) Hp)) in Hne. discriminate.
  - split; [|reflexivity]. intros _ p Hp.
    pose proof (existsb_false _ _ H p (proj2 (allCells_valid p) Hp)) as Hf.
    cbv beta in Hf. apply negb_false_iff, Z.eqb_eq in Hf. exact Hf.
Qed.

Lemma gridOf_single (b : list Z) (p : GPos) :
  validPos p -> cellCount b p = 1 ->
  validValue (gridOf b p) /\ flag b p (gridOf b p) = true
  /\ forall w, validValue w -> w <> gridOf b p -> flag b p w = false.
Proof.
  intros Hp Hone. unfold gridOf, getOnlyPossibleValue.
  rewrite getCellInfoAt_spec, bind_Ok by assumption. cbn [fst].
  rewrite Hone. change (1 =? 1) with true. cbv iota.
  pose proof (onlyValue_spec b p Hone) as Hspec. cbv zeta in Hspec.
  destruct Hspec as (Hv & Hon & Huniq).
  split; [exact Hv|]. split; [exact Hon|].
  intros w Hw Hne. destruct (flag b p w) eqn:E; [|reflexivity].
  exfalso. apply Hne, Huniq; assumption.
Qed.

(** A solved board on which a pass finds nothing to do shows a valid
    completed grid. *)
Lemma fixpoint_valid {L : Type}
    (ev : SimplificationCause -> GPos -> Z -> Z -> list Z -> L -> L)
    (b : list Z) (l : L) :
  wfBoard b -> isSolved b = Ok true -> passFixpoint ev b l ->
  validGrid (gridOf b) /\ fits (gridOf b) b.
Proof.
  intros Hwf Hsolved (s' & E & _ & Hb).
  pose proof (proj1 (solved_counts b) Hsolved) as Hone.
  assert (Hg : validGrid (gridOf b)).
  { split.
    - intros p Hp. apply (gridOf_single b p Hp (Hone p Hp)).
    - intros p q Hp Hq Hpeer Heq.
      destruct (gridOf_single b p Hp (Hone p Hp)) as (Hv & _ & Hoff).
      destruct (gridOf_single b q Hq (Hone q Hq)) as (_ & Hon & _).
      unfold simplify in E.
      pose proof (simplifyCells_propagates ev allCells p (gridOf b p)
                    (fun c => proj1 (allCells_valid c))
                    (proj2 (allCells_valid p) Hp) Hv
                    (mkPass b 0 l) s' Hwf Hoff E q Hq Hpeer) as Hclear.
      rewrite Hb, Heq, Hon in Hclear. discriminate. }
  split; [exact Hg|]. apply fits_flag; [exact Hg|].
  intros p Hp. apply (gridOf_single b p Hp (Hone p Hp)).
Qed.

Section SolverSound.
Context {L : Type}.
Variable al : list Z -> list bool -> GPos -> list Z -> L -> L.
Variable rec : SolverState L -> option (outcome (bool * SolverState L)).
Hypothesis rec_sound :
  forall st st', wfBoard (sboard st) -> rec st = Some (Ok (true, st')) ->
                 solvedFrom (sboard st) (sboard st').

Lemma tryBranch_sound (pos : GPos) (v branchIndex : Z) (st st' : SolverState L) :
  wfBoard (sboard st) -> validPos pos ->
  tryBranch al rec pos v branchIndex st = Some (Ok (true, st')) ->
  solvedFrom (sboard st) (sboard st').
Proof using rec_sound.
  intros Hwf Hp. unfold tryBranch.
  destruct (makeSureAt (sboard st) pos v false) as [b1|] eqn:E; [|discriminate].
  destruct (makeSureAt_sub _ _ _ _ Hwf Hp E) as [Hwf1 Hsub1].
  destruct (rec _) as [[[[|] stRec]|]|] eqn:Er; try discriminate.
  intros [= <-]. apply rec_sound in Er; [|exact Hwf1].
  cbn [sboard] in Er. destruct Er as (W & S & I & F).
  split; [exact W|]. split; [eapply subBoard_trans; eassumption|]. auto.
Qed.

Lemma tryCandidates_sound (pos : GPos) (candidates : list Z) :
  forall (branchIndex : Z) (st st' : SolverState L),
    wfBoard (sboard st) -> validPos pos ->
    tryCandidates al rec pos candidates branchIndex st = Some (Ok (true, st')) ->
    solvedFrom (sboard st) (sboard st').
Proof using rec_sound.
  induction candidates as [|v rest IH]; intros bi st st' Hwf Hp;
    cbn [tryCandidates]; [discriminate|].
  destruct (tryBranch al rec pos v bi st) as [[[[|] st1]|]|] eqn:E1;
    try discriminate.
  - intros [= <-]. apply (tryBranch_sound pos v bi); assumption.
  - intros E2. apply tryBranch_rollback in E1 as (_ & _ & _ & _ & Hb).
    unfold copyData in Hb.
    apply IH in E2; [|rewrite Hb; exact Hwf|exact Hp].
    rewrite Hb in E2. exact E2.
Qed.

Lemma branchOn_sound (st st' : SolverState L) :
  wfBoard (sboard st) -> passFixpoint (@silentEvent unit) (sboard st) tt ->
  branchOn al rec st = Some (Ok (true, st')) ->
  solvedFrom (sboard st) (sboard st').
Proof using rec_sound.
  intros Hwf Hfix. unfold branchOn.
  destruct (isSolved (sboard st)) as [[|]|] eqn:Hs; try discriminate.
  - intros [= <-]. split; [exact Hwf|]. split; [apply subBoard_refl|]. auto.
  - destruct (findMRVCell_unsolved _ Hs) as (pos & cnt & E & Hp & _).
    rewrite E. destruct (cnt =? 0); [discriminate|].
    rewrite getCandiatesAt_spec by assumption.
    destruct (tryCandidates _ _ _ _ _ _) as [[[[|] st2]|]|] eqn:Et;
      try discriminate.
    intros [= <-]. apply tryCandidates_sound in Et; assumption.
Qed.

End SolverSound.

Lemma dfsSolve_solvedFrom {L : Type}
    (al : list Z -> list bool -> GPos -> list Z -> L -> L)
    (sl : list Z -> Z -> Z -> Z -> bool -> list bool -> list Z -> L -> L)
    (el : list Z -> SimplificationCause -> GPos -> Z -> Z -> list Z -> L -> L)
    (fuel : nat) :
  forall (isFirst : bool) (st st' : SolverState L),
    wfBoard (sboard st) ->
    dfsSolve al sl el fuel isFirst st = Some (Ok (true, st')) ->
    solvedFrom (sboard st) (sboard st').
Proof.
  induction fuel as [|fuel IH]; intros isFirst st st' Hwf; cbn [dfsSolve];
    [discriminate|].
  unfold simplifyToTheEnd.
  destruct (simplifyLoop _ _ _ _ _ _ _ _) as [[r|]|] eqn:El; try discriminate.
  apply simplifyLoop_result in El; [|exact Hwf].
  destruct El as (Hwfr & Hsub & Hfix & _).
  destruct (stable r); cbn [negb]; [|discriminate].
  intros Eb.
  apply (branchOn_sound al (dfsSolve al sl el fuel false)) in Eb.
  - cbn [sboard] in Eb. destruct Eb as (W & S & I & F).
    split; [exact W|]. split; [eapply subBoard_trans; eassumption|]. auto.
  - intros st1 st2 H1 H2. apply (IH false st1 st2 H1 H2).
  - exact Hwfr.
  - cbn [sboard]. apply (passFixpoint_any _ _ _ _ tt (Hfix eq_refl)).
Qed.

(** X16. The search is sound.  When [dfsSolve] returns [true], the board it
    leaves is solved (one candidate in every cell), the values it shows
    form a valid completed grid (no value twice in a row, a column or a
    chunk), and each of them was a candidate of its cell on the board the
    search started from. *)
Theorem dfsSolve_sound {L : Type}
    (al : list Z -> list bool -> GPos -> list Z -> L -> L)
    (sl : list Z -> Z -> Z -> Z -> bool -> list bool -> list Z -> L -> L)
    (el : list Z -> SimplificationCause -> GPos -> Z -> Z -> list Z -> L -> L)
    (fuel : nat) (isFirst : bool) (st st' : SolverState L) :
  wfBoard (sboard st) ->
  dfsSolve al sl el fuel isFirst st = Some (Ok (true, st')) ->
  isSolved (sboard st') = Ok true
  /\ validGrid (gridOf (sboard st'))
  /\ fits (gridOf (sboard st')) (sboard st).
Proof.
  intros Hwf E.
  destruct (dfsSolve_solvedFrom al sl el fuel isFirst st st' Hwf E)
    as (W & S & I & F).
  destruct (fixpoint_valid silentEvent (sboard st') tt W I F) as [Hg Hfit].
  split; [exact I|]. split; [exact Hg|].
  intros p Hp. apply S; [exact Hp | apply Hg, Hp | apply Hfit, Hp].
Qed.

Lemma dfsSolve_sound_witness :
  isSolved (sboard shiftEnd) = Ok true
  /\ validGrid (gridOf (sboard shiftEnd))
  /\ fits (gridOf (sboard shiftEnd)) (sboard shiftStart).
Proof.
  apply (dfsSolve_sound quietAssign quietPass quietEliminate 730 true
           shiftStart shiftEnd).
  - reflexivity.
  - vm_compute. reflexivity.
Defined.

(** ** The search finds a solution when there is one *)

Section SolverComplete.
Context {L : Type}.
Variable al : list Z -> list bool -> GPos -> list Z -> L -> L.
Variable g : GPos -> Z.
Hypothesis Hg : validGrid g.

Variable rec : SolverState L -> option (outcome (bool * SolverState L)).
Variable bound : Z.
Hypothesis rec_total :
  forall st, wfBoard (sboard st) -> flagCount (sboard st) < bound ->
             exists res st', rec st = Some (Ok (res, st')).
Hypothesis rec_complete :
  forall st, wfBoard (sboard st) -> flagCount (sboard st) < bound ->
             fits g (sboard st) ->
             exists st', rec st = Some (Ok (true, st')).

(** The branch on the value of [g]: the board it recurses on still admits
    [g], so the recursion succeeds. *)
Lemma tryBranch_complete (pos : GPos) (branchIndex : Z) (st : SolverState L) :
  wfBoard (sboard st) -> validPos pos ->
  flagCount (sboard st) <= bound -> 2 <= cellCount (sboard st) pos ->
  fits g (sboard st) ->
  exists st', tryBranch al rec pos (g pos) branchIndex st = Some (Ok (true, st')).
Proof using Hg rec_complete.
  intros Hwf Hp Hb H2 Hfit.
  pose proof (proj1 (fits_flag g _ Hg) Hfit) as Hflags.
  assert (Hv : validValue (g pos)) by (apply Hg, Hp).
  unfold tryBranch.
  destruct (makeSureAt_decreases (sboard st) pos (g pos) Hwf Hp Hv
              (Hflags pos Hp) H2) as (b1 & E & Hwf1 & _ & Hlt).
  destruct (makeSureAt_spec (sboard st) pos (g pos) false Hwf Hp)
    as (b' & E' & _ & Hself & Hoth).
  rewrite E in E'. injection E' as <-. rewrite E.
  assert (Hfit1 : fits g b1).
  { apply fits_flag; [exact Hg|]. intros q Hq.
    destruct (decide (q = pos)) as [->|Hne].
    - rewrite Hself, Z.eqb_refl by assumption. cbn [orb]. apply Hflags, Hp.
    - rewrite Hoth; [apply Hflags, Hq | exact Hq | apply Hg, Hq | exact Hne]. }
  destruct (rec_complete
              (mkSolver b1 (spath st ++ [branchIndex]) (sassigned st)
                 (al (spath st ++ [branchIndex]) (sassigned st) pos b1 (sobs st))))
    as (st' & Er); [exact Hwf1 | cbn [sboard]; lia | exact Hfit1 |].
  rewrite Er. eauto.
Qed.

Lemma tryCandidates_complete (pos : GPos) (candidates : list Z) :
  forall (branchIndex : Z) (st : SolverState L),
    wfBoard (sboard st) -> validPos pos ->
    flagCount (sboard st) <= bound -> 2 <= cellCount (sboard st) pos ->
    (forall v, In v candidates ->
               validValue v /\ flag (sboard st) pos v = true) ->
    fits g (sboard st) -> In (g pos) candidates ->
    exists st',
      tryCandidates al rec pos candidates branchIndex st = Some (Ok (true, st')).
Proof using Hg rec_total rec_complete.
  induction candidates as [|v rest IH]; intros bi st Hwf Hp Hb H2 Hc Hfit Hin;
    [destruct Hin|]. cbn [tryCandidates].
  destruct (decide (v = g pos)) as [->|Hne].
  - destruct (tryBranch_complete pos bi st Hwf Hp Hb H2 Hfit) as (st' & E).
    rewrite E. eauto.
  - destruct (Hc v (or_introl eq_refl)) as [Hv Hon].
    destruct (tryBranch_total al rec bound rec_total pos v bi st Hwf Hp Hv Hb H2 Hon)
      as (res & st1 & E1 & Hback).
    rewrite E1. destruct res; [eauto|].
    specialize (Hback eq_refl).
    apply IH; try (rewrite Hback; assumption); try assumption.
    + intros w Hw. rewrite Hback. apply Hc. right. exact Hw.
    + destruct Hin as [->|Hin]; [contradiction | exact Hin].
Qed.

Lemma branchOn_complete (st : SolverState L) :
  wfBoard (sboard st) -> flagCount (sboard st) <= bound ->
  fits g (sboard st) ->
  exists st', branchOn al rec st = Some (Ok (true, st')).
Proof using Hg rec_total rec_complete.
  intros Hwf Hb Hfit.
  pose proof (proj1 (fits_flag g _ Hg) Hfit) as Hflags.
  assert (Hpos : forall q, validPos q -> 1 <= cellCount (sboard st) q).
  { intros q Hq. apply (cellCount_pos _ q (g q)); [apply Hg, Hq | apply Hflags, Hq]. }
  unfold branchOn.
  destruct (isSolved (sboard st)) as [[|]|] eqn:Hs; [eauto | |].
  2:{ rewrite isSolved_spec in Hs. discriminate. }
  pose proof Hs as Hun. rewrite isSolved_spec in Hun.
  destruct (existsb (fun p => negb (cellCount (sboard st) p =? 1)) allCells)
    eqn:Hex; [clear Hun | discriminate Hun].
  apply existsb_exists in Hex as (p & Hp & Hne).
  apply allCells_valid in Hp. apply negb_true_iff, Z.eqb_neq in Hne.
  pose proof (cellCount_range (sboard st) p). pose proof (Hpos p Hp).
  destruct (findMRVCell_least (sboard st) p) as (p0 & c & E & Hp0 & Hc & Hr & _).
  { intros q Hq. rewrite countAt_cellCount by assumption.
    pose proof (Hpos q Hq). lia. }
  { exact Hp. }
  { rewrite countAt_cellCount by assumption. lia. }
  rewrite countAt_cellCount in Hc by assumption.
  rewrite E. destruct (Z.eqb_spec c 0) as [->|_]; [lia|].
  rewrite getCandiatesAt_spec by assumption.
  match goal with
  | |- context [tryCandidates al rec p0 ?cs 0 ?m] =>
      destruct (tryCandidates_complete p0 cs 0 m) as (st' & Et)
  end; cbn [sboard]; auto; try lia.
  - intros v Hv. apply List.filter_In in Hv as [Hv Hon].
    split; [apply values_valid, Hv | exact Hon].
  - apply List.filter_In. split; [apply values_valid, Hg, Hp0 | apply Hflags, Hp0].
  - rewrite Et. eauto.
Qed.

End SolverComplete.

Lemma dfsSolve_complete {L : Type}
    (al : list Z -> list bool -> GPos -> list Z -> L -> L)
    (sl : list Z -> Z -> Z -> Z -> bool -> list bool -> list Z -> L -> L)
    (el : list Z -> SimplificationCause -> GPos -> Z -> Z -> list Z -> L -> L)
    (g : GPos -> Z) (fuel : nat) :
  validGrid g ->
  forall (isFirst : bool) (st : SolverState L),
    wfBoard (sboard st) -> flagCount (sboard st) < Z.of_nat fuel ->
    fits g (sboard st) ->
    exists st', dfsSolve al sl el fuel isFirst st = Some (Ok (true, st')).
Proof.
  intros Hg. induction fuel as [|fuel IH]; intros isFirst st Hwf Hfuel Hfit.
  - pose proof (flagCount_range (sboard st)). lia.
  - cbn [dfsSolve]. unfold simplifyToTheEnd.
    destruct (simplifyLoop_terminates
                (fun i elim elimSum =>
                   sl (spath st) i elim elimSum isFirst (sassigned st))
                (el (spath st)) (S fuel) (sboard st) 0 0 0%nat (sobs st) Hwf)
      as (r & E & Hwfr & Hsub & _); [lia | lia |].
    rewrite E.
    destruct (simplifyLoop_fits _ _ g (S fuel) Hg _ _ _ _ _ r Hwf Hfit E)
      as [Hst Hfitr].
    rewrite Hst. cbn [negb].
    apply (branchOn_complete al g Hg (dfsSolve al sl el fuel false)
             (Z.of_nat fuel)).
    + intros st2 Hwf2 Hlt. apply dfsSolve_total; assumption.
    + intros st2 Hwf2 Hlt Hfit2. apply IH; assumption.
    + exact Hwfr.
    + pose proof (flagCount_mono _ _ Hsub). cbn [sboard]. lia.
    + exact Hfitr.
Qed.

(** X17. The search decides solvability.  With fuel 730 or more
    [dfsSolve] returns a boolean on every board (no exception, no
    running out of fuel), and the boolean is [true] exactly when some valid
    completed grid is possible on the board it started from. *)
Theorem dfsSolve_decides {L : Type}
    (al : list Z -> list bool -> GPos -> list Z -> L -> L)
    (sl : list Z -> Z -> Z -> Z -> bool -> list bool -> list Z -> L -> L)
    (el : list Z -> SimplificationCause -> GPos -> Z -> Z -> list Z -> L -> L)
    (fuel : nat) (isFirst : bool) (st : SolverState L) :
  wfBoard (sboard st) -> (730 <= fuel)%nat ->
  exists res st',
    dfsSolve al sl el fuel isFirst st = Some (Ok (res, st'))
    /\ (res = true <-> solvable (sboard st)).
Proof.
  intros Hwf Hfuel. pose proof (flagCount_range (sboard st)) as Hr.
  destruct (dfsSolve_total al sl el fuel isFirst st Hwf) as (res & st' & E);
    [lia|].
  exists res, st'. split; [exact E|]. split.
  - intros ->.
    destruct (dfsSolve_solvedFrom al sl el fuel isFirst st st' Hwf E)
      as (W & S & I & F).
    destruct (fixpoint_valid silentEvent (sboard st') tt W I F) as [Hg Hfit].
    exists (gridOf (sboard st')). split; [exact Hg|].
    intros p Hp. apply S; [exact Hp | apply Hg, Hp | apply Hfit, Hp].
  - intros (g & Hg & Hfit).
    destruct (dfsSolve_complete al sl el g fuel Hg isFirst st Hwf) as (st2 & E2);
      [lia | exact Hfit |].
    rewrite E2 in E. injection E as <- _. reflexivity.
Qed.

Lemma dfsSolve_decides_witness :
  exists res st',
    dfsSolve quietAssign quietPass quietEliminate 730 true shiftStart
    = Some (Ok (res, st'))
    /\ (res = true <-> solvable (sboard shiftStart)).
Proof.
  apply (dfsSolve_decides quietAssign quietPass quietEliminate 730 true
           shiftStart).
  - reflexivity.
  - lia.
Defined.

(** ** The path and the markers of the search *)

Section SolverBookkeeping.
Context {L : Type}.
Variable al : list Z -> list bool -> GPos -> list Z -> L -> L.
Variable rec : SolverState L -> option (outcome (bool * SolverState L)).
Hypothesis rec_book :
  forall st res st', rec st = Some (Ok (res, st')) -> bookkeeping st res st'.

Lemma tryBranch_book (pos : GPos) (v branchIndex : Z) (st : SolverState L)
    (res : bool) (st' : SolverState L) :
  tryBranch al rec pos v branchIndex st = Some (Ok (res, st')) ->
  bookkeeping st res st'.
Proof using rec_book.
  unfold tryBranch.
  destruct (makeSureAt (sboard st) pos v false) as [b1|]; [|discriminate].
  destruct (rec _) as [[[[|] stRec]|]|] eqn:Er; try discriminate;
    apply rec_book in Er; destruct Er as [Hlen Hrest];
    cbn [spath sassigned] in Hlen, Hrest; intros [= <- <-].
  - split; [exact Hlen|]. destruct Hrest as (branches & Hp).
    exists (branchIndex :: branches). rewrite Hp, <- app_assoc. reflexivity.
  - destruct Hrest as [Hp Hm]. unfold bookkeeping. cbn [spath sassigned].
    split; [exact Hlen|].
    split; [rewrite Hp; apply removelast_last | exact Hm].
Qed.

Lemma tryCandidates_book (pos : GPos) (candidates : list Z) :
  forall (branchIndex : Z) (st : SolverState L) (res : bool)
         (st' : SolverState L),
    tryCandidates al rec pos candidates branchIndex st = Some (Ok (res, st')) ->
    bookkeeping st res st'.
Proof using rec_book.
  induction candidates as [|v rest IH]; intros bi st res st'; cbn [tryCandidates].
  - intros [= <- <-]. split; [reflexivity|]. split; [reflexivity | auto].
  - destruct (tryBranch al rec pos v bi st) as [[[[|] st1]|]|] eqn:E1;
      try discriminate; apply tryBranch_book in E1.
    + intros [= <- <-]. exact E1.
    + intros E2. apply IH in E2. destruct E1 as [Hlen1 [Hp1 Hm1]].
      destruct E2 as [Hlen2 Hrest2]. split; [congruence|].
      destruct res.
      * destruct Hrest2 as (branches & Hp2). exists branches. congruence.
      * destruct Hrest2 as [Hp2 Hm2]. split; [congruence | auto].
Qed.

Lemma branchOn_book (st : SolverState L) (res : bool) (st' : SolverState L) :
  branchOn al rec st = Some (Ok (res, st')) -> bookkeeping st res st'.
Proof using rec_book.
  assert (Hsame : bookkeeping st false st)
    by (split; [reflexivity|]; split; [reflexivity | auto]).
  unfold branchOn.
  destruct (isSolved (sboard st)) as [[|]|]; try discriminate.
  { intros [= <- <-]. split; [reflexivity|]. exists []. symmetry. apply app_nil_r. }
  destruct (findMRVCell (sboard st)) as [[pos cnt]|]; [|discriminate].
  destruct (cnt =? 0); [intros [= <- <-]; exact Hsame|].
  destruct (getCandiatesAt (sboard st) pos) as [candidates|]; [|discriminate].
  destruct (tryCandidates _ _ _ _ _ _) as [[[[|] st2]|]|] eqn:Et;
    try discriminate; apply tryCandidates_book in Et;
    destruct Et as [Hlen Hrest]; cbn [spath sassigned] in Hlen, Hrest;
    rewrite length_insert in Hlen; intros [= <- <-].
  - split; [exact Hlen | exact Hrest].
  - destruct Hrest as [Hp Hm]. unfold bookkeeping. cbn [spath sassigned].
    split; [rewrite length_insert; exact Hlen|]. split; [exact Hp|].
    intros i Hi. apply list_lookup_insert_Some in Hi as [(_ & Hi & _)|[Hne Hi]];
      [discriminate|].
    apply Hm in Hi. rewrite list_lookup_insert_ne in Hi by exact Hne. exact Hi.
Qed.

End SolverBookkeeping.



(** ** Reading a puzzle in *)

Lemma newBoard_flag (p : GPos) (v : Z) :
  validPos p -> validValue v -> flag newBoard p v = true.
Proof.
  intros Hp Hv. pose proof newBoard_flags as H. unfold allFlagsSet in H.
  rewrite forallb_forall in H. specialize (H p (proj2 (allCells_valid p) Hp)).
  rewrite forallb_forall in H. apply H, values_valid, Hv.
Qed.

Lemma filter_all {A : Type} (f : A -> bool) (l : list A) :
  (forall a, In a l -> f a = true) -> List.filter f l = l.
Proof.
  induction l as [|a l IH]; intros H; cbn [List.filter]; [reflexivity|].
  rewrite (H a (or_introl eq_refl)). f_equal. apply IH.
  intros; apply H; right; assumption.
Qed.

(** The clues one after the other, from any board: every clue cell ends
    with its value alone and the other cells are not touched. *)
Lemma ingest_flags (clues : list (GPos * Z)) :
  List.NoDup (map fst clues) ->
  (forall c, In c clues -> validPos (fst c) /\ validValue (snd c)) ->
  forall b0, wfBoard b0 ->
    exists b,
      foldM (fun b clue => makeSureAt b (fst clue) (snd clue) true) clues b0
      = Ok b
      /\ wfBoard b
      /\ (forall p v, In (p, v) clues ->
            forall w, validValue w -> flag b p w = (w =? v))
      /\ (forall p w, validPos p -> validValue w -> ~ In p (map fst clues) ->
            flag b p w = flag b0 p w).
Proof.
  induction clues as [|[p v] rest IH]; intros Hnd Hvalid b0 Hwf; cbn [foldM].
  - exists b0. split; [reflexivity|]. split; [exact Hwf|].
    split; [intros ? ? []|reflexivity].
  - destruct (Hvalid (p, v) (or_introl eq_refl)) as [Hp Hv]. cbn [fst snd] in *.
    apply NoDup_cons_iff in Hnd as [Hfresh Hnd].
    destruct (makeSureAt_spec b0 p v true Hwf Hp)
      as (b1 & E1 & Hwf1 & Hself & Hoth).
    rewrite E1, bind_Ok.
    destruct (IH Hnd (fun c Hc => Hvalid c (or_intror Hc)) b1 Hwf1)
      as (b & E & Hwfb & Hclues & Hrest).
    exists b. split; [exact E|]. split; [exact Hwfb|]. split.
    + intros q u [[= <- <-]|Hin] w Hw; [|apply Hclues; assumption].
      rewrite Hrest, Hself by assumption.
      destruct (w =? v); reflexivity.
    + intros q w Hq Hw Hnot. rewrite Hrest; [|exact Hq|exact Hw|].
      * apply Hoth; [exact Hq | exact Hw |]. intros ->. apply Hnot. left.
        reflexivity.
      * intros Hin. apply Hnot. right. exact Hin.
Qed.

(** X19. Reading a puzzle in and reading it back.  For clues at different
    cells, with positions and values in range, the ingestion of [Main.cpp]
    (a forcing [makeSureAt] per clue on the default board) throws nothing
    and gives a board on which every clue cell has its clue as only value
    (count 1) and every other cell still has all nine candidates. *)
Theorem ingest_roundtrip (clues : list (GPos * Z)) :
  List.NoDup (map fst clues) ->
  (forall c, In c clues -> validPos (fst c) /\ validValue (snd c)) ->
  exists b,
    ingest clues = Ok b
    /\ wfBoard b
    /\ (forall p v, In (p, v) clues -> getCellInfoAt b p = Ok (v, 1))
    /\ (forall p, validPos p -> ~ In p (map fst clues) ->
          getCandiatesAt b p = Ok values).
Proof.
  intros Hnd Hvalid.
  destruct (ingest_flags clues Hnd Hvalid newBoard eq_refl)
    as (b & E & Hwf & Hclues & Hrest).
  exists b. split; [exact E|]. split; [exact Hwf|]. split.
  - intros p v Hin. destruct (Hvalid (p, v) Hin) as [Hp Hv]. cbn [fst snd] in *.
    pose proof (Hclues p v Hin) as Hflags.
    destruct (cellCount_single b p v Hv) as [Hcnt Hlast].
    { intros w Hw Hne. rewrite Hflags by assumption. apply Z.eqb_neq, Hne. }
    rewrite Hflags, Z.eqb_refl in Hcnt, Hlast by assumption.
    rewrite getCellInfoAt_spec, Hcnt, (Hlast eq_refl) by assumption.
    reflexivity.
  - intros p Hp Hnot. rewrite getCandiatesAt_spec by assumption. f_equal.
    apply filter_all. intros w Hw. apply values_valid in Hw.
    rewrite Hrest by assumption. apply newBoard_flag; assumption.
Qed.

Lemma ingest_roundtrip_witness :
  exists b,
    ingest [(mkGPos 6 1, 1); (mkGPos 7 4, 1); (mkGPos 1 6, 1); (mkGPos 4 7, 1)]
    = Ok b
    /\ wfBoard b
    /\ (forall p v,
          In (p, v) [(mkGPos 6 1, 1); (mkGPos 7 4, 1); (mkGPos 1 6, 1);
                     (mkGPos 4 7, 1)] ->
          getCellInfoAt b p = Ok (v, 1))
    /\ (forall p, validPos p ->
          ~ In p (map fst [(mkGPos 6 1, 1); (mkGPos 7 4, 1); (mkGPos 1 6, 1);
                           (mkGPos 4 7, 1)]) ->
          getCandiatesAt b p = Ok values).
Proof.
  apply (ingest_roundtrip
           [(mkGPos 6 1, 1); (mkGPos 7 4, 1); (mkGPos 1 6, 1); (mkGPos 4 7, 1)]).
  - apply (NoDup_map_inv cellIndex). apply increasing_NoDup. reflexivity.
  - intros c [<-|[<-|[<-|[<-|[]]]]]; vm_compute; intuition discriminate.
Defined.

(** ** What the listener is told *)

Lemma seen_notify (cause : SimplificationCause) (cell : GPos) (v by_ : Z)
    (s : PassState (list SeenEvent)) :
  seenPass s -> regularEvent (cause, cell, v, by_, board s) ->
  seenPass (notify recordSeen cause cell v by_ s).
Proof.
  intros [Hwf Hall] He. split; [exact Hwf|]. unfold notify, recordSeen.
  cbn [obs board]. apply Forall_app. split; [exact Hall|].
  constructor; [exact He | constructor].
Qed.

Lemma onlyAt_frame (b b' : list Z) (self q : GPos) (v : Z) :
  validPos self -> validValue v -> self <> q ->
  (forall p w, validPos p -> validValue w -> (p, w) <> (q, v) ->
               flag b' p w = flag b p w) ->
  onlyAt b self v -> onlyAt b' self v.
Proof.
  intros Hself Hv Hne Hframe [Hon Hoth]. split.
  - rewrite Hframe; [exact Hon | exact Hself | exact Hv | congruence].
  - intros w Hw Hwv.
    rewrite Hframe; [apply Hoth; assumption | exact Hself | exact Hw | congruence].
Qed.

Lemma eliminateAt_seen (cause : SimplificationCause) (by_ : Z) (q : GPos)
    (v : Z) (self : GPos) (s s' : PassState (list SeenEvent)) :
  validPos q -> validValue v -> validPos self -> self <> q ->
  (forall b', flag b' q v = false -> onlyAt b' self v ->
              regularEvent (cause, q, v, by_, b')) ->
  seenPass s /\ onlyAt (board s) self v ->
  eliminateAt recordSeen cause by_ q v s = Ok s' ->
  seenPass s' /\ onlyAt (board s') self v.
Proof.
  intros Hq Hv Hself Hne Hj [Hs Honly]. pose proof Hs as [Hwf Hall].
  unfold eliminateAt. rewrite isPossibleAt_flag, bind_Ok by assumption.
  destruct (flag (board s) q v); [|intros [= <-]; split; assumption].
  destruct (setPossibleAt_flags (board s) q v false Hwf Hq Hv)
    as (b' & Eb & Hwf' & Hoff & Hframe).
  rewrite Eb. simpl. intros [= <-]. cbn [board].
  assert (Honly' : onlyAt b' self v)
    by (apply (onlyAt_frame (board s) b' self q v); assumption).
  split; [|exact Honly'].
  apply (seen_notify cause q v by_
           (mkPass b' (wrap32 (eliminations s + 1)) (obs s))).
  - split; assumption.
  - apply Hj; assumption.
Qed.

Lemma eliminateRow_seen (x y v : Z) (s s' : PassState (list SeenEvent)) :
  validPos (mkGPos x y) -> validValue v ->
  seenPass s /\ onlyAt (board s) (mkGPos x y) v ->
  eliminateRow recordSeen x y v s = Ok s' ->
  seenPass s' /\ onlyAt (board s') (mkGPos x y) v.
Proof.
  intros Hp Hv Hs. pose proof Hp as [Hx Hy]. cbn [getX getY] in Hx, Hy.
  unfold eliminateRow.
  apply (foldM_keeps
           (fun s => seenPass s /\ onlyAt (board s) (mkGPos x y) v)
           (fun cx => 0 <= cx <= 8));
    [intros a; apply range9_In | | exact Hs].
  intros s1 cx s2 Hcx H1. destruct (Z.eqb_spec cx x) as [->|Hne];
    [intros [= <-]; exact H1|].
  assert (Hq : validPos (mkGPos cx y)) by (split; assumption).
  apply eliminateAt_seen; auto; [congruence|].
  intros b' Hoff Honly. split; [|discriminate].
  split; [exact Hq|]. split; [reflexivity|]. split; [exact Hv|].
  split; [exact Hoff|]. exists (mkGPos x y). cbn [houseOf getX getY].
  split; [apply rowCells_In; auto|]. split; [congruence|]. auto.
Qed.

Lemma eliminateColumn_seen (x y v : Z) (s s' : PassState (list SeenEvent)) :
  validPos (mkGPos x y) -> validValue v ->
  seenPass s /\ onlyAt (board s) (mkGPos x y) v ->
  eliminateColumn recordSeen x y v s = Ok s' ->
  seenPass s' /\ onlyAt (board s') (mkGPos x y) v.
Proof.
  intros Hp Hv Hs. pose proof Hp as [Hx Hy]. cbn [getX getY] in Hx, Hy.
  unfold eliminateColumn.
  apply (foldM_keeps
           (fun s => seenPass s /\ onlyAt (board s) (mkGPos x y) v)
           (fun cy => 0 <= cy <= 8));
    [intros a; apply range9_In | | exact Hs].
  intros s1 cy s2 Hcy H1. destruct (Z.eqb_spec cy y) as [->|Hne];
    [intros [= <-]; exact H1|].
  assert (Hq : validPos (mkGPos x cy)) by (split; assumption).
  apply eliminateAt_seen; auto; [congruence|].
  intros b' Hoff Honly. split; [|discriminate].
  split; [exact Hq|]. split; [reflexivity|]. split; [exact Hv|].
  split; [exact Hoff|]. exists (mkGPos x y). cbn [houseOf getX getY].
  split; [apply colCells_In; auto|]. split; [congruence|]. auto.
Qed.

Lemma eliminateChunk_seen (x y v : Z) (s s' : PassState (list SeenEvent)) :
  validPos (mkGPos x y) -> validValue v ->
  seenPass s /\ onlyAt (board s) (mkGPos x y) v ->
  eliminateChunk recordSeen x y v s = Ok s' ->
  seenPass s' /\ onlyAt (board s') (mkGPos x y) v.
Proof.
  intros Hp Hv Hs. pose proof Hp as [Hx Hy]. cbn [getX getY] in Hx, Hy.
  unfold eliminateChunk.
  apply (foldM_keeps
           (fun s => seenPass s /\ onlyAt (board s) (mkGPos x y) v)
           (fun by_ => In by_ [y / 3 * 3; y / 3 * 3 + 1; y / 3 * 3 + 2]));
    [auto | | exact Hs].
  intros s1 by_ s2 Hby H1.
  apply (foldM_keeps
           (fun s => seenPass s /\ onlyAt (board s) (mkGPos x y) v)
           (fun bx => In bx [x / 3 * 3; x / 3 * 3 + 1; x / 3 * 3 + 2]));
    [auto | | exact H1].
  intros s3 bx s4 Hbx H3. destruct (samePos bx by_ x y) eqn:Hsame;
    [intros [= <-]; exact H3|].
  apply samePos_false in Hsame.
  assert (Hq : validPos (mkGPos bx by_))
    by (split; [apply (chunk_range x) | apply (chunk_range y)]; assumption).
  pose proof Hq as [Hbx8 Hby8]. cbn [getX getY] in Hbx8, Hby8.
  pose proof (chunk_div _ _ Hbx) as Dx. pose proof (chunk_div _ _ Hby) as Dy.
  apply eliminateAt_seen; auto.
  intros b' Hoff Honly. split; [|discriminate].
  split; [exact Hq|]. cbn [houseIndex houseOf getX getY].
  split; [congruence|]. split; [exact Hv|].
  split; [exact Hoff|]. exists (mkGPos x y).
  split; [|split; [congruence | auto]].
  apply chunkCells_In. cbn [getX getY].
  split; apply chunk_member; auto.
Qed.

Lemma maybeSure_seen (success : bool) (cause : SimplificationCause) (by_ : Z)
    (p : GPos) (v cnt : Z) (s s' : PassState (list SeenEvent)) :
  validPos p -> validValue v ->
  (success = true -> regularEvent (cause, p, v, by_, board s)) ->
  seenPass s /\ flag (board s) p v = true ->
  (if success then valueSure recordSeen cause by_ p v cnt s else Ok s) = Ok s' ->
  seenPass s' /\ flag (board s') p v = true.
Proof.
  intros Hp Hv Hj [Hs Hon]. destruct success; [|intros [= <-]; split; assumption].
  pose proof Hs as [Hwf Hall]. unfold valueSure, notify.
  cbn [board eliminations obs].
  destruct (makeSureAt_spec (board s) p v false Hwf Hp)
    as (b' & E & Hwf' & Hself & _).
  rewrite E, bind_Ok. intros [= <-]. cbn [board]. split.
  - split; [exact Hwf'|]. cbn [obs]. unfold recordSeen.
    apply Forall_app. split; [exact Hall|].
    constructor; [apply Hj; reflexivity | constructor].
  - rewrite Hself, Z.eqb_refl by assumption. exact Hon.
Qed.

Lemma hiddenSingleAt_seen (x y cnt : Z) (s : PassState (list SeenEvent))
    (v : Z) (s' : PassState (list SeenEvent)) :
  validPos (mkGPos x y) -> validValue v -> seenPass s ->
  hiddenSingleAt recordSeen x y cnt s v = Ok s' -> seenPass s'.
Proof.
  intros Hp Hv Hs. pose proof Hp as [Hx Hy]. cbn [getX getY] in Hx, Hy.
  unfold hiddenSingleAt. rewrite isPossibleAt_flag, bind_Ok by assumption.
  destruct (flag (board s) (mkGPos x y) v) eqn:Hon; cbn [negb];
    [|intros [= <-]; exact Hs].
  destruct (rowUnique (board s) x y v) as [r1|] eqn:U1; [|discriminate].
  rewrite bind_Ok.
  destruct (if r1 then _ else _) as [s1|] eqn:E1; [|discriminate].
  rewrite bind_Ok.
  apply maybeSure_seen in E1; [|exact Hp|exact Hv| |split; assumption].
  2:{ intros ->. split; [|discriminate].
      split; [exact Hp|]. split; [reflexivity|]. split; [exact Hv|].
      split; [exact Hon|]. cbn [houseOf getY].
      apply rowUnique_true; assumption. }
  destruct E1 as [Hs1 Hon1].
  destruct (colUnique (board s1) x y v) as [r2|] eqn:U2; [|discriminate].
  rewrite bind_Ok.
  destruct (if r2 then _ else _) as [s2|] eqn:E2; [|discriminate].
  rewrite bind_Ok.
  apply maybeSure_seen in E2; [|exact Hp|exact Hv| |split; assumption].
  2:{ intros ->. split; [|discriminate].
      split; [exact Hp|]. split; [reflexivity|]. split; [exact Hv|].
      split; [exact Hon1|]. cbn [houseOf getX].
      apply colUnique_true; assumption. }
  destruct E2 as [Hs2 Hon2].
  destruct (chunkUnique (board s2) x y v) as [r3|] eqn:U3; [|discriminate].
  rewrite bind_Ok. intros E3.
  apply maybeSure_seen in E3; [apply E3|exact Hp|exact Hv| |split; assumption].
  intros ->. split; [|discriminate].
  split; [exact Hp|]. split; [reflexivity|]. split; [exact Hv|].
  split; [exact Hon2|]. cbn [houseOf getX getY].
  apply chunkUnique_true; assumption.
Qed.

Lemma stopped_here (c : GPos) (s : PassState (list SeenEvent)) :
  validPos c -> seenPass s -> cellCount (board s) c = 0 ->
  stoppedAt c (notify recordSeen NO_VALUE_POSSIBLE c 0 0 s).
Proof.
  intros Hc [Hwf Hall] Hz. unfold stoppedAt, notify, recordSeen.
  cbn [board obs]. split; [exact Hwf|]. split; [exact Hc|]. split; [exact Hz|].
  exists (obs s). split; [reflexivity | exact Hall].
Qed.

Lemma simplifyCell_seen (c : GPos) (s : PassState (list SeenEvent))
    (r : bool * PassState (list SeenEvent)) :
  validPos c -> seenPass s -> simplifyCell recordSeen c s = Ok r ->
  if fst r then seenPass (snd r) else stoppedAt c (snd r).
Proof.
  intros Hc Hs. destruct c as [x y]. unfold simplifyCell. cbn [getX getY].
  rewrite getCellInfoAt_spec, bind_Ok by assumption. cbn [fst snd].
  destruct (Z.eqb_spec (cellCount (board s) (mkGPos x y)) 0) as [E0|_].
  { intros [= <-]. cbn [fst snd]. apply stopped_here; assumption. }
  destruct (if cellCount (board s) (mkGPos x y) =? 1 then _ else _)
    as [s1|] eqn:E1; [|discriminate].
  assert (F1 : seenPass s1).
  { destruct (Z.eqb_spec (cellCount (board s) (mkGPos x y)) 1) as [Eone|];
      [|injection E1 as <-; exact Hs].
    pose proof (onlyValue_spec (board s) (mkGPos x y) Eone) as Hspec.
    cbv zeta in Hspec. destruct Hspec as (Hv & Hon & Huniq).
    assert (Honly : onlyAt (board s) (mkGPos x y)
                      (lastSet (flag (board s) (mkGPos x y)) values 0)).
    { split; [exact Hon|]. intros w Hw Hne.
      destruct (flag (board s) (mkGPos x y) w) eqn:Ew; [|reflexivity].
      exfalso. apply Hne, Huniq; assumption. }
    destruct (eliminateRow _ _ _ _ s) as [sa|] eqn:Ea; [|discriminate].
    rewrite bind_Ok in E1.
    destruct (eliminateColumn _ _ _ _ sa) as [sb|] eqn:Eb; [|discriminate].
    rewrite bind_Ok in E1.
    apply eliminateRow_seen in Ea; [|exact Hc|exact Hv|split; assumption].
    apply eliminateColumn_seen in Eb; [|exact Hc|exact Hv|exact Ea].
    apply eliminateChunk_seen in E1; [apply E1|exact Hc|exact Hv|exact Eb]. }
  rewrite bind_Ok, getCellInfoAt_spec, bind_Ok by assumption. cbn [fst snd].
  destruct (Z.eqb_spec (cellCount (board s1) (mkGPos x y)) 0) as [E0|_].
  { intros [= <-]. cbn [fst snd]. apply stopped_here; assumption. }
  destruct (cellCount (board s1) (mkGPos x y) =? 1);
    [intros [= <-]; exact F1|].
  destruct (foldM _ values s1) as [s2|] eqn:E2; [|discriminate].
  rewrite bind_Ok. intros [= <-]. cbn [fst snd].
  revert E2.
  apply (foldM_keeps seenPass validValue);
    [intros a; apply values_valid | | exact F1].
  intros sa v sb Hv Ha. apply hiddenSingleAt_seen; assumption.
Qed.

Lemma simplifyCells_seen (cells : list GPos) :
  (forall c, In c cells -> validPos c) ->
  forall (s : PassState (list SeenEvent))
         (r : bool * PassState (list SeenEvent)),
    seenPass s -> simplifyCells recordSeen cells s = Ok r ->
    if fst r then seenPass (snd r) else exists c, stoppedAt c (snd r).
Proof.
  induction cells as [|c cells IH]; intros Hcells s r Hs; cbn [simplifyCells].
  - intros [= <-]. exact Hs.
  - destruct (simplifyCell recordSeen c s) as [r1|] eqn:E1; [|discriminate].
    rewrite bind_Ok.
    apply simplifyCell_seen in E1; [|apply Hcells; left; reflexivity|exact Hs].
    destruct (fst r1) eqn:Hok.
    + apply IH; [intros; apply Hcells; right; assumption | exact E1].
    + intros [= <-]. rewrite Hok. exists c. exact E1.
Qed.

Lemma simplify_seen (b : list Z) :
  wfBoard b ->
  exists ok s',
    simplify recordSeen b [] = Ok (ok, s')
    /\ if ok then seenPass s' else exists c, stoppedAt c s'.
Proof.
  intros Hwf.
  destruct (simplify_step recordSeen b [] Hwf) as (ok & s' & E & _).
  exists ok, s'. split; [exact E|]. unfold simplify in E.
  apply simplifyCells_seen in E.
  - exact E.
  - intros c. apply allCells_valid.
  - split; [exact Hwf | constructor].
Qed.

(** X20. Every event a pass reports is true of the board the listener
    sees.  An elimination by row, column or chunk carries the index of that
    house; the value has just been cleared at the cell and is the only
    candidate of another cell of the house.  A "value sure" carries the
    index of the house, and the value is possible at the cell and at no
    other cell of the house (the other candidates of the cell are cleared
    after the call).  A "no value possible" carries value 0 and index 0 and
    the cell has no candidate. *)
Theorem events_justified (b : list Z) :
  wfBoard b ->
  exists ok s',
    simplify recordSeen b [] = Ok (ok, s') /\ Forall justified (obs s').
Proof.
  intros Hwf. destruct (simplify_seen b Hwf) as (ok & s' & E & H).
  exists ok, s'. split; [exact E|]. destruct ok.
  - destruct H as [_ Hall]. eapply Forall_impl; [exact Hall|].
    intros e He. apply He.
  - destruct H as (c & _ & Hc & Hz & evs & -> & Hall).
    apply Forall_app. split.
    + eapply Forall_impl; [exact Hall|]. intros e He. apply He.
    + constructor; [|constructor].
      split; [exact Hc|]. split; [reflexivity|]. split; [reflexivity | exact Hz].
Qed.

Lemma events_justified_witness :
  exists ok s',
    simplify recordSeen fourOnes [] = Ok (ok, s') /\ Forall justified (obs s').
Proof. apply (events_justified fourOnes). reflexivity. Defined.

(** X21. The listener hears of a dead end exactly when the pass returns
    [false], and then as the last event: a pass that returns [true]
    reports no "no value possible"; a pass that returns [false] reports
    exactly one, after all other events, for a cell that is empty on the
    board the pass leaves. *)
Theorem no_value_event_last (b : list Z) :
  wfBoard b ->
  exists ok s',
    simplify recordSeen b [] = Ok (ok, s')
    /\ (ok = true ->
        Forall (fun e => seenCause e <> NO_VALUE_POSSIBLE) (obs s'))
    /\ (ok = false ->
        exists evs c,
          obs s' = evs ++ [(NO_VALUE_POSSIBLE, c, 0, 0, board s')]
          /\ Forall (fun e => seenCause e <> NO_VALUE_POSSIBLE) evs
          /\ validPos c /\ getPossiblesCountAt (board s') c = Ok 0).
Proof.
  intros Hwf. destruct (simplify_seen b Hwf) as (ok & s' & E & H).
  exists ok, s'. split; [exact E|]. destruct ok.
  - split; [|discriminate]. intros _. destruct H as [_ Hall].
    eapply Forall_impl; [exact Hall|]. intros e He. apply He.
  - split; [discriminate|]. intros _.
    destruct H as (c & _ & Hc & Hz & evs & Hobs & Hall).
    exists evs, c. split; [exact Hobs|]. split.
    + eapply Forall_impl; [exact Hall|]. intros e He. apply He.
    + split; [exact Hc|]. unfold getPossiblesCountAt.
      rewrite getCellInfoAt_spec, bind_Ok by assumption. cbn [snd].
      rewrite Hz. reflexivity.
Qed.

Lemma no_value_event_last_witness :
  exists ok s',
    simplify recordSeen twoFives [] = Ok (ok, s')
    /\ (ok = true ->
        Forall (fun e => seenCause e <> NO_VALUE_POSSIBLE) (obs s'))
    /\ (ok = false ->
        exists evs c,
          obs s' = evs ++ [(NO_VALUE_POSSIBLE, c, 0, 0, board s')]
          /\ Forall (fun e => seenCause e <> NO_VALUE_POSSIBLE) evs
          /\ validPos c /\ getPossiblesCountAt (board s') c = Ok 0).
Proof. apply (no_value_event_last twoFives). reflexivity. Defined.

(** ** A pass on a solved board *)

Lemma sumZ_eq_pointwise {A : Type} (f g : A -> Z) (l : list A) :
  (forall a, In a l -> f a = g a) -> sumZ f l = sumZ g l.
Proof.
  induction l as [|a l IH]; intros H; cbn [sumZ]; [reflexivity|].
  rewrite (H a (or_introl eq_refl)), IH; [reflexivity|].
  intros; apply H; right; assumption.
Qed.

(** X22. On a solved board a pass of [simplify] is the check of the grid:
    it returns [true] exactly when the values shown form a valid completed
    grid (no value twice in a row, a column or a chunk), and then it counts
    no elimination and leaves the board as it is. *)
Theorem simplify_checks_solved_board {L : Type}
    (ev : SimplificationCause -> GPos -> Z -> Z -> list Z -> L -> L)
    (b : list Z) (l : L) :
  wfBoard b -> isSolved b = Ok true ->
  exists ok s',
    simplify ev b l = Ok (ok, s')
    /\ (ok = true <-> validGrid (gridOf b))
    /\ (ok = true -> eliminations s' = 0 /\ board s' = b).
Proof.
  intros Hwf Hsolved.
  pose proof (proj1 (solved_counts b) Hsolved) as Hone.
  destruct (simplify_step ev b l Hwf) as (ok & s' & E & Hwf' & Hsub & Hdec & _).
  exists ok, s'. split; [exact E|].
  assert (Hvalid : ok = true -> validGrid (gridOf b)).
  { intros ->. split.
    - intros p Hp. apply (gridOf_single b p Hp (Hone p Hp)).
    - intros p q Hp Hq Hpeer Heq.
      destruct (gridOf_single b p Hp (Hone p Hp)) as (Hv & _ & Hoffp).
      destruct (gridOf_single b q Hq (Hone q Hq)) as (_ & _ & Hoffq).
      rewrite <- Heq in Hoffq.
      destruct (simplifyCells_duplicate ev allCells p q (gridOf b p)
                  (fun c => proj1 (allCells_valid c))
                  (proj2 (allCells_valid p) Hp) (proj2 (allCells_valid q) Hq)
                  Hpeer Hv (mkPass b 0 l) Hwf Hoffp Hoffq) as (s2 & E2).
      unfold simplify in E. rewrite E in E2. discriminate. }
  split; [split; [exact Hvalid|]|].
  - intros Hg.
    assert (Hfit : fits (gridOf b) b).
    { apply fits_flag; [exact Hg|]. intros p Hp.
      apply (gridOf_single b p Hp (Hone p Hp)). }
    destruct (simplify_fits ev (gridOf b) b l Hg Hwf Hfit) as (s2 & E2 & _).
    rewrite E in E2. injection E2 as -> _. reflexivity.
  - intros Hok. pose proof (Hvalid Hok) as Hg. subst ok.
    assert (Hfit : fits (gridOf b) b).
    { apply fits_flag; [exact Hg|]. intros p Hp.
      apply (gridOf_single b p Hp (Hone p Hp)). }
    destruct (simplify_fits ev (gridOf b) b l Hg Hwf Hfit)
      as (s2 & E2 & _ & Hfit2 & _).
    rewrite E in E2. injection E2 as <-.
    assert (Hsame : flagCount (board s') = flagCount b).
    { rewrite !flagCount_cells. apply sumZ_eq_pointwise. intros p Hp.
      apply allCells_valid in Hp. rewrite (Hone p Hp).
      pose proof (cellCount_mono _ _ p Hsub Hp) as Hle. rewrite (Hone p Hp) in Hle.
      pose proof (cellCount_pos (board s') p (gridOf b p)
                    (proj1 Hg p Hp)
                    (proj1 (fits_flag _ _ Hg) Hfit2 p Hp)).
      lia. }
    assert (E0 : eliminations s' = 0).
    { destruct (Z.eq_dec (eliminations s') 0) as [|Hne]; [assumption|].
      specialize (Hdec Hne). lia. }
    split; [exact E0|].
    apply (simplify_counter ev b l true s' E), E0.
Qed.

Lemma simplify_checks_solved_board_witness :
  exists ok s',
    simplify (@silentEvent unit) (sboard shiftEnd) tt = Ok (ok, s')
    /\ (ok = true <-> validGrid (gridOf (sboard shiftEnd)))
    /\ (ok = true -> eliminations s' = 0 /\ board s' = sboard shiftEnd).
Proof.
  apply (simplify_checks_solved_board silentEvent (sboard shiftEnd) tt).
  - vm_compute. reflexivity.
  - vm_compute. reflexivity.
Defined.
